(** * fenicsR13: the solver module, embedded and checked

    The repository holds two revisions of one module:
    - [src/fenicsR13/src/solver.py]  (modes "heat" and "stress"), below [Module R13];
    - [src/src/solver.py]            (adds mode "coupled"),       below [Module Src].

    Conventions of the embedding.
    - A Python float is a rational ([Q]); equality of numbers is [Qeq].
    - A UFL expression is what it denotes at a point of the mesh: a scalar
      that gets differentiated is a first-order jet (value and the two
      partial derivatives of the two-dimensional domain), a tensor is a
      nested list of its entries, as [df.as_tensor] takes it.
    - A form is the list of its integrals, each an integrand with a measure.
    - Calls that leave Python for the finite-element library (linear solve,
      interpolation, projection, norms by quadrature, compiled expressions)
      are the members of the class [Dolfin]. *)

From Stdlib Require Import QArith Qabs Qminmax ZArith String DecimalString Bool Lia.
From Stdlib Require Import Setoid Morphisms.
From Stdlib Require Import List.
Import ListNotations.

Local Open Scope Q_scope.

(** ** Python results

    The exceptions by their classes; [UFLException] is the one UFL raises
    through [ufl.log.error], its message left out. *)

Inductive exn : Type :=
| Exception (msg : string)
| KeyError (key : string)
| UnboundLocalError (name : string)
| TypeError (what : string)
| AttributeError (what : string)
| ValueError (what : string)
| IndexError (what : string)
| ZeroDivisionError
| UFLException.

Inductive result (A : Type) : Type :=
| Ok (a : A)
| Raise (e : exn).
Arguments Ok {A} a.
Arguments Raise {A} e.

(** A method runs on the object it mutates and returns or raises; what it
    mutated before raising stays mutated. *)
Definition M (S A : Type) : Type := S -> result A * S.

Definition ret {S A} (a : A) : M S A := fun s => (Ok a, s).
Definition raise {S A} (e : exn) : M S A := fun s => (Raise e, s).
Definition bind {S A B} (c : M S A) (k : A -> M S B) : M S B :=
  fun s =>
    match c s with
    | (Ok a, s') => k a s'
    | (Raise e, s') => (Raise e, s')
    end.
Definition get {S} : M S S := fun s => (Ok s, s).
Definition modify {S} (f : S -> S) : M S unit := fun s => (Ok tt, f s).
Definition lift {S A} (r : result A) : M S A := fun s => (r, s).

(** [d[k]] on a value that may be missing, with the error Python raises. *)
Definition require {S A} (e : exn) (o : option A) : M S A :=
  match o with
  | Some a => ret a
  | None => raise e
  end.

Declare Scope py_scope.
Delimit Scope py_scope with py.
Notation "x <- c ;; k" := (bind c (fun x => k))
  (at level 61, c at next level, right associativity) : py_scope.
Notation "' pat <- c ;; k" := (bind c (fun x => match x with pat => k end))
  (at level 61, pat pattern, c at next level, right associativity) : py_scope.
Notation "c ;;; k" := (bind c (fun _ => k))
  (at level 61, right associativity) : py_scope.

(** [[f(x) for x in xs]] with a body that can raise. *)
Fixpoint comprehension {S A B} (f : A -> M S B) (xs : list A) : M S (list B) :=
  match xs with
  | [] => ret []
  | x :: xs' =>
      bind (f x) (fun y =>
      bind (comprehension f xs') (fun ys =>
      ret (y :: ys)))
  end.

(** [for x in xs: body(x)] *)
Fixpoint for_each {S A} (body : A -> M S unit) (xs : list A) : M S unit :=
  match xs with
  | [] => ret tt
  | x :: xs' => bind (body x) (fun _ => for_each body xs')
  end.

(** A dict with insertion order: [d[k]], [d[k] = v] on an existing or a new
    key, [d.keys()]. *)
Section Dict.
Context {K V : Type} (eqb : K -> K -> bool).

Fixpoint dict_get (d : list (K * V)) (k : K) : option V :=
  match d with
  | [] => None
  | (k', v) :: d' => if eqb k k' then Some v else dict_get d' k
  end.

Fixpoint dict_set (d : list (K * V)) (k : K) (v : V) : list (K * V) :=
  match d with
  | [] => [(k, v)]
  | (k', v') :: d' =>
      if eqb k k' then (k', v) :: d' else (k', v') :: dict_set d' k v
  end.

Definition dict_keys (d : list (K * V)) : list K := map fst d.
End Dict.

Definition sget {V} (d : list (string * V)) (k : string) : option V :=
  dict_get String.eqb d k.
Definition sset {V} (d : list (string * V)) (k : string) (v : V)
  : list (string * V) :=
  dict_set String.eqb d k v.

(** ** Tensor algebra at a point *)

Module Tensor.

(** A differentiable scalar at a point of the 2D domain. *)
Record jet : Type := mkJet { val : Q; d0 : Q; d1 : Q }.

(** [a.dx(i)]; the domain has the directions 0 and 1. *)
Definition dx (a : jet) (i : nat) : Q :=
match i with
| O => d0 a
| S O => d1 a
| _ => 0
end.

Definition jconst (c : Q) : jet := mkJet c 0 0.
Definition jzero : jet := jconst 0.
Definition jneg (a : jet) : jet := mkJet (- val a) (- d0 a) (- d1 a).
Definition jadd (a b : jet) : jet :=
mkJet (val a + val b) (d0 a + d0 b) (d1 a + d1 b).
Definition jsub (a b : jet) : jet :=
mkJet (val a - val b) (d0 a - d0 b) (d1 a - d1 b).
Definition jscale (c : Q) (a : jet) : jet :=
mkJet (c * val a) (c * d0 a) (c * d1 a).

Definition jet_eq (a b : jet) : Prop :=
val a == val b /\ d0 a == d0 b /\ d1 a == d1 b.

(** Entries of nested lists: [t[i]], [t[i, j]], [t[i, j, k]]. *)
Definition idx1 {A} (z : A) (t : list A) (i : nat) : A := nth i t z.
Definition idx2 {A} (z : A) (t : list (list A)) (i j : nat) : A :=
nth j (nth i t []) z.
Definition idx3 {A} (z : A) (t : list (list (list A))) (i j k : nat) : A :=
nth k (nth j (nth i t []) []) z.

Notation "t '@[' i ]" := (idx1 0 t i%nat) (at level 1, format "t '@[' i ]").
Notation "t '@[' i , j ]" := (idx2 0 t i%nat j%nat)
(at level 1, format "t '@[' i ,  j ]").
Notation "t '@[' i , j , k ]" := (idx3 0 t i%nat j%nat k%nat)
(at level 1, format "t '@[' i ,  j ,  k ]").
Notation "t '@j[' i ]" := (idx1 jzero t i%nat) (at level 1, format "t '@j[' i ]").
Notation "t '@j[' i , j ]" := (idx2 jzero t i%nat j%nat)
(at level 1, format "t '@j[' i ,  j ]").

(** [ufl.as_tensor(body, (i,))], [(i, j)], [(i, j, k)] over given extents. *)
Definition tab1 {A} (n : nat) (f : nat -> A) : list A := map f (seq 0 n).
Definition tab2 {A} (n m : nat) (f : nat -> nat -> A) : list (list A) :=
tab1 n (fun i => tab1 m (f i)).
Definition tab3 {A} (n m o : nat) (f : nat -> nat -> nat -> A)
: list (list (list A)) :=
tab1 n (fun i => tab2 m o (f i)).

(** Summation over a repeated index. *)
Definition index_sum (n : nat) (f : nat -> Q) : Q :=
fold_right (fun i acc => f i + acc) 0 (seq 0 n).

(** [ufl.Identity(n)[i, j]] *)
Definition Identity (n : nat) : list (list Q) :=
tab2 n n (fun i j => if Nat.eqb i j then 1 else 0).

Definition vals (v : list jet) : list Q := map val v.
Definition vals2 (m : list (list jet)) : list (list Q) := map vals m.

(** [df.grad]: a new last index over the two directions. *)
Definition grad0 (a : jet) : list Q := [d0 a; d1 a].
Definition grad1 (v : list jet) : list (list Q) := map grad0 v.
Definition grad2 (m : list (list jet)) : list (list (list Q)) := map grad1 m.

(** [df.div]: contraction of the last index with the derivative. *)
Definition div1 (v : list jet) : Q :=
index_sum 2 (fun i => dx v@j[i] i).
Definition div2 (m : list (list jet)) : list Q :=
tab1 (length m) (fun i => index_sum 2 (fun j => dx m@j[i, j] j)).

(** [df.dot] and [df.inner] on real tensors of equal shape. *)
Definition dot (a b : list Q) : Q :=
index_sum (length a) (fun i => a@[i] * b@[i]).
Definition inner2 (a b : list (list Q)) : Q :=
index_sum (length a) (fun i =>
  index_sum (length (nth i a [])) (fun j => a@[i, j] * b@[i, j])).
Definition inner3 (a b : list (list (list Q))) : Q :=
index_sum (length a) (fun i =>
  index_sum (length (nth i a [])) (fun j =>
    index_sum (length (nth j (nth i a []) [])) (fun k =>
      a@[i, j, k] * b@[i, j, k]))).

(** [A * n] of a matrix and a vector, [ufl.transpose], [ufl.tr], [df.sym],
  [ufl.perp] (of a vector of length 2: [assemble] makes the check of the
  length where it builds the tangent). *)
Definition matvec (a : list (list Q)) (x : list Q) : list Q :=
map (fun row => dot row x) a.
Definition transpose (a : list (list Q)) : list (list Q) :=
tab2 (length (nth 0 a [])) (length a) (fun i j => a@[j, i]).
Definition tr (a : list (list Q)) : Q :=
index_sum (length a) (fun i => a@[i, i]).
Definition sym (m : list (list jet)) : list (list jet) :=
tab2 (length m) (length m) (fun i j =>
  jscale (1/2) (jadd m@j[i, j] m@j[j, i])).
Definition perp (n : list Q) : list Q := [- n@[1]; n@[0]].

(** *** The nested tensor functions of [assemble]
  ([src/fenicsR13/src/solver.py], lines 181-299) *)

(** [dev3d(mat)]: 2d deviatoric part of actually 3d matrix. *)
Definition dev3d (mat : list (list Q)) : list (list Q) :=
tab2 2 2 (fun i j =>
  (1/2) * (mat@[i, j] + (transpose mat)@[i, j])
  - (1/3) * tr mat * (Identity 2)@[i, j]).

(** [innerOfTracefree2(rank2_1, rank2_2)] *)
Definition innerOfTracefree2 (rank2_1 rank2_2 : list (list Q)) : Q :=
inner2 rank2_1 rank2_2
+ rank2_1@[0, 0] * rank2_2@[0, 0]
+ rank2_1@[0, 0] * rank2_2@[1, 1]
+ rank2_1@[1, 1] * rank2_2@[0, 0]
+ rank2_1@[1, 1] * rank2_2@[1, 1].

(** [sym3(rank3)]: the symmetric part of a rank-3 tensor. *)
Definition sym3 (rank3 : list (list (list Q))) : list (list (list Q)) :=
let d := length rank3 in
tab3 d d d (fun i j k =>
  1/6 * (
    (* all permutations *)
    rank3@[i, j, k]
    + rank3@[i, k, j]
    + rank3@[j, i, k]
    + rank3@[j, k, i]
    + rank3@[k, i, j]
    + rank3@[k, j, i])).

(** [dev3(rank3)]: the deviator of a rank-3 tensor. *)
Definition dev3 (rank3 : list (list (list Q))) : list (list (list Q)) :=
let delta := Identity 3 in
let d := length (sym3 rank3) in
tab3 d 3 3 (fun i j k =>
  let sym_ijk := (sym3 rank3)@[i, j, k] in
  let trace_ijk := 1/5 * (
    index_sum d (fun l => (sym3 rank3)@[i, l, l]) * delta@[j, k]
    + index_sum d (fun l => (sym3 rank3)@[j, l, l]) * delta@[i, k]
    + index_sum d (fun l => (sym3 rank3)@[k, l, l]) * delta@[i, j]) in
  let tracefree_ijk := sym_ijk - trace_ijk in
  tracefree_ijk).

(** [gen3dTracefreeTensor(rank2)]: the synthetic 3D version of a 2D tensor. *)
Definition gen3dTracefreeTensor (rank2 : list (list jet)) : list (list jet) :=
[ [rank2@j[0, 0]; rank2@j[0, 1]; jzero];
  [rank2@j[1, 0]; rank2@j[1, 1]; jzero];
  [jzero; jzero; jsub (jneg rank2@j[0, 0]) rank2@j[1, 1]] ].

(** [grad3dOf2(rank2)]: the derivative index comes first, and the third
  direction carries no derivative. *)
Definition grad3dOf2 (rank2 : list (list jet)) : list (list (list Q)) :=
let grad2d := grad2 rank2 in
let dim3 := [ [0; 0; 0]; [0; 0; 0]; [0; 0; 0] ] in
let grad3d := [
  tab2 (length grad2d) (length (nth 0 grad2d [])) (fun i j => grad2d@[i, j, 0]);
  tab2 (length grad2d) (length (nth 0 grad2d [])) (fun i j => grad2d@[i, j, 1]);
  tab2 (length dim3) (length (nth 0 dim3 [])) (fun i j => dim3@[i, j]) ] in
grad3d.

(** The expression returned under [if hardcoded:]. *)
Definition innerOfDevOfGrad2AndGrad2_hardcoded (sigma psi : list (list jet)) : Q :=
dx psi@j[1, 1] 1 * ((3 * dx sigma@j[1, 1] 1)/5 - dx sigma@j[0, 1] 0 / 5 - dx sigma@j[1, 0] 0 / 5)
+ (- dx psi@j[0, 0] 1 - dx psi@j[1, 1] 1) * (- dx sigma@j[0, 0] 1 / 3 - (7 * dx sigma@j[1, 1] 1)/15 - dx sigma@j[0, 1] 0 / 15 - dx sigma@j[1, 0] 0 / 15)
+ dx psi@j[0, 0] 1 * (dx sigma@j[0, 0] 1 / 3 - (2 * dx sigma@j[1, 1] 1)/15 + (4 * dx sigma@j[0, 1] 0)/15 + (4 * dx sigma@j[1, 0] 0)/15)
+ dx psi@j[0, 1] 1 * ((4 * dx sigma@j[0, 1] 1)/15 + (4 * dx sigma@j[1, 0] 1)/15 - (2 * dx sigma@j[0, 0] 0)/15 + dx sigma@j[1, 1] 0 / 3)
+ dx psi@j[1, 0] 1 * ((4 * dx sigma@j[0, 1] 1)/15 + (4 * dx sigma@j[1, 0] 1)/15 - (2 * dx sigma@j[0, 0] 0)/15 + dx sigma@j[1, 1] 0 / 3)
+ (- dx sigma@j[0, 1] 1 / 5 - dx sigma@j[1, 0] 1 / 5 + (3 * dx sigma@j[0, 0] 0)/5) * dx psi@j[0, 0] 0
+ (dx sigma@j[0, 0] 1 / 3 - (2 * dx sigma@j[1, 1] 1)/15 + (4 * dx sigma@j[0, 1] 0)/15 + (4 * dx sigma@j[1, 0] 0)/15) * dx psi@j[0, 1] 0
+ (dx sigma@j[0, 0] 1 / 3 - (2 * dx sigma@j[1, 1] 1)/15 + (4 * dx sigma@j[0, 1] 0)/15 + (4 * dx sigma@j[1, 0] 0)/15) * dx psi@j[1, 0] 0
+ (- dx sigma@j[0, 1] 1 / 15 - dx sigma@j[1, 0] 1 / 15 - (7 * dx sigma@j[0, 0] 0)/15 - dx sigma@j[1, 1] 0 / 3) * (- dx psi@j[0, 0] 0 - dx psi@j[1, 1] 0)
+ ((4 * dx sigma@j[0, 1] 1)/15 + (4 * dx sigma@j[1, 0] 1)/15 - (2 * dx sigma@j[0, 0] 0)/15 + dx sigma@j[1, 1] 0 / 3) * dx psi@j[1, 1] 0.

(** The expression returned under [else:]. *)
Definition innerOfDevOfGrad2AndGrad2_compositional (sigma psi : list (list jet)) : Q :=
inner3
  (dev3 (grad3dOf2 (gen3dTracefreeTensor sigma)))
  (grad3dOf2 (gen3dTracefreeTensor psi)).

(** [innerOfDevOfGrad2AndGrad2], with its local [hardcoded] made an argument. *)
Definition innerOfDevOfGrad2AndGrad2_with (hardcoded : bool)
  (sigma psi : list (list jet)) : Q :=
if hardcoded
then innerOfDevOfGrad2AndGrad2_hardcoded sigma psi
else innerOfDevOfGrad2AndGrad2_compositional sigma psi.

(** [innerOfDevOfGrad2AndGrad2(sigma, psi)]: the source sets
  [hardcoded = False]. *)
Definition innerOfDevOfGrad2AndGrad2 (sigma psi : list (list jet)) : Q :=
let hardcoded := false in
innerOfDevOfGrad2AndGrad2_with hardcoded sigma psi.

(** Shape of a rank-2 tensor given as rows. *)
Definition has_shape2 {A} (n m : nat) (t : list (list A)) : Prop :=
length t = n /\ Forall (fun row => length row = m) t.

(** A symmetric 2x2 tensor field: the off-diagonal entries are one field. *)
Definition symmetric2 (t : list (list jet)) : Prop :=
has_shape2 2 2 t /\ jet_eq t@j[0, 1] t@j[1, 0].

End Tensor.

(** ** UFL elements, meshes, function spaces, functions *)

(** A [ufl.Cell]: the name of the cell and its geometric dimension; UFL
    compares both.  [df.interval], [df.triangle], ... are the cells whose
    geometric dimension is their own; the cell of a mesh embedded in a space
    of higher dimension is none of them. *)
Record ufl_cell_t : Type := Cell {
  cellname : string;
  geometric_dimension : nat
}.

Definition interval : ufl_cell_t := Cell "interval"%string 1.
Definition triangle : ufl_cell_t := Cell "triangle"%string 2.
Definition quadrilateral : ufl_cell_t := Cell "quadrilateral"%string 2.
Definition tetrahedron : ufl_cell_t := Cell "tetrahedron"%string 3.
Definition hexahedron : ufl_cell_t := Cell "hexahedron"%string 3.

(** Elements are plain data compared by value.  [df.VectorElement(e, cell, deg)]
    and [df.TensorElement(e, cell, deg, symmetry=True)] wrap the scalar element
    [df.FiniteElement(e, cell, deg)], which is also the form
    [df.TensorElement(df.FiniteElement(..), symmetry=True)] is written in.
    An element holds the name its family is registered under in UFL (the
    constructors below look it up), so that elements of one family compare
    equal however the family was given.  [df.MixedElement] keeps the
    arguments of the call: each is an element or a Python list of elements. *)
Inductive element : Type :=
| FiniteElement (family : string) (cell : ufl_cell_t) (degree : Z)
| VectorElement (sub : element)
| TensorElement (sub : element) (symmetry : bool)
| MixedElement (args : list mixed_arg)
with mixed_arg : Type :=
| elem_arg (e : element)
| list_arg (es : list element).

Definition cell_eqb (a b : ufl_cell_t) : bool :=
  String.eqb (cellname a) (cellname b)
  && Nat.eqb (geometric_dimension a) (geometric_dimension b).

(** [el_sol == el_symm] *)
Fixpoint element_eqb (a b : element) : bool :=
  match a, b with
  | FiniteElement f c d, FiniteElement f' c' d' =>
      String.eqb f f' && cell_eqb c c' && Z.eqb d d'
  | VectorElement s, VectorElement s' => element_eqb s s'
  | TensorElement s y, TensorElement s' y' =>
      element_eqb s s' && Bool.eqb y y'
  | MixedElement l, MixedElement l' =>
      (fix args_eqb (l l' : list mixed_arg) {struct l} : bool :=
         match l, l' with
         | [], [] => true
         | x :: t, x' :: t' =>
             match x, x' with
             | elem_arg e, elem_arg e' => element_eqb e e'
             | list_arg es, list_arg es' =>
                 (fix list_eqb (es es' : list element) {struct es} : bool :=
                    match es, es' with
                    | [], [] => true
                    | e :: r, e' :: r' => element_eqb e e' && list_eqb r r'
                    | _, _ => false
                    end) es es'
             | _, _ => false
             end && args_eqb t t'
         | _, _ => false
         end) l l'
  | _, _ => false
  end.

(** How UFL reads the arguments of a call of [MixedElement]: one list
    argument is un-nested, any other list argument is a mixed element of its
    own. *)
Definition sub_elements (e : element) : list element :=
  match e with
  | MixedElement [list_arg es] => es
  | MixedElement args =>
      map (fun a => match a with
                    | elem_arg e' => e'
                    | list_arg es => MixedElement [list_arg es]
                    end) args
  | _ => []
  end.


Record Mesh : Type := {
  ufl_cell : ufl_cell_t;
  num_vertices : nat
}.

(** [meshes.H5Mesh]: the mesh and the facet markers [boundaries.array()]. *)
Record H5Mesh : Type := {
  h5_mesh : Mesh;
  h5_boundaries : list Z
}.

Record FunctionSpace_t : Type := FunctionSpace {
  fs_mesh : Mesh;
  ufl_element : element
}.

(** [df.TensorFunctionSpace(mesh, family, degree)]: no symmetry. *)
Definition TensorFunctionSpace (msh : Mesh) (family : string) (degree : Z)
  : FunctionSpace_t :=
  FunctionSpace msh (TensorElement (FiniteElement family (ufl_cell msh) degree) false).

(** A [df.Function]: its space, its coefficient vector, its name. *)
Record Function : Type := {
  function_space : FunctionSpace_t;
  vector : list Q;
  name : string
}.

Definition rename (f : Function) (nm : string) : Function :=
  {| function_space := function_space f; vector := vector f; name := nm |}.

Definition set_vector (f : Function) (v : list Q) : Function :=
  {| function_space := function_space f; vector := v; name := name f |}.

(** What can be interpolated, projected or compared: a function, a compiled
    exact solution, a difference of two, a component [e[i]]. *)
Inductive gexpr : Type :=
| Fn (f : Function)
| CompiledExpression (cls : string) (degree : Z)
| Minus (a b : gexpr)
| Component (e : gexpr) (i : nat).

(** [df.Expression(code, degree=2, tau=.., phi=.., R=..)]: the code, the
    degree, the numbers passed by keyword ([phi] and [R] are the two fixed
    expressions of [__init__]). *)
Record Expression_t : Type := Expression {
  cppcode : string;
  expr_degree : Z;
  expr_kwargs : list (string * Q)
}.

(** ** Forms *)

Import Tensor.

Inductive side : Type := plus | minus.

(** What the integrands read at a point: the coordinates, the facet normal,
    the cell diameter, and the trial and test functions of the mixed spaces. *)
Record locals : Type := {
  coords : list Q;
  FacetNormal : list Q;
  CellDiameter : Q;
  trial_theta : jet;
  trial_s : list jet;
  trial_p : jet;
  trial_u : list jet;
  trial_sigma : list (list jet);
  test_kappa : jet;
  test_r : list jet;
  test_q : jet;
  test_v : list jet;
  test_psi : list (list jet)
}.

(** A point of an interior facet has the two sides; cell and exterior-facet
    integrals read the [plus] side only. *)
Definition point : Type := side -> locals.

Definition terminal {A} (f : locals -> A) : point -> A :=
  fun x => f (x plus).

(** [e("+")], [e("-")] *)
Definition restricted {A} (e : point -> A) (sd : side) : point -> A :=
  fun x => e (fun _ => x sd).

(** [df.jump(v, n)] for a vector and for a matrix [v]. *)
Definition jump1 (v n : point -> list Q) : point -> Q :=
  fun x => dot (restricted v plus x) (restricted n plus x)
           + dot (restricted v minus x) (restricted n minus x).
Definition jump2 (v : point -> list (list Q)) (n : point -> list Q)
  : point -> list Q :=
  fun x => map (fun ab => fst ab + snd ab)
             (combine (matvec (restricted v plus x) (restricted n plus x))
                      (matvec (restricted v minus x) (restricted n minus x))).

Inductive measure : Type :=
| df_dx
| df_ds (subdomain_id : option Z)
| df_dS.

Record integral : Type := {
  integrand : point -> Q;
  measure_of : measure
}.

Definition Form : Type := list integral.

(** [integrand * measure] *)
Definition integrate (f : point -> Q) (m : measure) : Form :=
  [ {| integrand := f; measure_of := m |} ].

(** The values a sum of forms takes in Python: the int [0] or a form. *)
Inductive pyform : Type :=
| PyZero
| PyForm (f : Form).

(** [Form.__add__] and [__radd__]: adding [0] is a no-op.  The list keeps
    the integrals in the order they were added in; a UFL form hands them out
    grouped by integral type and subdomain, the integrals of one measure
    still in that order. *)
Definition form_add (a b : pyform) : pyform :=
  match a, b with
  | PyZero, b => b
  | a, PyZero => a
  | PyForm f, PyForm g => PyForm (f ++ g)
  end.

(** [sum([...])] *)
Definition form_sum (l : list pyform) : pyform := fold_left form_add l PyZero.

Definition integrals (a : pyform) : list integral :=
  match a with
  | PyZero => []
  | PyForm f => f
  end.

Definition measure_eqb (a b : measure) : bool :=
  match a, b with
  | df_dx, df_dx | df_dS, df_dS => true
  | df_ds None, df_ds None => true
  | df_ds (Some i), df_ds (Some j) => Z.eqb i j
  | _, _ => false
  end.

(** Two forms are the same when they are sums of the same integrals: same
    measure, same value of the integrand at every point. *)
Definition integral_eq (i j : integral) : Prop :=
  measure_of i = measure_of j /\ forall x, integrand i x == integrand j x.

Definition form_eq (a b : pyform) : Prop :=
  match a, b with
  | PyZero, PyZero => True
  | PyForm f, PyForm g => Forall2 integral_eq f g
  | _, _ => False
  end.

(** [a / b] on Python floats. *)
Definition pydiv (a b : Q) : result Q :=
  if Qeq_bool b 0 then Raise ZeroDivisionError else Ok (a / b).

(** ** The finite-element library *)

Inductive DirichletBC : Type :=
| mkDirichletBC (V : FunctionSpace_t) (value : Q) (marker : Z).

(** [df.Measure(integral_type, domain=mesh, subdomain_data=boundaries)] *)
Record Measure_t : Type := Measure {
  integral_type : string;
  domain : Mesh;
  subdomain_data : list Z
}.

(** What a method does outside the solver object: a linear system solved, a
    file written, an attribute of the module [dolfin] bound anew
    ([df.ds = ...]). *)
Inductive event : Type :=
| df_solve (a L : pyform) (w : FunctionSpace_t) (bcs : list DirichletBC)
    (linear_solver : string)
| xdmf_write (filename : string) (field : Function) (time : string)
| df_setattr (attribute : string) (value : Measure_t).

Class Dolfin : Type := {
  (** the value of a compiled expression at given coordinates *)
  Expression_eval : Expression_t -> list Q -> Q;
  (** the number of degrees of freedom of a space *)
  dim : FunctionSpace_t -> nat;
  (** the function [df.solve(a == L, sol, bcs, solver_parameters)] leaves in
      [sol], and [sol.split()] *)
  solution : pyform -> pyform -> FunctionSpace_t -> list DirichletBC -> string
             -> Function;
  split : Function -> list Function;
  interpolate : gexpr -> FunctionSpace_t -> Function;
  project : gexpr -> FunctionSpace_t -> Function;
  (** [df.errornorm(u, uh, "L2")] *)
  errornorm_L2 : gexpr -> gexpr -> Q;
  compute_vertex_values : Function -> list Q;
  (** the table of element families of UFL: the name a family is registered
      under, given by that name or by its short name, when the table has the
      family for the cell and the degree; [None] when it has not, which is
      when the constructor of the element raises *)
  ufl_family : string -> ufl_cell_t -> Z -> option string;
  (** an interpolant has one coefficient per degree of freedom *)
  interpolate_dim : forall e V, length (vector (interpolate e V)) = dim V
}.

(** ** The solver object *)

(** [params["elements"][var]]: the keys [shape] and [degree]. *)
Record elem_cfg : Type := {
  shape : string;
  degree : Z
}.

(** The parameter dict [Input("input.yml").dict], by its keys; the two
    revisions read the output folder from different keys. *)
Record Params : Type := {
  params_mode : string;
  params_use_coeffs : bool;
  params_tau : Q;
  params_xi_tilde : Q;
  params_cip_enable : bool;
  params_delta_1 : Q;
  params_delta_2 : Q;
  params_delta_3 : Q;
  params_bcs : list (Z * list (string * Q));
  params_heat_source : string;
  params_mass_source : string;
  params_exact_solution : string;
  params_output_folder : option string;
  params_case_name : option string;
  params_elements : list (string * elem_cfg)
}.

(** An entry of [self.errors]: a float, or a list of floats by component. *)
Inductive errval : Type :=
| err_float (x : Q)
| err_list (xs : list Q).

(** The attributes [__init__] sets and no method assigns again. *)
Record Config : Type := {
  params : Params;
  mesh : Mesh;
  boundaries : list Z;
  cell : ufl_cell_t;
  time : string;
  mode : string;
  use_coeffs : bool;
  tau : Q;
  xi_tilde : Q;
  use_cip : bool;
  delta_1 : Q;
  delta_2 : Q;
  delta_3 : Q;
  bcs : list (Z * list (string * Q));
  R : Expression_t;
  phi : Expression_t;
  heat_source : Expression_t;
  mass_source : Expression_t;
  exact_solution : string;
  output_folder : string;
  var_ranks : list (string * nat)
}.

(** The solver: the attributes above and the ones the methods assign.
    [self.errors["f"]["l2"]] and [self.errors["v"]["linf"]] are the fields
    [errors_f_l2] and [errors_v_linf]; [io] is not an attribute: it lists
    what the methods did so far outside the solver object. *)
Record Solver : Type := {
  config :> Config;
  elems : list (string * option element);
  fspaces : list (string * option FunctionSpace_t);
  mxd_elems : list (string * option element);
  mxd_fspaces : list (string * option FunctionSpace_t);
  form_a : option pyform;
  form_b : option pyform;
  sol : list (string * option Function);
  esol : list (string * option gexpr);
  errors_f_l2 : list (string * option errval);
  errors_v_linf : list (string * option errval);
  io : list event
}.

Definition set_elems (v : list (string * option element))
    (self : Solver) : Solver :=
  {| config := config self; elems := v; fspaces := fspaces self;
     mxd_elems := mxd_elems self; mxd_fspaces := mxd_fspaces self;
     form_a := form_a self; form_b := form_b self; sol := sol self;
     esol := esol self; errors_f_l2 := errors_f_l2 self;
     errors_v_linf := errors_v_linf self; io := io self |}.

Definition set_fspaces (v : list (string * option FunctionSpace_t))
    (self : Solver) : Solver :=
  {| config := config self; elems := elems self; fspaces := v;
     mxd_elems := mxd_elems self; mxd_fspaces := mxd_fspaces self;
     form_a := form_a self; form_b := form_b self; sol := sol self;
     esol := esol self; errors_f_l2 := errors_f_l2 self;
     errors_v_linf := errors_v_linf self; io := io self |}.

Definition set_mxd_elems (v : list (string * option element))
    (self : Solver) : Solver :=
  {| config := config self; elems := elems self; fspaces := fspaces self;
     mxd_elems := v; mxd_fspaces := mxd_fspaces self; form_a := form_a self;
     form_b := form_b self; sol := sol self; esol := esol self;
     errors_f_l2 := errors_f_l2 self; errors_v_linf := errors_v_linf self;
     io := io self |}.

Definition set_mxd_fspaces (v : list (string * option FunctionSpace_t))
    (self : Solver) : Solver :=
  {| config := config self; elems := elems self; fspaces := fspaces self;
     mxd_elems := mxd_elems self; mxd_fspaces := v; form_a := form_a self;
     form_b := form_b self; sol := sol self; esol := esol self;
     errors_f_l2 := errors_f_l2 self; errors_v_linf := errors_v_linf self;
     io := io self |}.

Definition set_form_a (v : option pyform)
    (self : Solver) : Solver :=
  {| config := config self; elems := elems self; fspaces := fspaces self;
     mxd_elems := mxd_elems self; mxd_fspaces := mxd_fspaces self;
     form_a := v; form_b := form_b self; sol := sol self; esol := esol self;
     errors_f_l2 := errors_f_l2 self; errors_v_linf := errors_v_linf self;
     io := io self |}.

Definition set_form_b (v : option pyform)
    (self : Solver) : Solver :=
  {| config := config self; elems := elems self; fspaces := fspaces self;
     mxd_elems := mxd_elems self; mxd_fspaces := mxd_fspaces self;
     form_a := form_a self; form_b := v; sol := sol self; esol := esol self;
     errors_f_l2 := errors_f_l2 self; errors_v_linf := errors_v_linf self;
     io := io self |}.

Definition set_sol (v : list (string * option Function))
    (self : Solver) : Solver :=
  {| config := config self; elems := elems self; fspaces := fspaces self;
     mxd_elems := mxd_elems self; mxd_fspaces := mxd_fspaces self;
     form_a := form_a self; form_b := form_b self; sol := v;
     esol := esol self; errors_f_l2 := errors_f_l2 self;
     errors_v_linf := errors_v_linf self; io := io self |}.

Definition set_esol (v : list (string * option gexpr))
    (self : Solver) : Solver :=
  {| config := config self; elems := elems self; fspaces := fspaces self;
     mxd_elems := mxd_elems self; mxd_fspaces := mxd_fspaces self;
     form_a := form_a self; form_b := form_b self; sol := sol self; esol := v;
     errors_f_l2 := errors_f_l2 self; errors_v_linf := errors_v_linf self;
     io := io self |}.

Definition set_errors_f_l2 (v : list (string * option errval))
    (self : Solver) : Solver :=
  {| config := config self; elems := elems self; fspaces := fspaces self;
     mxd_elems := mxd_elems self; mxd_fspaces := mxd_fspaces self;
     form_a := form_a self; form_b := form_b self; sol := sol self;
     esol := esol self; errors_f_l2 := v; errors_v_linf := errors_v_linf self;
     io := io self |}.

Definition set_errors_v_linf (v : list (string * option errval))
    (self : Solver) : Solver :=
  {| config := config self; elems := elems self; fspaces := fspaces self;
     mxd_elems := mxd_elems self; mxd_fspaces := mxd_fspaces self;
     form_a := form_a self; form_b := form_b self; sol := sol self;
     esol := esol self; errors_f_l2 := errors_f_l2 self; errors_v_linf := v;
     io := io self |}.

Definition set_io (v : list event)
    (self : Solver) : Solver :=
  {| config := config self; elems := elems self; fspaces := fspaces self;
     mxd_elems := mxd_elems self; mxd_fspaces := mxd_fspaces self;
     form_a := form_a self; form_b := form_b self; sol := sol self;
     esol := esol self; errors_f_l2 := errors_f_l2 self;
     errors_v_linf := errors_v_linf self; io := v |}.

Local Open Scope string_scope.
Local Open Scope py_scope.

(** [str(n)] of an integer. *)
Definition str_of_Z (z : Z) : string :=
  DecimalString.NilZero.string_of_int (Z.to_int z).

(** [d[k]] of a dict of string keys whose values start as [None]: a missing
    key is a [KeyError]; the value may be [None]. *)
Definition getitem {S V} (d : list (string * V)) (k : string) : M S V :=
  require (KeyError k) (sget d k).

(** Use of a value that must not be [None]. *)
Definition not_none {S V} (what : string) (o : option V) : M S V :=
  require (AttributeError what) o.

(** [self] *)
Definition this : M Solver Solver := get.

(** *** Methods that read the same in both revisions *)

(** [Solver.check_bcs]: every boundary id of the mesh is [0] or a key of
    [bcs]. *)
Definition check_bcs : M Solver unit :=
  self <- this ;;
  let boundary_ids := boundaries self in
  let bcs_specified := dict_keys (bcs self) in
  for_each (fun edge_id =>
    if negb (existsb (Z.eqb edge_id) ([0%Z] ++ bcs_specified)) (* inner zero allowed *)
    then raise (Exception ("Mesh edge id " ++ str_of_Z edge_id ++ " has no bcs!"))
    else ret tt) boundary_ids.

Section Elements.
Context {D : Dolfin}.

(** [df.FiniteElement(family, cell, degree)]: the element of the family by
    its registered name; [UFLException] for a family, cell and degree the
    table of UFL does not have. *)
Definition df_FiniteElement {S} (family : string) (cell : ufl_cell_t)
    (degree : Z) : M S element :=
  match ufl_family family cell degree with
  | Some registered => ret (FiniteElement registered cell degree)
  | None => raise UFLException
  end.

(** [df.VectorElement(family, cell, degree)] and
    [df.TensorElement(family, cell, degree, symmetry=..)] build the scalar
    element first. *)
Definition df_VectorElement {S} (family : string) (cell : ufl_cell_t)
    (degree : Z) : M S element :=
  sub <- df_FiniteElement family cell degree ;;
  ret (VectorElement sub).

Definition df_TensorElement {S} (family : string) (cell : ufl_cell_t)
    (degree : Z) (symmetry : bool) : M S element :=
  sub <- df_FiniteElement family cell degree ;;
  ret (TensorElement sub symmetry).

(** The loop of [setup_function_spaces] over [self.elems]. *)
Definition setup_elems_loop : M Solver unit :=
  self <- this ;;
  let cell := cell self in
  let msh := mesh self in
  for_each (fun var =>
    self <- this ;;
    cfg <- getitem (params_elements (params self)) var ;;
    let e := shape cfg in
    let deg := degree cfg in
    rank <- getitem (var_ranks self) var ;;
    (match rank with
     | 0%nat =>
         el <- df_FiniteElement e cell deg ;;
         modify (fun self => set_elems (sset (elems self) var (Some el)) self)
     | 1%nat =>
         el <- df_VectorElement e cell deg ;;
         modify (fun self => set_elems (sset (elems self) var (Some el)) self)
     | 2%nat =>
         el <- df_TensorElement e cell deg true ;;
         modify (fun self => set_elems (sset (elems self) var (Some el)) self)
     | _ => ret tt
     end) ;;;
    self <- this ;;
    el <- getitem (elems self) var ;;
    el <- not_none "FunctionSpace" el ;;
    modify (fun self =>
      set_fspaces (sset (fspaces self) var (Some (FunctionSpace msh el))) self))
    (dict_keys (elems self)).

End Elements.

Definition add_io (ev : event) (self : Solver) : Solver :=
  set_io (io self ++ [ev]) self.

(** [a - b] of two coefficient vectors, [df.norm(v, "linf")],
    [np.max(np.abs(a - b))] (which raises on empty arrays). *)
Definition vec_sub (a b : list Q) : list Q :=
  map (fun ab => fst ab - snd ab) (combine a b).
Definition norm_linf (v : list Q) : Q :=
  fold_right (fun x acc => Qmax (Qabs x) acc) 0 v.
Definition max_abs (x : Q) (v' : list Q) : Q :=
  fold_right (fun y acc => Qmax (Qabs y) acc) (Qabs x) v'.
Definition np_max_abs {S} (v : list Q) : M S Q :=
  match v with
  | [] => raise (ValueError "zero-size array to reduction operation maximum")
  | x :: v' => ret (max_abs x v')
  end.

(** [sum(v)] of the entries of a coefficient vector. *)
Definition vec_sum (v : list Q) : Q := fold_right Qplus 0 v.

Section Methods.
Context {D : Dolfin}.

(** [df.Function(V)]: the zero function of [V]. *)
Definition Function_new (V : FunctionSpace_t) : Function :=
  {| function_space := V; vector := repeat 0 (dim V); name := "f" |}.

(** [f.assign(df.Constant(c))] *)
Definition assign_constant (f : Function) (c : Q) : Function :=
  set_vector f (map (fun _ => c) (vector f)).

(** [f.assign(f - g)] *)
Definition assign_difference (f g : Function) : Function :=
  set_vector f (vec_sub (vector f) (vector g)).

(** The loop of [write_xdmf] over [range(5)]: the field after the loop, and
    whether it was replaced by its projection.  The element [el_symm] is
    made of the Lagrange element of the triangle of a degree from 1 to 5,
    which UFL has under this name. *)
Fixpoint remove_symmetry (msh : Mesh) (field : Function) (degrees : list nat)
  : Function * bool :=
  match degrees with
  | [] => (field, false)
  | degree :: rest =>
      let el_symm :=
        TensorElement
          (FiniteElement "Lagrange" triangle (Z.of_nat degree + 1)) true in
      let el_sol := ufl_element (function_space field) in
      if element_eqb el_sol el_symm
      then (* Remove symmetry with projection *)
        (project (Fn field)
           (TensorFunctionSpace msh "Lagrange" (Z.of_nat degree + 1)), true)
      else remove_symmetry msh field rest
  end.

(** [Solver.write_xdmf(name, field)].  The value returned is the caller's
    object after the call: [rename] acts on it unless the loop has replaced
    the local [field] by a projection.  The call [file.write(field, time)]
    is recorded; it is taken to return, which the comment in the source
    says it does not for a symmetric tensor. *)
Definition write_xdmf (name : string) (field : Function) : M Solver Function :=
  self <- this ;;
  let filename := output_folder self ++ name ++ "_" ++ time self ++ ".xdmf" in
  let '(field', projected) := remove_symmetry (mesh self) field (seq 0 5) in
  let field' := rename field' name in
  modify (add_io (xdmf_write filename field' (time self))) ;;;
  ret (if projected then field else field').

(** [Solver.write_solutions] *)
Definition write_solutions : M Solver unit :=
  self <- this ;;
  let sols := sol self in
  for_each (fun field =>
    self <- this ;;
    sols_field <- getitem (sol self) field ;;
    match sols_field with
    | Some f =>
        f' <- write_xdmf field f ;;
        modify (fun self => set_sol (sset (sol self) field (Some f')) self)
    | None => ret tt
    end) (dict_keys sols).

(** The helpers nested in [calc_errors] (their [print] calls are left
    out). *)
Definition calc_scalarfield_errors (sol_ : option Function)
    (sol_e_ : option gexpr) (v_sol : option FunctionSpace_t) (name_ : string)
  : M Solver (errval * errval) :=
  sol_e_ <- not_none "interpolate" sol_e_ ;;
  v_sol <- not_none "interpolate" v_sol ;;
  let field_e_i := interpolate sol_e_ v_sol in
  sol_ <- not_none "interpolate" sol_ ;;
  let field_i := interpolate (Fn sol_) v_sol in
  let difference := project (Minus sol_e_ (Fn sol_)) v_sol in
  write_xdmf ("difference_" ++ name_) difference ;;;
  let err_f_L2 := errornorm_L2 sol_e_ (Fn sol_) in
  let err_v_linf := norm_linf (vec_sub (vector field_e_i) (vector field_i)) in
  write_xdmf (name_ ++ "_e") field_e_i ;;;
  ret (err_float err_f_L2, err_float err_v_linf).

(** [[g(i) for i in range(dofs)]] over the components of the two
    interpolants. *)
Definition by_component {A} (g : Function -> Function -> M Solver A)
    (field_e_i field_i : Function) : M Solver (list A) :=
  let dofs := length (split field_e_i) in
  comprehension (fun i =>
    e_i <- require (IndexError "field_e_i.split()[i]")
             (nth_error (split field_e_i) i) ;;
    s_i <- require (IndexError "field_i.split()[i]")
             (nth_error (split field_i) i) ;;
    g e_i s_i) (seq 0 dofs).

(** The lists [errs_f_L2] and [errs_v_linf], built the same way in
    [calc_vectorfield_errors] and [calc_tensorfield_errors]. *)
Definition componentwise_errors (field_e_i field_i : Function)
  : M Solver (errval * errval) :=
  errs_f_L2 <- by_component (fun e_i s_i =>
    ret (errornorm_L2 (Fn e_i) (Fn s_i))) field_e_i field_i ;;
  errs_v_linf <- by_component (fun e_i s_i =>
    np_max_abs (vec_sub (compute_vertex_values e_i)
                        (compute_vertex_values s_i))) field_e_i field_i ;;
  ret (err_list errs_f_L2, err_list errs_v_linf).

Definition calc_vectorfield_errors (sol_ : option Function)
    (sol_e_ : option gexpr) (v_sol : option FunctionSpace_t) (name_ : string)
  : M Solver (errval * errval) :=
  sol_e_ <- not_none "interpolate" sol_e_ ;;
  v_sol <- not_none "interpolate" v_sol ;;
  let field_e_i := interpolate sol_e_ v_sol in
  sol_ <- not_none "interpolate" sol_ ;;
  let field_i := interpolate (Fn sol_) v_sol in
  let difference := project (Minus sol_e_ (Fn sol_)) v_sol in
  write_xdmf ("difference_" ++ name_) difference ;;;
  errs <- componentwise_errors field_e_i field_i ;;
  write_xdmf (name_ ++ "_e") field_e_i ;;;
  ret errs.

Definition calc_tensorfield_errors (sol_ : option Function)
    (sol_e_ : option gexpr) (v_sol : option FunctionSpace_t) (name_ : string)
  : M Solver (errval * errval) :=
  sol_e_ <- not_none "interpolate" sol_e_ ;;
  v_sol <- not_none "interpolate" v_sol ;;
  let field_e_i := interpolate sol_e_ v_sol in
  sol_ <- not_none "interpolate" sol_ ;;
  let field_i := interpolate (Fn sol_) v_sol in
  let difference := project (Minus (Fn field_e_i) (Fn field_i)) v_sol in
  write_xdmf ("difference_" ++ name_) difference ;;;
  errs <- componentwise_errors field_e_i field_i ;;
  write_xdmf (name_ ++ "_e") field_e_i ;;;
  ret errs.

(** The two blocks of [calc_errors], the same in both revisions but for
    their guards. *)
Definition calc_errors_heat : M Solver unit :=
  self <- this ;;
  sol_theta <- getitem (sol self) "theta" ;;
  esol_theta <- getitem (esol self) "theta" ;;
  fs_theta <- getitem (fspaces self) "theta" ;;
  se <- calc_scalarfield_errors sol_theta esol_theta fs_theta "theta" ;;
  self <- this ;;
  sol_s <- getitem (sol self) "s" ;;
  esol_s <- getitem (esol self) "s" ;;
  fs_s <- getitem (fspaces self) "s" ;;
  ve <- calc_vectorfield_errors sol_s esol_s fs_s "s" ;;
  modify (fun self =>
    set_errors_v_linf (sset (errors_v_linf self) "theta" (Some (snd se)))
      (set_errors_f_l2 (sset (errors_f_l2 self) "theta" (Some (fst se))) self)) ;;;
  modify (fun self =>
    set_errors_v_linf (sset (errors_v_linf self) "s" (Some (snd ve)))
      (set_errors_f_l2 (sset (errors_f_l2 self) "s" (Some (fst ve))) self)).

Definition calc_errors_stress : M Solver unit :=
  self <- this ;;
  sol_p <- getitem (sol self) "p" ;;
  esol_p <- getitem (esol self) "p" ;;
  fs_p <- getitem (fspaces self) "p" ;;
  se <- calc_scalarfield_errors sol_p esol_p fs_p "p" ;;
  self <- this ;;
  sol_u <- getitem (sol self) "u" ;;
  esol_u <- getitem (esol self) "u" ;;
  fs_u <- getitem (fspaces self) "u" ;;
  ve <- calc_vectorfield_errors sol_u esol_u fs_u "u" ;;
  self <- this ;;
  sol_sigma <- getitem (sol self) "sigma" ;;
  esol_sigma <- getitem (esol self) "sigma" ;;
  fs_sigma <- getitem (fspaces self) "sigma" ;;
  te <- calc_tensorfield_errors sol_sigma esol_sigma fs_sigma "sigma" ;;
  modify (fun self =>
    set_errors_v_linf (sset (errors_v_linf self) "p" (Some (snd se)))
      (set_errors_f_l2 (sset (errors_f_l2 self) "p" (Some (fst se))) self)) ;;;
  modify (fun self =>
    set_errors_v_linf (sset (errors_v_linf self) "u" (Some (snd ve)))
      (set_errors_f_l2 (sset (errors_f_l2 self) "u" (Some (fst ve))) self)) ;;;
  modify (fun self =>
    set_errors_v_linf (sset (errors_v_linf self) "sigma" (Some (snd te)))
      (set_errors_f_l2 (sset (errors_f_l2 self) "sigma" (Some (fst te))) self)).

End Methods.

(** *** Notation for forms *)

Definition times (f : point -> Q) (m : measure) : pyform :=
  PyForm (integrate f m).

Infix "+@" := form_add (at level 50, left associativity).

(** The terminals of [assemble]: normal, tangent, cell diameter, averaged
    cell diameter, trial and test functions. *)
Definition n : point -> list Q := terminal FacetNormal.
Definition t : point -> list Q := fun x => perp (n x).
Definition h : point -> Q := terminal CellDiameter.
Definition h_avg : point -> Q :=
  fun x => (restricted h plus x + restricted h minus x) / 2.

Definition theta : point -> jet := terminal trial_theta.
Definition s : point -> list jet := terminal trial_s.
Definition p : point -> jet := terminal trial_p.
Definition u : point -> list jet := terminal trial_u.
Definition sigma : point -> list (list jet) := terminal trial_sigma.
Definition kappa : point -> jet := terminal test_kappa.
Definition r : point -> list jet := terminal test_r.
Definition q : point -> jet := terminal test_q.
Definition v : point -> list jet := terminal test_v.
Definition psi : point -> list (list jet) := terminal test_psi.

(** Projections on the normal and the tangent. *)
Definition s_n : point -> Q := fun x => dot (vals (s x)) (n x).
Definition r_n : point -> Q := fun x => dot (vals (r x)) (n x).
Definition s_t : point -> Q := fun x => dot (vals (s x)) (t x).
Definition r_t : point -> Q := fun x => dot (vals (r x)) (t x).
Definition sigma_nn : point -> Q :=
  fun x => dot (matvec (vals2 (sigma x)) (n x)) (n x).
Definition psi_nn : point -> Q :=
  fun x => dot (matvec (vals2 (psi x)) (n x)) (n x).
Definition sigma_tt : point -> Q :=
  fun x => dot (matvec (vals2 (sigma x)) (t x)) (t x).
Definition psi_tt : point -> Q :=
  fun x => dot (matvec (vals2 (psi x)) (t x)) (t x).
Definition sigma_nt : point -> Q :=
  fun x => dot (matvec (vals2 (sigma x)) (n x)) (t x).
Definition psi_nt : point -> Q :=
  fun x => dot (matvec (vals2 (psi x)) (n x)) (t x).

(** The stabilization terms, written the same in both revisions. *)
Definition cip_heat (delta_1 : Q) : pyform :=
  times (fun x =>
    - (delta_1 * h_avg x ^ 3
       * jump1 (fun x => grad0 (theta x)) n x
       * jump1 (fun x => grad0 (kappa x)) n x)) df_dS.

Definition cip_stress (delta_2 delta_3 : Q) : pyform :=
  times (fun x =>
    delta_2 * h_avg x ^ 3
      * dot (jump2 (fun x => grad1 (u x)) n x) (jump2 (fun x => grad1 (v x)) n x)
    - delta_3 * h_avg x
      * jump1 (fun x => grad0 (p x)) n x * jump1 (fun x => grad0 (q x)) n x) df_dS.

(** The initial dicts of [__init__]. *)
Definition five {V} : list (string * option V) :=
  [("theta", None); ("s", None); ("p", None); ("u", None); ("sigma", None)].
Definition three {V} : list (string * option V) :=
  [("heat", None); ("stress", None); ("coupled", None)].
Definition two {V} : list (string * option V) :=
  [("theta", None); ("s", None)].

(** [Solver.__init__(params, mesh, time)] with the output folder given. *)
Definition init_with (output_folder : string) (params : Params) (mesh : H5Mesh)
    (time : string) : Solver :=
  {| config := {|
       params := params;
       mesh := h5_mesh mesh;
       boundaries := h5_boundaries mesh;
       cell := ufl_cell (h5_mesh mesh);
       time := time;
       mode := params_mode params;
       use_coeffs := params_use_coeffs params;
       tau := params_tau params;
       xi_tilde := params_xi_tilde params;
       use_cip := params_cip_enable params;
       delta_1 := params_delta_1 params;
       delta_2 := params_delta_2 params;
       delta_3 := params_delta_3 params;
       bcs := params_bcs params;
       R := Expression "sqrt(pow(x[0],2)+pow(x[1],2))" 2 [];
       phi := Expression "atan2(x[1],x[0])" 2 [];
       heat_source :=
         Expression (params_heat_source params) 2 [("tau", params_tau params)];
       mass_source :=
         Expression (params_mass_source params) 2 [("tau", params_tau params)];
       exact_solution := params_exact_solution params;
       output_folder := output_folder;
       var_ranks :=
         [("theta", 0); ("s", 1); ("p", 0); ("u", 1); ("sigma", 2)]%nat |};
     elems := five;
     fspaces := five;
     mxd_elems := three;
     mxd_fspaces := three;
     form_a := None;
     form_b := None;
     sol := five;
     esol := five;
     errors_f_l2 := two;
     errors_v_linf := two;
     io := [] |}.

(** A list display such as [[self.elems["theta"], self.elems["s"]]] handed
    to a constructor that takes elements only. *)
Fixpoint all_elements {S} (l : list (option element)) : M S (list element) :=
  match l with
  | [] => ret []
  | o :: l' =>
      e <- not_none "MixedElement" o ;;
      es <- all_elements l' ;;
      ret (e :: es)
  end.

(** [bcs[bc][key]] *)
Definition bc_value {S} (bcs : list (Z * list (string * Q))) (bc : Z)
    (key : string) : M S Q :=
  entry <- require (KeyError (str_of_Z bc)) (dict_get Z.eqb bcs bc) ;;
  require (KeyError key) (sget entry key).

(** [n = df.FacetNormal(mesh)] followed by [t = ufl.perp(n)]: the normal has
    the geometric dimension of the mesh for its length, and [ufl.perp] takes
    vectors of length 2 only. *)
Definition tangent_of_normal (msh : Mesh) : M Solver unit :=
  if Nat.eqb (geometric_dimension (ufl_cell msh)) 2 then ret tt
  else raise UFLException.

(** [df.ds = df.Measure("ds", domain=mesh, subdomain_data=boundaries)] and
    the same for [df.dS]: the two measures of the module [dolfin] are bound
    anew. *)
Definition define_measures (msh : Mesh) (boundaries : list Z) : M Solver unit :=
  modify (add_io (df_setattr "ds" (Measure "ds" msh boundaries))) ;;;
  modify (add_io (df_setattr "dS" (Measure "dS" msh boundaries))).

(** * Revision [src/fenicsR13/src/solver.py] *)

Module R13.
Section R13.
Context {D : Dolfin}.

Definition __init__ (params : Params) (mesh : H5Mesh) (time : string)
  : result Solver :=
  match params_output_folder params with
  | Some folder => Ok (init_with folder params mesh time)
  | None => Raise (KeyError "output_folder")
  end.

Definition setup_function_spaces : M Solver unit :=
  self <- this ;;
  let msh := mesh self in
  setup_elems_loop ;;;

  self <- this ;;
  e_theta <- getitem (elems self) "theta" ;;
  e_s <- getitem (elems self) "s" ;;
  let heat_elems := [e_theta; e_s] in
  heat <- all_elements heat_elems ;;
  modify (fun self => set_mxd_elems
    (sset (mxd_elems self) "heat" (Some (MixedElement [list_arg heat]))) self) ;;;
  modify (fun self => set_mxd_fspaces
    (sset (mxd_fspaces self) "heat"
       (Some (FunctionSpace msh (MixedElement [list_arg heat])))) self) ;;;

  self <- this ;;
  e_p <- getitem (elems self) "p" ;;
  e_u <- getitem (elems self) "u" ;;
  e_sigma <- getitem (elems self) "sigma" ;;
  let stress_elems := [e_p; e_u; e_sigma] in
  stress <- all_elements stress_elems ;;
  modify (fun self => set_mxd_elems
    (sset (mxd_elems self) "stress" (Some (MixedElement [list_arg stress]))) self) ;;;
  modify (fun self => set_mxd_fspaces
    (sset (mxd_fspaces self) "stress"
       (Some (FunctionSpace msh (MixedElement [list_arg stress])))) self) ;;;

  modify (fun self => set_mxd_elems
    (sset (mxd_elems self) "coupled"
       (Some (MixedElement [list_arg heat; list_arg stress]))) self) ;;;
  modify (fun self => set_mxd_fspaces
    (sset (mxd_fspaces self) "coupled"
       (Some (FunctionSpace msh
          (MixedElement [list_arg heat; list_arg stress])))) self).

(** The forms of the heat system, [if self.use_coeffs:] and [else:]. *)
Definition heat_forms (self : Solver)
  : M Solver (pyform * pyform * pyform * pyform) :=
  let bcs := bcs self in
  let tau := tau self in
  let xi_tilde := xi_tilde self in
  (* Define heat source function *)
  let f : point -> Q := fun x => Expression_eval (heat_source self) (coords (x plus)) in
  if use_coeffs self then
    inv_tau <- lift (pydiv 1 tau) ;;
    c_n <- lift (pydiv 5 (4 * xi_tilde)) ;;
    let a1 := (
      times (fun x =>
        12/5 * tau * inner2 (dev3d (grad1 (s x))) (grad1 (r x))
        + 2/3 * inv_tau * dot (vals (s x)) (vals (r x))
        - (5/2) * val (theta x) * div1 (r x)) df_dx
      +@ times (fun x =>
        c_n * s_n x * r_n x
        + 11/10 * xi_tilde * s_t x * r_t x) (df_ds None)) in
    let a2 := times (fun x => - (div1 (s x) * val (kappa x))) df_dx in
    l1 <- comprehension (fun bc =>
            theta_w <- bc_value bcs bc "theta_w" ;;
            ret (times (fun x => (-5)/2 * r_n x * theta_w) (df_ds (Some bc))))
          (dict_keys bcs) ;;
    let l1 := form_sum l1 in
    let l2 := times (fun x => - (f x * val (kappa x))) df_dx in
    ret (a1, a2, l1, l2)
  else
    inv_tau <- lift (pydiv 1 tau) ;;
    c_n <- lift (pydiv 1 xi_tilde) ;;
    let a1 := (
      times (fun x =>
        tau * inner2 (dev3d (grad1 (s x))) (grad1 (r x))
        + inv_tau * dot (vals (s x)) (vals (r x))
        - val (theta x) * div1 (r x)) df_dx
      +@ times (fun x =>
        c_n * s_n x * r_n x
        + xi_tilde * s_t x * r_t x) (df_ds None)) in
    let a2 := times (fun x => - (div1 (s x) * val (kappa x))) df_dx in
    l1 <- comprehension (fun bc =>
            theta_w <- bc_value bcs bc "theta_w" ;;
            ret (times (fun x => (-1) * r_n x * theta_w) (df_ds (Some bc))))
          (dict_keys bcs) ;;
    let l1 := form_sum l1 in
    let l2 := times (fun x => - (f x * val (kappa x))) df_dx in
    ret (a1, a2, l1, l2).

(** The forms of the stress system under [if self.use_coeffs:]. *)
Definition stress_forms (self : Solver)
  : M Solver (pyform * pyform * pyform * pyform * pyform * pyform) :=
  let bcs := bcs self in
  let tau := tau self in
  let xi_tilde := xi_tilde self in
  (* Define mass source function *)
  let f : point -> Q := fun x => Expression_eval (mass_source self) (coords (x plus)) in
  inv_tau <- lift (pydiv 1 tau) ;;
  c_nn <- lift (pydiv 21 (10 * xi_tilde)) ;;
  c_nt <- lift (pydiv 2 xi_tilde) ;;
  let a1 := (
    times (fun x =>
      2 * tau * innerOfDevOfGrad2AndGrad2 (sigma x) (psi x)
      + inv_tau * innerOfTracefree2 (vals2 (sigma x)) (vals2 (psi x))
      - 2 * dot (vals (u x)) (div2 (sym (psi x)))) df_dx
    +@ times (fun x =>
      c_nn * sigma_nn x * psi_nn x
      + 2 * xi_tilde * (
          (sigma_tt x + (1/2) * sigma_nn x) * (psi_tt x + (1/2) * psi_nn x))
      + c_nt * sigma_nt x * psi_nt x) (df_ds None)) in
  l1 <- comprehension (fun bc =>
          v_t <- bc_value bcs bc "v_t" ;;
          ret (times (fun x => (-2) * psi_nt x * v_t) (df_ds (Some bc))))
        (dict_keys bcs) ;;
  let l1 := form_sum l1 in
  let a2 := times (fun x =>
    dot (div2 (sigma x)) (vals (v x)) + dot (grad0 (p x)) (vals (v x))) df_dx in
  let l2 := times (fun x => 0 * div1 (v x)) df_dx in (* dummy *)
  let a3 := times (fun x => dot (vals (u x)) (grad0 (q x))) df_dx in
  let l3 := times (fun x => - (f x * val (q x))) df_dx in
  ret (a1, l1, a2, l2, a3, l3).

(** [Solver.assemble] *)
Definition assemble : M Solver unit :=
  (* Check if all mesh boundaries have bcs prescribed from input *)
  check_bcs ;;;
  (* Local variables *)
  self <- this ;;
  let delta_1 := delta_1 self in
  let delta_2 := delta_2 self in
  let delta_3 := delta_3 self in
  (* Normal and tangential components *)
  tangent_of_normal (mesh self) ;;;
  (* Define custom measure for boundaries *)
  define_measures (mesh self) (boundaries self) ;;;
  if mode self =? "heat" then
    w <- getitem (mxd_fspaces self) "heat" ;;
    w <- not_none "TrialFunctions" w ;;
    '(a1, a2, l1, l2) <- heat_forms self ;;
    (* stabilization *)
    let stab := if use_cip self then cip_heat delta_1 else PyZero in
    modify (set_form_a (Some (a1 +@ a2 +@ stab))) ;;;
    modify (set_form_b (Some (l1 +@ l2)))
  else if mode self =? "stress" then
    w <- getitem (mxd_fspaces self) "stress" ;;
    w <- not_none "TrialFunctions" w ;;
    forms <- (if use_coeffs self
              then x <- stress_forms self ;; ret (Some x)
              else ret None) ;;
    let stab := if use_cip self then cip_stress delta_2 delta_3 else PyZero in
    match forms with
    | Some (a1, l1, a2, l2, a3, l3) =>
        modify (set_form_a (Some (a1 +@ a2 +@ a3 +@ stab))) ;;;
        modify (set_form_b (Some (l1 +@ l2 +@ l3)))
    | None => raise (UnboundLocalError "a1")
    end
  else ret tt.

(** [Solver.calc_sf_mean]: [np.mean] of the coefficient vector, which is
    [nan] ([None] here) on the empty vector. *)
Definition calc_sf_mean (scalar_function : Function) : option Q :=
  match vector scalar_function with
  | [] => None
  | x :: v' => Some (vec_sum (x :: v') / inject_Z (Z.of_nat (length (x :: v'))))
  end.

(** [(a, b) = sol.split()] and [(a, b, c) = sol.split()] *)
Definition unpack2 {A} (l : list A) : M Solver (A * A) :=
  match l with
  | [a; b] => ret (a, b)
  | _ => raise (ValueError "unpack")
  end.
Definition unpack3 {A} (l : list A) : M Solver (A * A * A) :=
  match l with
  | [a; b; c] => ret (a, b, c)
  | _ => raise (ValueError "unpack")
  end.

(** [Solver.solve] *)
Definition solve : M Solver unit :=
  self <- this ;;
  if mode self =? "heat" then
    w <- getitem (mxd_fspaces self) "heat" ;;
    w <- not_none "Function" w ;;
    form_a <- not_none "solve" (form_a self) ;;
    form_b <- not_none "solve" (form_b self) ;;
    let sol_w := solution form_a form_b w [] "mumps" in
    modify (add_io (df_solve form_a form_b w [] "mumps")) ;;;
    '(sol_theta, sol_s) <- unpack2 (split sol_w) ;;
    modify (fun self => set_sol (sset (sol self) "theta" (Some sol_theta)) self) ;;;
    modify (fun self => set_sol (sset (sol self) "s" (Some sol_s)) self)
  else if mode self =? "stress" then
    w <- getitem (mxd_fspaces self) "stress" ;;
    w <- not_none "Function" w ;;
    form_a <- not_none "solve" (form_a self) ;;
    form_b <- not_none "solve" (form_b self) ;;
    let sol_w := solution form_a form_b w [] "direct" in
    modify (add_io (df_solve form_a form_b w [] "direct")) ;;;
    '(sol_p, sol_u, sol_sigma) <- unpack3 (split sol_w) ;;
    modify (fun self => set_sol (sset (sol self) "p" (Some sol_p)) self) ;;;
    modify (fun self => set_sol (sset (sol self) "u" (Some sol_u)) self) ;;;
    modify (fun self => set_sol (sset (sol self) "sigma" (Some sol_sigma)) self) ;;;

    (* Scale pressure to have zero mean *)
    self <- this ;;
    sol_p <- getitem (sol self) "p" ;;
    sol_p <- not_none "interpolate" sol_p ;;
    fs_p <- getitem (fspaces self) "p" ;;
    fs_p <- not_none "interpolate" fs_p ;;
    let p_i := interpolate (Fn sol_p) fs_p in
    let mean_p_value := calc_sf_mean p_i in
    let mean_p_fct := Function_new fs_p in
    let mean_p_fct :=
      assign_constant mean_p_fct
        (match mean_p_value with Some m => m | None => 0 end) in
    let p_i := assign_difference p_i mean_p_fct in
    modify (fun self => set_sol (sset (sol self) "p" (Some p_i)) self)
  else ret tt.

(** [Solver.calc_errors] *)
Definition calc_errors : M Solver unit :=
  self <- this ;;
  (if mode self =? "heat" then calc_errors_heat else ret tt) ;;;
  (if mode self =? "stress" then calc_errors_stress else ret tt).

End R13.
End R13.

(** * Revision [src/src/solver.py] *)

(** The module [tensoroperations], which [src/src/solver.py] imports as [to],
    is not among the sources: the three functions the solver calls are taken
    as given. *)
Record tensoroperations : Type := {
  to_dev3d : list (list Q) -> list (list Q);
  to_innerOfDevOfGrad2AndGrad2 : list (list jet) -> list (list jet) -> Q;
  to_innerOfTracefree2 : list (list Q) -> list (list Q) -> Q
}.

(** The functions of that name nested in [assemble] of the other revision. *)
Definition nested_tensoroperations : tensoroperations :=
  {| to_dev3d := dev3d;
     to_innerOfDevOfGrad2AndGrad2 := innerOfDevOfGrad2AndGrad2;
     to_innerOfTracefree2 := innerOfTracefree2 |}.

Module Src.
Section Src.
Context {D : Dolfin} (to : tensoroperations).

Definition __init__ (params : Params) (mesh : H5Mesh) (time : string)
  : result Solver :=
  match params_case_name params with
  | Some case_name => Ok (init_with (case_name ++ "/") params mesh time)
  | None => Raise (KeyError "case_name")
  end.

Definition setup_function_spaces : M Solver unit :=
  self <- this ;;
  let msh := mesh self in
  setup_elems_loop ;;;

  self <- this ;;
  e_theta <- getitem (elems self) "theta" ;;
  e_s <- getitem (elems self) "s" ;;
  let heat_elems := [e_theta; e_s] in
  heat <- all_elements heat_elems ;;
  modify (fun self => set_mxd_elems
    (sset (mxd_elems self) "heat" (Some (MixedElement [list_arg heat]))) self) ;;;
  modify (fun self => set_mxd_fspaces
    (sset (mxd_fspaces self) "heat"
       (Some (FunctionSpace msh (MixedElement [list_arg heat])))) self) ;;;

  self <- this ;;
  e_p <- getitem (elems self) "p" ;;
  e_u <- getitem (elems self) "u" ;;
  e_sigma <- getitem (elems self) "sigma" ;;
  let stress_elems := [e_p; e_u; e_sigma] in
  stress <- all_elements stress_elems ;;
  modify (fun self => set_mxd_elems
    (sset (mxd_elems self) "stress" (Some (MixedElement [list_arg stress]))) self) ;;;
  modify (fun self => set_mxd_fspaces
    (sset (mxd_fspaces self) "stress"
       (Some (FunctionSpace msh (MixedElement [list_arg stress])))) self) ;;;

  let coupled_elems := (heat ++ stress)%list in
  modify (fun self => set_mxd_elems
    (sset (mxd_elems self) "coupled"
       (Some (MixedElement [list_arg coupled_elems]))) self) ;;;
  modify (fun self => set_mxd_fspaces
    (sset (mxd_fspaces self) "coupled"
       (Some (FunctionSpace msh (MixedElement [list_arg coupled_elems])))) self).

(** The weak forms set up under [if self.use_coeffs:]:
    [a1, l1, a2, l2] and [a3, l3, a4, l4, a5, l5]. *)
Definition forms_with_coeffs (self : Solver)
  : M Solver ((pyform * pyform * pyform * pyform)
              * (pyform * pyform * pyform * pyform * pyform * pyform)) :=
  let bcs := bcs self in
  let tau := tau self in
  let xi_tilde := xi_tilde self in
  (* Setup source functions *)
  let f_heat : point -> Q :=
    fun x => Expression_eval (heat_source self) (coords (x plus)) in
  let f_mass : point -> Q :=
    fun x => Expression_eval (mass_source self) (coords (x plus)) in
  inv_tau <- lift (pydiv 1 tau) ;;
  c_n <- lift (pydiv 5 (4 * xi_tilde)) ;;
  let a1 := (
    times (fun x =>
      12/5 * tau * inner2 (to_dev3d to (grad1 (s x))) (grad1 (r x))
      + 2/3 * inv_tau * dot (vals (s x)) (vals (r x))
      - (5/2) * val (theta x) * div1 (r x)) df_dx
    +@ times (fun x =>
      c_n * s_n x * r_n x
      + 11/10 * xi_tilde * s_t x * r_t x) (df_ds None)) in
  l1 <- comprehension (fun bc =>
          theta_w <- bc_value bcs bc "theta_w" ;;
          ret (times (fun x => (-5)/2 * r_n x * theta_w) (df_ds (Some bc))))
        (dict_keys bcs) ;;
  let l1 := form_sum l1 in

  let a2 := times (fun x => - (div1 (s x) * val (kappa x))) df_dx in
  let l2 := times (fun x => - (f_heat x * val (kappa x))) df_dx in

  inv_tau' <- lift (pydiv 1 tau) ;;
  c_nt <- lift (pydiv 2 xi_tilde) ;;
  let a3 := (
    times (fun x =>
      2 * tau * to_innerOfDevOfGrad2AndGrad2 to (sigma x) (psi x)
      + inv_tau' * to_innerOfTracefree2 to (vals2 (sigma x)) (vals2 (psi x))
      - 2 * dot (vals (u x)) (div2 (sym (psi x)))) df_dx
    +@ times (fun x =>
      21/10 * xi_tilde * sigma_nn x * psi_nn x
      + 2 * xi_tilde * (
          (sigma_tt x + (1/2) * sigma_nn x) * (psi_tt x + (1/2) * psi_nn x))
      + c_nt * sigma_nt x * psi_nt x) (df_ds None)) in
  l3 <- comprehension (fun bc =>
          v_t <- bc_value bcs bc "v_t" ;;
          ret (times (fun x => (-2) * psi_nt x * v_t) (df_ds (Some bc))))
        (dict_keys bcs) ;;
  let l3 := form_sum l3 in

  let a4 := times (fun x =>
    dot (div2 (sigma x)) (vals (v x))
    + dot (grad0 (p x)) (vals (v x))) df_dx in
  let l4 := times (fun x => 0 * div1 (v x)) df_dx in

  let a5 := times (fun x => dot (vals (u x)) (grad0 (q x))) df_dx in
  let l5 := times (fun x => - (f_mass x * val (q x))) df_dx in
  ret ((a1, l1, a2, l2), (a3, l3, a4, l4, a5, l5)).

(** The weak forms set up under [else:]: [a1, a2, l1, l2] only. *)
Definition forms_without_coeffs (self : Solver)
  : M Solver (pyform * pyform * pyform * pyform) :=
  let bcs := bcs self in
  let tau := tau self in
  let xi_tilde := xi_tilde self in
  let f_heat : point -> Q :=
    fun x => Expression_eval (heat_source self) (coords (x plus)) in
  inv_tau <- lift (pydiv 1 tau) ;;
  c_n <- lift (pydiv 1 xi_tilde) ;;
  let a1 := (
    times (fun x =>
      tau * inner2 (to_dev3d to (grad1 (s x))) (grad1 (r x))
      + inv_tau * dot (vals (s x)) (vals (r x))
      - val (theta x) * div1 (r x)) df_dx
    +@ times (fun x =>
      c_n * s_n x * r_n x
      + xi_tilde * s_t x * r_t x) (df_ds None)) in
  let a2 := times (fun x => - (div1 (s x) * val (kappa x))) df_dx in
  l1 <- comprehension (fun bc =>
          theta_w <- bc_value bcs bc "theta_w" ;;
          ret (times (fun x => (-1) * r_n x * theta_w) (df_ds (Some bc))))
        (dict_keys bcs) ;;
  let l1 := form_sum l1 in
  let l2 := times (fun x => - (f_heat x * val (kappa x))) df_dx in
  ret (a1, l1, a2, l2).

(** [Solver.assemble] *)
Definition assemble : M Solver unit :=
  (* Check if all mesh boundaries have bcs prescribed from input *)
  check_bcs ;;;
  (* Get local variables *)
  self <- this ;;
  let delta_1 := delta_1 self in
  let delta_2 := delta_2 self in
  let delta_3 := delta_3 self in
  (* Normal and tangential components *)
  tangent_of_normal (mesh self) ;;;
  (* Define custom measure for boundaries *)
  define_measures (mesh self) (boundaries self) ;;;
  (* Setup function spaces *)
  w_heat <- getitem (mxd_fspaces self) "heat" ;;
  w_stress <- getitem (mxd_fspaces self) "stress" ;;
  w_coupled <- getitem (mxd_fspaces self) "coupled" ;;
  (if mode self =? "coupled"
   then w <- not_none "TrialFunctions" w_coupled ;; ret tt
   else
     (* Pure heat or pure stress: setup all functions.. *)
     w <- not_none "TrialFunctions" w_heat ;;
     w <- not_none "TrialFunctions" w_stress ;;
     ret tt) ;;;
  (* Setup both weak forms *)
  forms <- (if use_coeffs self
            then x <- forms_with_coeffs self ;; ret (fst x, Some (snd x))
            else x <- forms_without_coeffs self ;; ret (x, None)) ;;
  let '((a1, l1, a2, l2), stress) := forms in
  (* stabilization *)
  let stab_heat := if use_cip self then cip_heat delta_1 else PyZero in
  let stab_stress :=
    if use_cip self then cip_stress delta_2 delta_3 else PyZero in
  (* Combine all equations *)
  if mode self =? "heat" then
    modify (set_form_a (Some (a1 +@ a2 +@ stab_heat))) ;;;
    modify (set_form_b (Some (l1 +@ l2)))
  else if mode self =? "stress" then
    match stress with
    | Some (a3, l3, a4, l4, a5, l5) =>
        modify (set_form_a (Some (a3 +@ a4 +@ a5 +@ stab_stress))) ;;;
        modify (set_form_b (Some (l3 +@ l4 +@ l5)))
    | None => raise (UnboundLocalError "a3")
    end
  else if mode self =? "coupled" then
    match stress with
    | Some (a3, l3, a4, l4, a5, l5) =>
        modify (set_form_a (Some
          (a1 +@ a2 +@ stab_heat +@ a3 +@ a4 +@ a5 +@ stab_stress))) ;;;
        modify (set_form_b (Some (l1 +@ l2 +@ l3 +@ l4 +@ l5)))
    | None => raise (UnboundLocalError "a3")
    end
  else ret tt.

(** [Solver.calc_sf_mean]: [v.sum()/v.size()] *)
Definition calc_sf_mean (scalar_function : Function) : M Solver Q :=
  let v := vector scalar_function in
  lift (pydiv (vec_sum v) (inject_Z (Z.of_nat (length v)))).

(** [(a, b, c, d, e) = sol.split()] *)
Definition unpack5 {A} (l : list A) : M Solver (A * A * A * A * A) :=
  match l with
  | [a; b; c; d; e] => ret (a, b, c, d, e)
  | _ => raise (ValueError "unpack")
  end.

(** [Solver.solve] *)
Definition solve : M Solver unit :=
  self <- this ;;
  w <- (if mode self =? "heat" then getitem (mxd_fspaces self) "heat"
        else if mode self =? "stress" then getitem (mxd_fspaces self) "stress"
        else if mode self =? "coupled" then getitem (mxd_fspaces self) "coupled"
        else raise (UnboundLocalError "w")) ;;

  w <- not_none "Function" w ;;
  form_a <- not_none "solve" (form_a self) ;;
  form_b <- not_none "solve" (form_b self) ;;
  let sol_w := solution form_a form_b w [] "mumps" in
  modify (add_io (df_solve form_a form_b w [] "mumps")) ;;;

  (if mode self =? "heat" then
     '(sol_theta, sol_s) <- R13.unpack2 (split sol_w) ;;
     modify (fun self => set_sol (sset (sol self) "theta" (Some sol_theta)) self) ;;;
     modify (fun self => set_sol (sset (sol self) "s" (Some sol_s)) self)
   else if mode self =? "stress" then
     '(sol_p, sol_u, sol_sigma) <- R13.unpack3 (split sol_w) ;;
     modify (fun self => set_sol (sset (sol self) "p" (Some sol_p)) self) ;;;
     modify (fun self => set_sol (sset (sol self) "u" (Some sol_u)) self) ;;;
     modify (fun self => set_sol (sset (sol self) "sigma" (Some sol_sigma)) self)
   else if mode self =? "coupled" then
     '(sol_theta, sol_s, sol_p, sol_u, sol_sigma) <- unpack5 (split sol_w) ;;
     modify (fun self => set_sol (sset (sol self) "theta" (Some sol_theta)) self) ;;;
     modify (fun self => set_sol (sset (sol self) "s" (Some sol_s)) self) ;;;
     modify (fun self => set_sol (sset (sol self) "p" (Some sol_p)) self) ;;;
     modify (fun self => set_sol (sset (sol self) "u" (Some sol_u)) self) ;;;
     modify (fun self => set_sol (sset (sol self) "sigma" (Some sol_sigma)) self)
   else ret tt) ;;;

  if (mode self =? "stress") || (mode self =? "coupled") then
    (* Scale pressure to have zero mean *)
    self <- this ;;
    sol_p <- getitem (sol self) "p" ;;
    sol_p <- not_none "interpolate" sol_p ;;
    fs_p <- getitem (fspaces self) "p" ;;
    fs_p <- not_none "interpolate" fs_p ;;
    let p_i := interpolate (Fn sol_p) fs_p in
    mean_p_value <- calc_sf_mean p_i ;;
    let mean_p_fct := Function_new fs_p in
    let mean_p_fct := assign_constant mean_p_fct mean_p_value in
    let p_i := assign_difference p_i mean_p_fct in
    modify (fun self => set_sol (sset (sol self) "p" (Some p_i)) self)
  else ret tt.

(** [Solver.calc_errors] *)
Definition calc_errors : M Solver unit :=
  self <- this ;;
  (if (mode self =? "heat") || (mode self =? "coupled")
   then calc_errors_heat else ret tt) ;;;
  (if (mode self =? "stress") || (mode self =? "coupled")
   then calc_errors_stress else ret tt).

End Src.
End Src.

(** * The two revisions side by side *)

Inductive revision : Type := fenicsR13 | src.

Section Revisions.
Context {D : Dolfin} (to : tensoroperations).


Definition setup_function_spaces_of (rv : revision) : M Solver unit :=
  match rv with
  | fenicsR13 => R13.setup_function_spaces
  | src => Src.setup_function_spaces
  end.

Definition assemble_of (rv : revision) : M Solver unit :=
  match rv with
  | fenicsR13 => R13.assemble
  | src => Src.assemble to
  end.

Definition solve_of (rv : revision) : M Solver unit :=
  match rv with
  | fenicsR13 => R13.solve
  | src => Src.solve
  end.

(** [calc_sf_mean] as a result: [nan] and [ZeroDivisionError] are both no
    number. *)
Definition calc_sf_mean_of (rv : revision) (f : Function) : option Q :=
  match rv with
  | fenicsR13 => R13.calc_sf_mean f
  | src =>
      match pydiv (vec_sum (vector f)) (inject_Z (Z.of_nat (length (vector f)))) with
      | Ok m => Some m
      | Raise _ => None
      end
  end.

Definition calc_errors_of (rv : revision) : M Solver unit :=
  match rv with
  | fenicsR13 => R13.calc_errors
  | src => Src.calc_errors
  end.
End Revisions.


(** * Methods and scripts beside the solve *)

From Stdlib Require DecimalZ.

(** [Solver.write_parameters], the same in both revisions.  [df.interpolate]
    of a [df.Expression] is not among the members of [Dolfin]: it is taken as
    given. *)
Section WriteParameters.
Context {D : Dolfin}.
Variable interpolate_expression : Expression_t -> FunctionSpace_t -> Function.

Local Open Scope string_scope.
Local Open Scope py_scope.

Definition write_parameters : M Solver unit :=
  self <- this ;;
  let el := "Lagrange" in
  let deg := 1%Z in

  (* Heat source *)
  let f_heat :=
    interpolate_expression (heat_source self)
      (FunctionSpace (mesh self) (FiniteElement el (cell self) deg)) in
  write_xdmf "f_heat" f_heat ;;;

  (* Mass source *)
  let f_mass :=
    interpolate_expression (mass_source self)
      (FunctionSpace (mesh self) (FiniteElement el (cell self) deg)) in
  write_xdmf "f_mass" f_mass ;;;
  ret tt.
End WriteParameters.

(** [create_meshes.py] ([src/fenicsR13/tests/heat/meshes] and
    [src/tests/mesh]): what [create_mesh] runs, reads and writes, in
    order. *)
Module CreateMeshes.
Local Open Scope string_scope.

Inductive call : Type :=
| os_system (command : string)
| df_Mesh (filename : string)
| df_MeshFunction (value_type : string) (filename : string)
| df_HDF5File (filename : string) (file_mode : string)
| file_write (object : string) (dataset : string).

Definition GMSH_PATH : string := "gmsh".
Definition GEO_NAME : string := "ring".

(** ["{}{}".format(GEO_NAME, exponent)] *)
Definition mesh_name_of (exponent : Z) : string :=
  GEO_NAME ++ str_of_Z exponent.

Definition create_mesh (exponent : Z) : list call :=
  let mesh_name := mesh_name_of exponent in
  [ os_system
      (GMSH_PATH ++ " -setnumber p " ++ str_of_Z exponent ++ " -2 -o "
       ++ mesh_name ++ ".msh " ++ GEO_NAME ++ ".geo");
    os_system ("dolfin-convert " ++ mesh_name ++ ".msh " ++ mesh_name ++ ".xml");
    df_Mesh (mesh_name ++ ".xml");
    df_MeshFunction "size_t" (mesh_name ++ "_physical_region.xml");
    df_MeshFunction "size_t" (mesh_name ++ "_facet_region.xml");
    df_HDF5File (mesh_name ++ ".h5") "w";
    file_write "mesh" "/mesh";
    file_write "subdomains" "/subdomains";
    file_write "boundaries" "/boundaries" ].

(** [range(a, b)] *)
Definition range (a b : Z) : list Z :=
  map (fun i => (a + Z.of_nat i)%Z) (seq 0 (Z.to_nat (b - a))).

(** The loops at the end of the two scripts: [for p in range(5)] and
    [for p in range(5, 8+1)]. *)
Definition main_of_heat_tests : list call := flat_map create_mesh (range 0 5).
Definition main_of_tests : list call := flat_map create_mesh (range 5 (8 + 1)).

(** The HDF5 files a list of calls opens. *)
Definition h5_files (calls : list call) : list string :=
  flat_map (fun c => match c with
                     | df_HDF5File filename _ => [filename]
                     | _ => []
                     end) calls.
End CreateMeshes.
(** * Notions the properties are stated with *)

(** The ids of the mesh boundary that [check_bcs] refuses. *)
Definition unprescribed (self : Solver) (edge_id : Z) : Prop :=
  In edge_id (boundaries self)
  /\ edge_id <> 0%Z
  /\ ~ In edge_id (dict_keys (bcs self)).

(** What the last block of [solve] stores under ["p"]: the interpolant
    [p_i] in the space [V], less the constant function of its mean. *)
Definition shifted {D : Dolfin} (rv : revision) (p_i : Function)
    (V : FunctionSpace_t) : Function :=
  assign_difference p_i
    (assign_constant (Function_new V)
       (match calc_sf_mean_of rv p_i with Some m => m | None => 0 end)).

(** The keys of [self.sol] that belong to a mode. *)
Definition mode_fields (mode : string) : list string :=
  if mode =? "heat" then ["theta"; "s"]
  else if mode =? "stress" then ["p"; "u"; "sigma"]
  else if mode =? "coupled" then ["theta"; "s"; "p"; "u"; "sigma"]
  else [].

(** The linear solver a revision asks for in a mode. *)
Definition linear_solver_of (rv : revision) (mode : string) : string :=
  match rv with
  | fenicsR13 => if mode =? "heat" then "mumps" else "direct"
  | src => "mumps"
  end.



(** The path [write_xdmf] writes a field of a given name to. *)
Definition xdmf_path (self : Solver) (name : string) : string :=
  output_folder self ++ name ++ "_" ++ time self ++ ".xdmf".

(** A symmetric Lagrange tensor element on a cell. *)
Definition symmetric_lagrange_tensor (cell : ufl_cell_t) (degree : Z) : element :=
  TensorElement (FiniteElement "Lagrange" cell degree) true.

(** The function [write_xdmf] hands to the file: the field, or its projection
    when the loop found its element, under the new name. *)
Definition written_field {D : Dolfin} (self : Solver) (name : string)
    (field : Function) : Function :=
  rename (fst (remove_symmetry (mesh self) field (seq 0 5))) name.

(** The writes of [write_solutions]: one per key of [sols] whose value is not
    [None], in the order of the keys. *)
Definition solution_writes {D : Dolfin} (self : Solver)
    (sols : list (string * option Function)) (keys : list string) : list event :=
  flat_map (fun field =>
    match sget sols field with
    | Some (Some f) =>
        [xdmf_write (xdmf_path self field) (written_field self field f) (time self)]
    | _ => []
    end) keys.

(** An element of symmetric tensors. *)
Definition is_symmetric_tensor (e : element) : bool :=
  match e with
  | TensorElement _ true => true
  | _ => false
  end.

(** A field that is no symmetric tensor when [write_xdmf] hands it to the
    file: its element is no element of symmetric tensors, or it is one of
    the five that the loop of [write_xdmf] looks for and replaces the field
    by a projection for.  The comment in [write_xdmf] says that writing a
    symmetric tensor crashes: what is said of a write that returns is said
    of such fields. *)
Definition writable (field : Function) : bool :=
  negb (is_symmetric_tensor (ufl_element (function_space field)))
  || existsb (fun degree =>
       element_eqb (ufl_element (function_space field))
         (symmetric_lagrange_tensor triangle (Z.of_nat degree + 1)))
       (seq 0 5).

(** Every function stored in [self.sol] is one. *)
Definition all_writable (self : Solver) : bool :=
  forallb (fun kv => match snd kv with
                     | Some f => writable f
                     | None => true
                     end) (sol self).

(** The pair [(L2 error, l_inf error)] of a scalar field: the L2 norm of the
    difference of the exact and the discrete solution, and the largest
    absolute difference of the coefficients of their interpolants. *)
Definition scalar_errors {D : Dolfin} (sol_ : Function) (sol_e_ : gexpr)
    (v_sol : FunctionSpace_t) : errval * errval :=
  (err_float (errornorm_L2 sol_e_ (Fn sol_)),
   err_float (norm_linf (vec_sub (vector (interpolate sol_e_ v_sol))
                                 (vector (interpolate (Fn sol_) v_sol))))).

(** The largest absolute entry of a list of vertex values. *)
Definition linf_vertex (d : list Q) : Q :=
  match d with
  | [] => 0
  | x :: d' => max_abs x d'
  end.

(** The pair of a vector or tensor field: component by component of the two
    interpolants, the L2 norm of the difference and the largest absolute
    difference of the vertex values. *)
Definition component_errors {D : Dolfin} (sol_ : Function) (sol_e_ : gexpr)
    (v_sol : FunctionSpace_t) : errval * errval :=
  let components :=
    combine (split (interpolate sol_e_ v_sol))
            (split (interpolate (Fn sol_) v_sol)) in
  (err_list (map (fun ec => errornorm_L2 (Fn (fst ec)) (Fn (snd ec))) components),
   err_list (map (fun ec =>
               linf_vertex (vec_sub (compute_vertex_values (fst ec))
                                    (compute_vertex_values (snd ec)))) components)).

(** The words of the claim for a vector or tensor field: by component, the
    L2 norm between the exact solution and the discrete solution
    themselves, with the largest absolute differences of the vertex values
    of their interpolants. *)
Definition claimed_component_errors {D : Dolfin} (sol_ : Function)
    (sol_e_ : gexpr) (v_sol : FunctionSpace_t) : errval * errval :=
  (err_list (map (fun i =>
               errornorm_L2 (Component sol_e_ i) (Component (Fn sol_) i))
               (seq 0 (length (split (interpolate sol_e_ v_sol))))),
   snd (component_errors sol_ sol_e_ v_sol)).

(** The errors of a field are stored: [self.errors["f"]["l2"]] and
    [self.errors["v"]["linf"]] of the solver after the call hold, under the
    name of the field, the pair expected of the field's solution, exact
    solution and space in the solver before the call. *)
Definition errors_stored (self self' : Solver) (field : string)
    (expected : Function -> gexpr -> FunctionSpace_t -> errval * errval) : Prop :=
  exists sol_ sol_e_ v_sol,
    sget (sol self) field = Some (Some sol_)
    /\ sget (esol self) field = Some (Some sol_e_)
    /\ sget (fspaces self) field = Some (Some v_sol)
    /\ sget (errors_f_l2 self') field = Some (Some (fst (expected sol_ sol_e_ v_sol)))
    /\ sget (errors_v_linf self') field = Some (Some (snd (expected sol_ sol_e_ v_sol))).

(** What a helper leaves besides its result: two files written. *)
Definition two_writes (self self' : Solver) : Prop :=
  exists ev1 ev2, self' = add_io ev2 (add_io ev1 self).

(** The interior-facet integrals of a form. *)
Definition dS_part (a : pyform) : list integral :=
  filter (fun i => measure_eqb (measure_of i) df_dS) (integrals a).

(** The functions of [tensoroperations] are the ones of the same name nested
    in [assemble] of the other revision. *)
Definition agrees_with_nested (to : tensoroperations) : Prop :=
  (forall mat, to_dev3d to mat = dev3d mat)
  /\ (forall sigma psi,
         to_innerOfDevOfGrad2AndGrad2 to sigma psi
         == innerOfDevOfGrad2AndGrad2 sigma psi)
  /\ (forall rank2_1 rank2_2,
         to_innerOfTracefree2 to rank2_1 rank2_2
         == innerOfTracefree2 rank2_1 rank2_2).

(** [setup_function_spaces] followed by [assemble], in a revision. *)
Definition setup_and_assemble {D : Dolfin} (to : tensoroperations)
    (rv : revision) : M Solver unit :=
  bind (setup_function_spaces_of rv) (fun _ => assemble_of to rv).

(** The solver once [assemble] has bound [df.ds] and [df.dS] anew. *)
Definition measures_defined (self : Solver) : Solver :=
  add_io (df_setattr "dS" (Measure "dS" (mesh self) (boundaries self)))
    (add_io (df_setattr "ds" (Measure "ds" (mesh self) (boundaries self))) self).

(** The domain is two-dimensional. *)
Definition planar_mesh (self : Solver) : Prop :=
  geometric_dimension (ufl_cell (mesh self)) = 2%nat.

(** A method that leaves the attributes of [__init__] as they are. *)
Definition keeps_config {A} (c : M Solver A) : Prop :=
  forall s, config (snd (c s)) = config s.

(** A computation that reads and changes nothing of the solver. *)
Definition stateless {S A} (c : M S A) : Prop :=
  exists r, forall s, c s = (r, s).

(** The stabilization term of a mode. *)
Definition stab_of (self : Solver) : pyform :=
  if use_cip self
  then (if mode self =? "heat" then cip_heat (delta_1 self)
        else cip_stress (delta_2 self) (delta_3 self))
  else PyZero.

(** On an interior facet: the mean of the two cell diameters, and the jump
    of the normal component of a vector and of a matrix across the facet. *)
Definition facet_mean_diameter (x : point) : Q :=
  (CellDiameter (x plus) + CellDiameter (x minus)) / 2.
Definition normal_jump (g : locals -> list Q) (x : point) : Q :=
  dot (g (x plus)) (FacetNormal (x plus))
  + dot (g (x minus)) (FacetNormal (x minus)).
Definition normal_jump_of_matrix (g : locals -> list (list Q)) (x : point)
  : list Q :=
  map (fun ab => fst ab + snd ab)
    (combine (matvec (g (x plus)) (FacetNormal (x plus)))
             (matvec (g (x minus)) (FacetNormal (x minus)))).

(** The values the integrands of a stored form take at a point, and the
    comparison of two such lists. *)
Definition values_at (x : point) (o : option pyform) : list Q :=
  match o with
  | Some a => map (fun i => integrand i x) (integrals a)
  | None => []
  end.
Fixpoint Qlist_eqb (l m : list Q) : bool :=
  match l, m with
  | [], [] => true
  | a :: l, b :: m => Qeq_bool a b && Qlist_eqb l m
  | _, _ => false
  end.
Definition is_set {A} (o : option A) : bool :=
  match o with Some _ => true | None => false end.

(** * What a method leaves as it was *)

(** A method that leaves a part of the solver as it was, whether it returns
    or raises. *)
Definition preserves {X A} (part : Solver -> X) (method : M Solver A) : Prop :=
  forall self, part (snd (method self)) = part self.

(** The attributes of the solver object. *)
Definition attributes_of (self : Solver) :=
  (config self, elems self, fspaces self, mxd_elems self, mxd_fspaces self,
   form_a self, form_b self, sol self, esol self,
   errors_f_l2 self, errors_v_linf self).

(** A method that has changed no attribute of the solver when it raises;
    one that has not changed the forms. *)
Definition attributes_unchanged_on_raise {A} (method : M Solver A) : Prop :=
  forall self exc self',
    method self = (Raise exc, self') -> attributes_of self' = attributes_of self.
Definition forms_unchanged_on_raise {A} (method : M Solver A) : Prop :=
  forall self exc self',
    method self = (Raise exc, self') ->
    (form_a self', form_b self') = (form_a self, form_b self).

(** The attributes set by [setup_function_spaces], by [assemble] and by
    [calc_errors]. *)
Definition spaces_of (self : Solver) :=
  (elems self, fspaces self, mxd_elems self, mxd_fspaces self).
Definition forms_of (self : Solver) := (form_a self, form_b self).
Definition errors_of (self : Solver) := (errors_f_l2 self, errors_v_linf self).

(** The coefficient vectors and spaces of the stored solutions, by key. *)
Definition solution_data (self : Solver)
  : list (string * option (FunctionSpace_t * list Q)) :=
  map (fun kv => (fst kv,
                  option_map (fun f => (function_space f, vector f)) (snd kv)))
      (sol self).

(** The files written so far, in order. *)
Definition files_written (self : Solver) : list string :=
  flat_map (fun ev => match ev with
                      | xdmf_write filename _ _ => [filename]
                      | _ => []
                      end) (io self).

(** The linear systems solved so far. *)
Definition systems_solved (self : Solver) : nat :=
  length (filter (fun ev => match ev with
                            | df_solve _ _ _ _ _ => true
                            | _ => false
                            end) (io self)).

(** What [write_solutions] leaves under a key that held [stored]: the same
    object, renamed by [write_xdmf] unless the loop over the degrees
    replaced the local variable by a projection first. *)
Definition after_write {D : Dolfin} (self : Solver) (key : string)
    (stored : option Function) : option Function :=
  option_map (fun f =>
    if snd (remove_symmetry (mesh self) f (seq 0 5)) then f else rename f key)
    stored.


(** [bcs[bc][key]] is there for every [bc] of [bcs.keys()]. *)
Definition all_have (key : string) (bcs : list (Z * list (string * Q))) : Prop :=
  forall bc, In bc (dict_keys bcs) ->
    exists entry value,
      dict_get Z.eqb bcs bc = Some entry /\ sget entry key = Some value.

(** The keys of a boundary condition that [assemble] of a revision reads. *)
Definition bc_keys_read (rv : revision) (self : Solver) : list string :=
  match rv with
  | fenicsR13 => if mode self =? "heat" then ["theta_w"] else ["v_t"]
  | src => if use_coeffs self then ["theta_w"; "v_t"] else ["theta_w"]
  end.

(** The three mixed spaces are set, as [setup_function_spaces] leaves
    them. *)
Definition mixed_spaces_set (self : Solver) : Prop :=
  exists w_heat w_stress w_coupled,
    sget (mxd_fspaces self) "heat" = Some (Some w_heat)
    /\ sget (mxd_fspaces self) "stress" = Some (Some w_stress)
    /\ sget (mxd_fspaces self) "coupled" = Some (Some w_coupled).

(** What [assemble] of a revision asks of its input in the modes "heat" and
    "stress": no boundary id without condition, a two-dimensional domain,
    divisors that are not zero, the keys it reads in every boundary
    condition, and the coefficients in mode "stress". *)
Definition assemble_accepts (rv : revision) (self : Solver) : Prop :=
  (forall edge_id, ~ unprescribed self edge_id)
  /\ planar_mesh self
  /\ ~ tau self == 0
  /\ ~ xi_tilde self == 0
  /\ (forall key, In key (bc_keys_read rv self) -> all_have key (bcs self))
  /\ (mode self = "stress" -> use_coeffs self = true).

(** [bcs[bc][key]], where it is there. *)
Definition boundary_value (bcs : list (Z * list (string * Q))) (key : string)
    (bc : Z) : Q :=
  match dict_get Z.eqb bcs bc with
  | Some entry => match sget entry key with Some value => value | None => 0 end
  | None => 0
  end.

(** The integrals of a stored form at a point: measure and value of the
    integrand. *)
Definition integrals_at (x : point) (form : option pyform) : list (measure * Q) :=
  match form with
  | Some a => map (fun i => (measure_of i, integrand i x)) (integrals a)
  | None => []
  end.

(** The values at a point of the integrands of a stored form over one
    measure, in the order they were added in. *)
Definition integrands_over (m : measure) (x : point) (form : option pyform)
  : list Q :=
  map snd (filter (fun mi => measure_eqb (fst mi) m) (integrals_at x form)).

(** The factor of the boundary data in [form_b]. *)
Definition boundary_factor (self : Solver) : Q :=
  if mode self =? "heat"
  then (if use_coeffs self then (-5)/2 else (-1))
  else (-2).

(** The fields a revision computes errors of, in a mode. *)
Definition error_fields (rv : revision) (mode : string) : list string :=
  match rv with
  | fenicsR13 => if mode =? "coupled" then [] else mode_fields mode
  | src => mode_fields mode
  end.

(** The two files a helper of [calc_errors] writes for a field. *)
Definition error_files (self : Solver) (field : string) : list string :=
  [xdmf_path self ("difference_" ++ field); xdmf_path self (field ++ "_e")].

(** A method that, when it returns, has written the files [files] after the
    ones written before, on a solver with the attributes of [self0]. *)
Definition appends_files {A} (self0 : Solver) (files : list string)
    (method : M Solver A) : Prop :=
  forall self a self',
    config self = config self0 ->
    method self = (Ok a, self') ->
    files_written self' = (files_written self ++ files)%list
    /\ config self' = config self0.

(** A method that leaves the errors as they were when it raises. *)
Definition errors_unchanged_on_raise {A} (method : M Solver A) : Prop :=
  forall self exc self',
    method self = (Raise exc, self') -> errors_of self' = errors_of self.



(** The first entry of [boundaries.array()] that is neither [0] nor a key of
    [bcs]. *)
Definition first_unprescribed (self : Solver) : option Z :=
  find (fun edge_id =>
          negb (existsb (Z.eqb edge_id) (0%Z :: dict_keys (bcs self))))
       (boundaries self).

(** ** Linear combinations of trial and of test functions *)

(** [c * a + b] on scalars, vectors and matrices with derivatives. *)
Definition jlin (c : Q) (a b : jet) : jet := jadd (jscale c a) b.
Definition vlin (c : Q) (a b : list jet) : list jet :=
  map (fun ab => jlin c (fst ab) (snd ab)) (combine a b).
Definition mlin (c : Q) (a b : list (list jet)) : list (list jet) :=
  map (fun ab => vlin c (fst ab) (snd ab)) (combine a b).

(** The point data of [a] with the trial functions [c * a + b]; with the
    test functions [c * a + b]. *)
Definition trial_combination (c : Q) (a b : locals) : locals :=
  {| coords := coords a;
     FacetNormal := FacetNormal a;
     CellDiameter := CellDiameter a;
     trial_theta := jlin c (trial_theta a) (trial_theta b);
     trial_s := vlin c (trial_s a) (trial_s b);
     trial_p := jlin c (trial_p a) (trial_p b);
     trial_u := vlin c (trial_u a) (trial_u b);
     trial_sigma := mlin c (trial_sigma a) (trial_sigma b);
     test_kappa := test_kappa a;
     test_r := test_r a;
     test_q := test_q a;
     test_v := test_v a;
     test_psi := test_psi a |}.

Definition test_combination (c : Q) (a b : locals) : locals :=
  {| coords := coords a;
     FacetNormal := FacetNormal a;
     CellDiameter := CellDiameter a;
     trial_theta := trial_theta a;
     trial_s := trial_s a;
     trial_p := trial_p a;
     trial_u := trial_u a;
     trial_sigma := trial_sigma a;
     test_kappa := jlin c (test_kappa a) (test_kappa b);
     test_r := vlin c (test_r a) (test_r b);
     test_q := jlin c (test_q a) (test_q b);
     test_v := vlin c (test_v a) (test_v b);
     test_psi := mlin c (test_psi a) (test_psi b) |}.

(** Point data of the two-dimensional domain: two components to a vector,
    two by two to a matrix. *)
Definition planar (a : locals) : Prop :=
  length (FacetNormal a) = 2%nat
  /\ length (trial_s a) = 2%nat /\ length (trial_u a) = 2%nat
  /\ has_shape2 2 2 (trial_sigma a)
  /\ length (test_r a) = 2%nat /\ length (test_v a) = 2%nat
  /\ has_shape2 2 2 (test_psi a).

(** Two point data at one place: same coordinates, normal and cell
    diameter. *)
Definition same_place (a b : locals) : Prop :=
  coords a = coords b /\ FacetNormal a = FacetNormal b
  /\ CellDiameter a = CellDiameter b.

Definition same_tests (a b : locals) : Prop :=
  test_kappa a = test_kappa b /\ test_r a = test_r b /\ test_q a = test_q b
  /\ test_v a = test_v b /\ test_psi a = test_psi b.

Definition same_trials (a b : locals) : Prop :=
  trial_theta a = trial_theta b /\ trial_s a = trial_s b
  /\ trial_p a = trial_p b /\ trial_u a = trial_u b
  /\ trial_sigma a = trial_sigma b.

(** An integral whose integrand is linear in the trial functions (with the
    place and the test functions fixed), linear in the test functions (with
    the place and the trial functions fixed), free of the trial functions. *)
Definition linear_in_trials (i : integral) : Prop :=
  forall (c : Q) (x y : point),
    (forall sd, planar (x sd) /\ planar (y sd) /\ same_place (x sd) (y sd)
                /\ same_tests (x sd) (y sd)) ->
    integrand i (fun sd => trial_combination c (x sd) (y sd))
    == c * integrand i x + integrand i y.

Definition linear_in_tests (i : integral) : Prop :=
  forall (c : Q) (x y : point),
    (forall sd, planar (x sd) /\ planar (y sd) /\ same_place (x sd) (y sd)
                /\ same_trials (x sd) (y sd)) ->
    integrand i (fun sd => test_combination c (x sd) (y sd))
    == c * integrand i x + integrand i y.

Definition free_of_trials (i : integral) : Prop :=
  forall (x y : point),
    (forall sd, same_place (x sd) (y sd) /\ same_tests (x sd) (y sd)) ->
    integrand i x == integrand i y.

(** * Concrete inputs

    A small finite-element library and a ring case, on which the methods
    run by computation. *)

Module Demo.

Definition components (e : element) : list element :=
  match e with
  | MixedElement _ => sub_elements e
  | VectorElement sub => [sub; sub]
  | TensorElement sub true => [sub; sub; sub]
  | TensorElement sub false => [sub; sub; sub; sub]
  | FiniteElement _ _ _ => []
  end.

Definition split_by_element (f : Function) : list Function :=
  map (fun e =>
         {| function_space := FunctionSpace (fs_mesh (function_space f)) e;
            vector := vector f;
            name := name f |})
      (components (ufl_element (function_space f))).

Definition interpolate3 (e : gexpr) (V : FunctionSpace_t) : Function :=
  {| function_space := V;
     vector :=
       match e with
       | Fn f => [nth 0 (vector f) 0; nth 1 (vector f) 0 + 1; nth 2 (vector f) 0 + 3]
       | CompiledExpression _ _ => [1; 1; 1]
       | Minus _ _ => [0; 0; 0]
       | Component _ _ => [0; 0; 0]
       end;
     name := "interpolant" |}.

Lemma interpolate3_dim (e : gexpr) (V : FunctionSpace_t) :
  length (vector (interpolate3 e V)) = 3%nat.
Proof. destruct e; reflexivity. Qed.

(** The families of the small library: Lagrange from degree 1 on and
    discontinuous Lagrange from degree 0 on, by name or short name. *)
Definition families (family : string) (cell : ufl_cell_t) (degree : Z)
  : option string :=
  if (family =? "Lagrange") || (family =? "CG")
  then (if (1 <=? degree)%Z then Some "Lagrange" else None)
  else if (family =? "Discontinuous Lagrange") || (family =? "DG")
  then (if (0 <=? degree)%Z then Some "Discontinuous Lagrange" else None)
  else None.

Definition dolfin : Dolfin :=
  {| Expression_eval := fun _ _ => 1;
     dim := fun _ => 3%nat;
     solution := fun _ _ w _ _ =>
       {| function_space := w; vector := [1; 2; 6]; name := "w" |};
     split := split_by_element;
     interpolate := interpolate3;
     project := fun _ V =>
       {| function_space := V; vector := [7; 7; 7]; name := "projection" |};
     errornorm_L2 := fun _ _ => 1/4;
     compute_vertex_values := vector;
     ufl_family := families;
     interpolate_dim := interpolate3_dim |}.

(** A ring mesh of triangles with its inner (3000) and outer (3100)
    boundary, and interior facets marked 0. *)
Definition ring : H5Mesh :=
  {| h5_mesh := {| ufl_cell := triangle; num_vertices := 3 |};
     h5_boundaries := [0; 3000; 3100; 0; 3000]%Z |}.

Definition elements : list (string * elem_cfg) :=
  [ ("theta", {| shape := "Lagrange"; degree := 1 |});
    ("s", {| shape := "Lagrange"; degree := 2 |});
    ("p", {| shape := "Lagrange"; degree := 1 |});
    ("u", {| shape := "Lagrange"; degree := 1 |});
    ("sigma", {| shape := "CG"; degree := 2 |}) ].

Definition params (mode : string) (use_cip : bool) (xi_tilde : Q) : Params :=
  {| params_mode := mode;
     params_use_coeffs := true;
     params_tau := 1/10;
     params_xi_tilde := xi_tilde;
     params_cip_enable := use_cip;
     params_delta_1 := 1;
     params_delta_2 := 1;
     params_delta_3 := 1/100;
     params_bcs :=
       [ (3000%Z, [("theta_w", 1); ("v_t", 0)]);
         (3100%Z, [("theta_w", 1/2); ("v_t", 1)]) ];
     params_heat_source := "0";
     params_mass_source := "0";
     params_exact_solution := "esols/1.cpp";
     params_output_folder := Some "out/";
     params_case_name := Some "out";
     params_elements := elements |}.

(** The solver right after [__init__], the same in both revisions for
    these parameters. *)
Definition solver (mode : string) (use_cip : bool) (xi_tilde : Q) : Solver :=
  init_with "out/" (params mode use_cip xi_tilde) ring "0".

(** The solver after [setup_function_spaces] of a revision. *)
Definition solver_with_spaces (rv : revision) (mode : string) (use_cip : bool)
    (xi_tilde : Q) : Solver :=
  snd (setup_function_spaces_of (D := dolfin) rv (solver mode use_cip xi_tilde)).

(** ... and after [assemble]. *)
Definition solver_assembled (rv : revision) (mode : string) (use_cip : bool)
    (xi_tilde : Q) : Solver :=
  snd (assemble_of (D := dolfin) nested_tensoroperations rv
         (solver_with_spaces rv mode use_cip xi_tilde)).

(** ... with the exact solutions loaded, and after [solve]. *)
Definition exact_solutions : list (string * option gexpr) :=
  [ ("theta", Some (CompiledExpression "Temperature" 2));
    ("s", Some (CompiledExpression "Heatflux" 2));
    ("p", Some (CompiledExpression "Pressure" 2));
    ("u", Some (CompiledExpression "Velocity" 2));
    ("sigma", Some (CompiledExpression "Stress" 2)) ].
Definition solver_solved (rv : revision) (mode : string) : Solver :=
  set_esol exact_solutions
    (snd (solve_of (D := dolfin) rv (solver_assembled rv mode true 2))).

(** A point where the normal is the first axis and the stress and its test
    function have a unit normal-normal entry. *)
Definition unit_nn : list (list jet) :=
  [ [jconst 1; jzero]; [jzero; jzero] ].
Definition here : locals :=
  {| coords := [1; 0];
     FacetNormal := [1; 0];
     CellDiameter := 1/2;
     trial_theta := mkJet 1 1 0;
     trial_s := [jzero; jzero];
     trial_p := mkJet 0 1 0;
     trial_u := [mkJet 0 1 0; jzero];
     trial_sigma := unit_nn;
     test_kappa := mkJet 1 1 0;
     test_r := [jzero; jzero];
     test_q := mkJet 0 1 0;
     test_v := [mkJet 0 1 0; jzero];
     test_psi := unit_nn |}.
Definition at_here : point := fun _ => here.

(** A second small library, in which a function is its three nodal values:
    the interpolant of a function has the coefficients of the function,
    that of a compiled expression the values of the expression at the nodes
    (all 1); the L2 distance of two functions is the largest difference of
    their coefficients, and that of a compiled expression from anything is
    1/4. *)
Fixpoint nodal_values (e : gexpr) : list Q :=
  match e with
  | Fn f => [nth 0 (vector f) 0; nth 1 (vector f) 0; nth 2 (vector f) 0]
  | CompiledExpression _ _ => [1; 1; 1]
  | Minus a b =>
      [nth 0 (nodal_values a) 0 - nth 0 (nodal_values b) 0;
       nth 1 (nodal_values a) 0 - nth 1 (nodal_values b) 0;
       nth 2 (nodal_values a) 0 - nth 2 (nodal_values b) 0]
  | Component e' _ => nodal_values e'
  end.

Fixpoint is_function (e : gexpr) : bool :=
  match e with
  | Fn _ => true
  | CompiledExpression _ _ => false
  | Minus a b => is_function a && is_function b
  | Component e' _ => is_function e'
  end.

Definition nodal_interpolate (e : gexpr) (V : FunctionSpace_t) : Function :=
  {| function_space := V; vector := nodal_values e; name := "interpolant" |}.

Lemma nodal_interpolate_dim (e : gexpr) (V : FunctionSpace_t) :
  length (vector (nodal_interpolate e V)) = 3%nat.
Proof. induction e; reflexivity || assumption. Qed.

Definition nodal : Dolfin :=
  {| Expression_eval := fun _ _ => 1;
     dim := fun _ => 3%nat;
     solution := fun _ _ w _ _ =>
       {| function_space := w; vector := [1; 2; 6]; name := "w" |};
     split := split_by_element;
     interpolate := nodal_interpolate;
     project := nodal_interpolate;
     errornorm_L2 := fun a b =>
       if is_function a && is_function b
       then norm_linf (vec_sub (nodal_values a) (nodal_values b))
       else 1/4;
     compute_vertex_values := vector;
     ufl_family := families;
     interpolate_dim := nodal_interpolate_dim |}.

(** The heat case with spaces, in which the discrete solutions are the
    interpolants of the exact ones. *)
Definition exact_nodes (V : FunctionSpace_t) : Function :=
  {| function_space := V; vector := [1; 1; 1]; name := "f" |}.
Definition solver_interpolating : Solver :=
  set_sol
    [ ("theta", Some (exact_nodes
         (FunctionSpace (h5_mesh ring) (FiniteElement "Lagrange" triangle 1))));
      ("s", Some (exact_nodes
         (FunctionSpace (h5_mesh ring)
            (VectorElement (FiniteElement "Lagrange" triangle 2)))));
      ("p", None); ("u", None); ("sigma", None) ]
    (set_esol exact_solutions (solver_with_spaces fenicsR13 "heat" true 2)).

(** The heat case with spaces, the condition of the inner boundary without
    the key ["v_t"]. *)
Definition params_without_v_t : Params :=
  {| params_mode := "heat";
     params_use_coeffs := true;
     params_tau := 1/10;
     params_xi_tilde := 2;
     params_cip_enable := true;
     params_delta_1 := 1;
     params_delta_2 := 1;
     params_delta_3 := 1/100;
     params_bcs :=
       [ (3000%Z, [("theta_w", 1)]);
         (3100%Z, [("theta_w", 1/2); ("v_t", 1)]) ];
     params_heat_source := "0";
     params_mass_source := "0";
     params_exact_solution := "esols/1.cpp";
     params_output_folder := Some "out/";
     params_case_name := Some "out";
     params_elements := elements |}.
Definition solver_without_v_t (rv : revision) : Solver :=
  snd (setup_function_spaces_of (D := dolfin) rv
         (init_with "out/" params_without_v_t ring "0")).


(** A mesh of tetrahedra and a solver on it. *)
Definition block : H5Mesh :=
  {| h5_mesh := {| ufl_cell := tetrahedron; num_vertices := 4 |};
     h5_boundaries := [0; 3000]%Z |}.
Definition solver_on_block : Solver :=
  init_with "out/" (params "stress" true 2) block "0".

End Demo.
(** * Properties *)

(** ** Tensor algebra *)

Section TensorFacts.
Import Tensor.

(** C2.  For every 2x2 tensor [B], [gen3dTracefreeTensor B] is a 3x3 tensor
    whose upper-left 2x2 block is [B], whose entries (0,2), (1,2), (2,0) and
    (2,1) are zero, whose trace is zero, and whose entry (2,2) is
    [-(B[0,0] + B[1,1])]. *)
Theorem gen3dTracefreeTensor_block_and_trace (B : list (list jet)) :
  has_shape2 3 3 (gen3dTracefreeTensor B)
  /\ (gen3dTracefreeTensor B)@j[0, 0] = B@j[0, 0]
  /\ (gen3dTracefreeTensor B)@j[0, 1] = B@j[0, 1]
  /\ (gen3dTracefreeTensor B)@j[1, 0] = B@j[1, 0]
  /\ (gen3dTracefreeTensor B)@j[1, 1] = B@j[1, 1]
  /\ (gen3dTracefreeTensor B)@j[0, 2] = jzero
  /\ (gen3dTracefreeTensor B)@j[1, 2] = jzero
  /\ (gen3dTracefreeTensor B)@j[2, 0] = jzero
  /\ (gen3dTracefreeTensor B)@j[2, 1] = jzero
  /\ jet_eq (jadd (jadd (gen3dTracefreeTensor B)@j[0, 0]
                        (gen3dTracefreeTensor B)@j[1, 1])
                  (gen3dTracefreeTensor B)@j[2, 2]) jzero
  /\ jet_eq (gen3dTracefreeTensor B)@j[2, 2] (jneg (jadd B@j[0, 0] B@j[1, 1])).
Proof.
  unfold gen3dTracefreeTensor, has_shape2, idx2; cbn [nth length].
  repeat split; try reflexivity.
  - repeat constructor.
  - cbn; ring.
  - cbn; ring.
  - cbn; ring.
  - cbn; ring.
  - cbn; ring.
  - cbn; ring.
Qed.

(** C9.  For all 2x2 tensor fields [sigma] and [psi] (symmetric ones
    among them) the expression returned when [hardcoded] is true equals
    [inner(dev3(grad3dOf2(gen3dTracefreeTensor(sigma))),
    grad3dOf2(gen3dTracefreeTensor(psi)))], returned when it is false. *)
Theorem innerOfDevOfGrad2AndGrad2_hardcoded_agrees (sigma psi : list (list jet)) :
  innerOfDevOfGrad2AndGrad2_with true sigma psi
  == innerOfDevOfGrad2AndGrad2_with false sigma psi.
Proof.
  unfold innerOfDevOfGrad2AndGrad2_with,
    innerOfDevOfGrad2AndGrad2_hardcoded, innerOfDevOfGrad2AndGrad2_compositional.
  cbv [inner3 dev3 sym3 grad3dOf2 gen3dTracefreeTensor grad2 grad1 grad0
       tab3 tab2 tab1 map seq length nth idx3 idx2 idx1 index_sum fold_right
       Identity Nat.eqb dx jsub jneg jzero jconst d0 d1 val].
  field.
Qed.
End TensorFacts.

(** ** Dicts *)

Section DictFacts.
Context {V : Type}.

Lemma sget_sset_eq (d : list (string * V)) k v :
  sget (sset d k v) k = Some v.
Proof.
  unfold sget, sset. induction d as [|[k' v'] d IH]; cbn.
  - rewrite String.eqb_refl. reflexivity.
  - destruct (String.eqb k k') eqn:E; cbn; rewrite E; [reflexivity | exact IH].
Qed.

Lemma sget_sset_neq (d : list (string * V)) k k' v :
  k <> k' -> sget (sset d k v) k' = sget d k'.
Proof.
  intros Hne. unfold sget, sset. induction d as [|[k0 v0] d IH]; cbn.
  - destruct (String.eqb k' k) eqn:E; [|reflexivity].
    apply String.eqb_eq in E. congruence.
  - destruct (String.eqb k k0) eqn:E; cbn.
    + apply String.eqb_eq in E; subst k0.
      destruct (String.eqb k' k) eqn:E'; [|reflexivity].
      apply String.eqb_eq in E'. congruence.
    + destruct (String.eqb k' k0); [reflexivity | exact IH].
Qed.

Lemma dict_keys_sset (d : list (string * V)) k v :
  In k (dict_keys d) -> dict_keys (sset d k v) = dict_keys d.
Proof.
  unfold sset, dict_keys. induction d as [|[k0 v0] d IH]; cbn; [intros []|].
  intros Hin. destruct (String.eqb k k0) eqn:E; cbn; [reflexivity|].
  f_equal. apply IH. destruct Hin as [->|Hin]; [|assumption].
  rewrite String.eqb_refl in E. discriminate.
Qed.

Lemma sget_in_keys (d : list (string * V)) k :
  In k (dict_keys d) -> exists v, sget d k = Some v.
Proof.
  unfold sget, dict_keys. induction d as [|[k0 v0] d IH]; cbn; [intros []|].
  intros Hin. destruct (String.eqb k k0) eqn:E; [eexists; reflexivity|].
  apply IH. destruct Hin as [->|Hin]; [|assumption].
  rewrite String.eqb_refl in E. discriminate.
Qed.
End DictFacts.

(** ** Running methods *)

(** Unfolding of the monad's operations. *)
Ltac munfold :=
  unfold getitem, not_none in *;
  unfold bind, this, get, modify, ret, raise, lift, require in *.

Section Inversion.
Context {S : Type}.

Lemma bind_inv {A B} (c : M S A) (k : A -> M S B) (s : S) b s' :
  bind c k s = (Ok b, s') ->
  exists a s1, c s = (Ok a, s1) /\ k a s1 = (Ok b, s').
Proof.
  unfold bind. destruct (c s) as [[a|e] s1]; [|discriminate].
  intros H. exists a, s1. split; [reflexivity | exact H].
Qed.

Lemma bind_run {A B} (c : M S A) (k : A -> M S B) (s : S) a s1 :
  c s = (Ok a, s1) -> bind c k s = k a s1.
Proof. unfold bind. intros ->. reflexivity. Qed.

Lemma ret_inv {A} (x : A) (s : S) a s' :
  ret x s = (Ok a, s') -> a = x /\ s' = s.
Proof. unfold ret. intros H. injection H as <- <-. split; reflexivity. Qed.

Lemma get_inv (s a s' : S) : get s = (Ok a, s') -> a = s /\ s' = s.
Proof. unfold get. intros H. injection H as <- <-. split; reflexivity. Qed.

Lemma modify_inv (f : S -> S) (s : S) a s' :
  modify f s = (Ok a, s') -> s' = f s.
Proof. unfold modify. intros H. injection H as _ <-. reflexivity. Qed.

Lemma raise_inv {A} (e : exn) (s : S) (a : A) s' : raise e s = (Ok a, s') -> False.
Proof. unfold raise. discriminate. Qed.

Lemma lift_inv {A} (r : result A) (s : S) a s' :
  lift r s = (Ok a, s') -> r = Ok a /\ s' = s.
Proof. unfold lift. intros H. injection H as -> <-. split; reflexivity. Qed.

Lemma require_inv {A} (e : exn) (o : option A) (s : S) a s' :
  require e o s = (Ok a, s') -> o = Some a /\ s' = s.
Proof.
  unfold require. destruct o as [x|]; [|intros H; destruct (raise_inv _ _ _ _ H)].
  intros H. apply ret_inv in H. destruct H as [-> ->]. split; reflexivity.
Qed.

Lemma getitem_inv {V} (d : list (string * V)) k (s : S) a s' :
  getitem d k s = (Ok a, s') -> sget d k = Some a /\ s' = s.
Proof. apply require_inv. Qed.

Lemma not_none_inv {V} what (o : option V) (s : S) a s' :
  not_none what o s = (Ok a, s') -> o = Some a /\ s' = s.
Proof. apply require_inv. Qed.
End Inversion.

(** A run is its result and the state it leaves. *)
Lemma returned {S A} (c : M S A) (s : S) (a : A) :
  fst (c s) = Ok a -> c s = (Ok a, snd (c s)).
Proof. destruct (c s) as [r s']. cbn. intros ->. reflexivity. Qed.

Lemma this_inv (s a s' : Solver) : this s = (Ok a, s') -> a = s /\ s' = s.
Proof. apply get_inv. Qed.

Lemma unpack2_inv {A} (l : list A) (s : Solver) a b s' :
  R13.unpack2 l s = (Ok (a, b), s') -> l = [a; b] /\ s' = s.
Proof.
  unfold R13.unpack2.
  destruct l as [|x [|y [|z l]]];
    try (intros H; destruct (raise_inv _ _ _ _ H)).
  intros H. apply ret_inv in H. destruct H as [H ->]. injection H as -> ->.
  split; reflexivity.
Qed.

Lemma unpack3_inv {A} (l : list A) (s : Solver) a b c s' :
  R13.unpack3 l s = (Ok (a, b, c), s') -> l = [a; b; c] /\ s' = s.
Proof.
  unfold R13.unpack3.
  destruct l as [|x [|y [|z [|z' l]]]];
    try (intros H; destruct (raise_inv _ _ _ _ H)).
  intros H. apply ret_inv in H. destruct H as [H ->]. injection H as -> -> ->.
  split; reflexivity.
Qed.

(** Reading an attribute after assignments. *)
Ltac ssimpl_in H :=
  cbn [config elems fspaces mxd_elems mxd_fspaces form_a form_b sol esol
       errors_f_l2 errors_v_linf io
       set_elems set_fspaces set_mxd_elems set_mxd_fspaces set_form_a
       set_form_b set_sol set_esol set_errors_f_l2 set_errors_v_linf set_io
       add_io init_with fst snd
       params mesh boundaries cell time mode use_coeffs tau xi_tilde use_cip
       delta_1 delta_2 delta_3 bcs R phi heat_source mass_source
       exact_solution output_folder var_ranks] in H.
Ltac ssimpl :=
  cbn [config elems fspaces mxd_elems mxd_fspaces form_a form_b sol esol
       errors_f_l2 errors_v_linf io
       set_elems set_fspaces set_mxd_elems set_mxd_fspaces set_form_a
       set_form_b set_sol set_esol set_errors_f_l2 set_errors_v_linf set_io
       add_io init_with fst snd
       params mesh boundaries cell time mode use_coeffs tau xi_tilde use_cip
       delta_1 delta_2 delta_3 bcs R phi heat_source mass_source
       exact_solution output_folder var_ranks] in *.

(** One step of a run that returned: the first operation of [H] is inverted,
    and [H] is left with the rest of the run. *)
Ltac mstep H :=
  let a := fresh "a" in
  let s1 := fresh "s" in
  let H1 := fresh "Hstep" in
  apply bind_inv in H; destruct H as (a & s1 & H1 & H);
  first
    [ apply this_inv in H1; destruct H1 as [-> ->]
    | apply getitem_inv in H1; destruct H1 as [H1 ->]
    | apply not_none_inv in H1; destruct H1 as [-> ->]
    | apply modify_inv in H1; subst s1; ssimpl_in H
    | apply lift_inv in H1; destruct H1 as [H1 ->]
    | apply unpack2_inv in H1
    | apply unpack3_inv in H1
    | idtac ].

(** Forward steps of a run. *)
Lemma this_run (s : Solver) : this s = (Ok s, s).
Proof. reflexivity. Qed.

Lemma modify_run {S} (f : S -> S) (s : S) : modify f s = (Ok tt, f s).
Proof. reflexivity. Qed.

Lemma ret_run {S A} (x : A) (s : S) : ret x s = (Ok x, s).
Proof. reflexivity. Qed.

Lemma getitem_run {S V} (d : list (string * V)) k v (s : S) :
  sget d k = Some v -> getitem d k s = (Ok v, s).
Proof. unfold getitem, require. intros ->. reflexivity. Qed.

Lemma not_none_run {S V} what (v : V) (s : S) :
  not_none what (Some v) s = (Ok v, s).
Proof. reflexivity. Qed.


Lemma bind_exec {S A B} (c : M S A) (k : A -> M S B) (s : S) a s1 r :
  c s = (Ok a, s1) -> k a s1 = r -> bind c k s = r.
Proof. unfold bind. intros -> <-. reflexivity. Qed.


(** The constructors of elements, on a family the table has. *)
Section ElementRuns.
Context {D : Dolfin} {S : Type}.




End ElementRuns.


(** ** The boundary check *)

Section BoundaryCheck.
Context {D : Dolfin} (to : tensoroperations).

Lemma check_loop_state allowed ids (self : Solver) :
  snd (for_each (fun edge_id : Z =>
         if negb (existsb (Z.eqb edge_id) allowed)
         then raise (Exception ("Mesh edge id " ++ str_of_Z edge_id ++ " has no bcs!"))
         else ret tt) ids self) = self.
Proof.
  induction ids as [|e ids IH]; cbn [for_each]; [reflexivity|].
  munfold. destruct (negb (existsb (Z.eqb e) allowed)); cbn; [reflexivity|].
  apply IH.
Qed.

Lemma check_loop_raises allowed ids (self : Solver) :
  (exists e, fst (for_each (fun edge_id : Z =>
         if negb (existsb (Z.eqb edge_id) allowed)
         then raise (Exception ("Mesh edge id " ++ str_of_Z edge_id ++ " has no bcs!"))
         else ret tt) ids self) = Raise e)
  <-> exists edge_id, In edge_id ids /\ ~ In edge_id allowed.
Proof.
  induction ids as [|e ids IH]; cbn [for_each].
  - munfold; cbn. split; [intros [? H]; discriminate | intros [? [[] _]]].
  - munfold. destruct (existsb (Z.eqb e) allowed) eqn:Hex; cbn [negb].
    + cbn. munfold. rewrite IH. apply existsb_exists in Hex.
      destruct Hex as [y [Hy Heq]]. apply Z.eqb_eq in Heq; subst y.
      split.
      * intros [id [Hin Hn]]. exists id; split; [right|]; assumption.
      * intros [id [[->|Hin] Hn]]; [contradiction|]. exists id; split; assumption.
    + cbn. split; [intros _ | intros _; eexists; reflexivity].
      exists e; split; [left; reflexivity|].
      intros Hin. assert (existsb (Z.eqb e) allowed = true) as Habs.
      { apply existsb_exists. exists e; split; [assumption | apply Z.eqb_refl]. }
      congruence.
Qed.

Lemma check_bcs_state (self : Solver) : snd (check_bcs self) = self.
Proof. unfold check_bcs. munfold. apply check_loop_state. Qed.

Lemma check_bcs_raises (self : Solver) :
  (exists e, fst (check_bcs self) = Raise e) <-> exists id, unprescribed self id.
Proof.
  unfold check_bcs. munfold. rewrite check_loop_raises.
  unfold unprescribed. split; intros [id H]; exists id.
  - destruct H as [Hin Hn]. split; [assumption|]. split.
    + intros ->. apply Hn. left; reflexivity.
    + intros Hk. apply Hn. right; assumption.
  - destruct H as [Hin [H0 Hk]]. split; [assumption|].
    intros [<-|Hin']; [apply H0; reflexivity | apply Hk; assumption].
Qed.

Lemma check_bcs_run (self : Solver) :
  check_bcs self = (fst (check_bcs self), self).
Proof.
  rewrite <- (check_bcs_state self) at 3. destruct (check_bcs self); reflexivity.
Qed.

(** C8.  [check_bcs] raises exactly when some boundary id of the mesh is
    neither [0] nor a key of [bcs]; raising or not, it leaves the solver as
    it was; and with such an id [assemble] raises with the solver as it
    was, so before any form is built. *)
Theorem check_bcs_raises_iff_unprescribed (rv : revision) (self : Solver) :
  ((exists e, fst (check_bcs self) = Raise e) <-> exists id, unprescribed self id)
  /\ snd (check_bcs self) = self
  /\ ((exists id, unprescribed self id) ->
      exists e, assemble_of to rv self = (Raise e, self)).
Proof.
  split; [apply check_bcs_raises|]. split; [apply check_bcs_state|].
  intros H. apply check_bcs_raises in H. destruct H as [e He].
  exists e. destruct rv; cbn [assemble_of];
    unfold R13.assemble, Src.assemble, bind at 1;
    rewrite check_bcs_run, He; reflexivity.
Qed.
End BoundaryCheck.

(** ** Runs of [solve] *)

Section SolveRuns.
Context {D : Dolfin}.

(** A run of [solve] in mode "heat" that returns. *)
Lemma solve_heat_run (rv : revision) (self self' : Solver) :
  mode self = "heat" ->
  solve_of rv self = (Ok tt, self') ->
  exists w a L f_theta f_s,
    sget (mxd_fspaces self) "heat" = Some (Some w)
    /\ form_a self = Some a /\ form_b self = Some L
    /\ split (solution a L w [] "mumps") = [f_theta; f_s]
    /\ io self' = (io self ++ [df_solve a L w [] "mumps"])%list
    /\ sol self' = sset (sset (sol self) "theta" (Some f_theta)) "s" (Some f_s).
Proof.
  intros Hmode H. destruct rv; cbn [solve_of] in H.
  - unfold R13.solve in H. mstep H. rewrite Hmode in H.
    change ("heat" =? "heat") with true in H. cbv iota in H.
    do 6 mstep H. destruct a3 as [sol_theta sol_s].
    apply unpack2_inv in Hstep0. destruct Hstep0 as [Hsplit ->].
    mstep H. apply modify_inv in H. subst.
    exists a0, a, a1, sol_theta, sol_s. repeat split; assumption || reflexivity.
  - unfold Src.solve in H. mstep H. rewrite Hmode in H.
    change ("heat" =? "heat") with true in H.
    change ("heat" =? "stress") with false in H.
    change ("heat" =? "coupled") with false in H. cbv iota in H.
    cbn [orb] in H.
    do 6 mstep H.
    apply ret_inv in H. destruct H as [_ ->].
    rename Hstep0 into H. mstep H. destruct a4 as [sol_theta sol_s].
    apply unpack2_inv in Hstep0. destruct Hstep0 as [Hsplit ->].
    mstep H. apply modify_inv in H. subst.
    exists a0, a, a1, sol_theta, sol_s. repeat split; assumption || reflexivity.
Qed.

(** A run of [solve] in mode "stress" that returns. *)
Lemma solve_stress_run (rv : revision) (self self' : Solver) :
  mode self = "stress" ->
  solve_of rv self = (Ok tt, self') ->
  exists w a L f_p f_u f_sigma V,
    sget (mxd_fspaces self) "stress" = Some (Some w)
    /\ form_a self = Some a /\ form_b self = Some L
    /\ split (solution a L w [] (linear_solver_of rv "stress")) = [f_p; f_u; f_sigma]
    /\ sget (fspaces self) "p" = Some (Some V)
    /\ io self' = (io self ++ [df_solve a L w [] (linear_solver_of rv "stress")])%list
    /\ sol self' =
       sset (sset (sset (sset (sol self) "p" (Some f_p)) "u" (Some f_u))
               "sigma" (Some f_sigma)) "p"
         (Some (shifted rv (interpolate (Fn f_p) V) V)).
Proof.
  intros Hmode H. destruct rv; cbn [solve_of linear_solver_of] in *.
  - unfold R13.solve in H. mstep H. rewrite Hmode in H.
    change ("stress" =? "heat") with false in H.
    change ("stress" =? "stress") with true in H. cbv iota in H.
    do 6 mstep H. destruct a3 as [[sol_p sol_u] sol_sigma].
    apply unpack3_inv in Hstep0. destruct Hstep0 as [Hsplit ->].
    do 8 mstep H. apply modify_inv in H. subst. ssimpl.
    rewrite !sget_sset_neq, sget_sset_eq in Hstep0 by discriminate.
    injection Hstep0 as <-.
    exists a0, a, a1, sol_p, sol_u, sol_sigma, a8.
    repeat split; assumption || reflexivity.
  - unfold Src.solve in H. mstep H. rewrite Hmode in H.
    change ("stress" =? "heat") with false in H.
    change ("stress" =? "stress") with true in H. cbv iota in H.
    cbn [orb] in H.
    do 6 mstep H.
    rename Hstep0 into H0. mstep H0. destruct a4 as [[sol_p sol_u] sol_sigma].
    apply unpack3_inv in Hstep0. destruct Hstep0 as [Hsplit ->].
    do 2 mstep H0. apply modify_inv in H0. subst.
    do 5 mstep H. ssimpl. mstep H.
    match goal with
    | Hm : pydiv _ _ = Ok _ |- _ => rename Hm into Hmean
    end.
    apply modify_inv in H. subst. ssimpl.
    rewrite !sget_sset_neq, sget_sset_eq in Hstep0 by discriminate.
    injection Hstep0 as <-.
    exists a0, a, a1, sol_p, sol_u, sol_sigma, a8.
    repeat split; try assumption; try reflexivity.
    unfold shifted. cbn [calc_sf_mean_of]. rewrite Hmean. reflexivity.
Qed.
End SolveRuns.

(** ** The mean of the pressure *)

Section PressureMean.
Context {D : Dolfin}.

Lemma vec_sub_constant (v : list Q) (m : Q) (k : nat) :
  length v = k ->
  vec_sub v (map (fun _ => m) (repeat 0 k)) = map (fun x => x - m) v.
Proof.
  unfold vec_sub. revert k. induction v as [|x v IH]; intros k Hk.
  - reflexivity.
  - destruct k as [|k]; [discriminate|]. cbn. f_equal. apply IH.
    cbn in Hk. congruence.
Qed.

Lemma vec_sum_shift (v : list Q) (m : Q) :
  vec_sum (map (fun x => x - m) v)
  == vec_sum v - inject_Z (Z.of_nat (length v)) * m.
Proof.
  unfold vec_sum. induction v as [|x v IH].
  - cbn. ring.
  - cbn [map fold_right length]. rewrite IH, Nat2Z.inj_succ.
    unfold Z.succ. rewrite inject_Z_plus. ring.
Qed.

Lemma count_nonzero (v : list Q) :
  v <> [] -> ~ inject_Z (Z.of_nat (length v)) == 0.
Proof.
  intros Hv H. destruct v as [|x v]; [congruence|].
  unfold Qeq in H. cbn in H. lia.
Qed.

(** The mean of a non-empty vector, in either revision. *)
Lemma calc_sf_mean_of_nonempty (rv : revision) (f : Function) :
  vector f <> [] ->
  calc_sf_mean_of rv f
  = Some (vec_sum (vector f) / inject_Z (Z.of_nat (length (vector f)))).
Proof.
  intros Hv. destruct rv; cbn [calc_sf_mean_of].
  - unfold R13.calc_sf_mean. destruct (vector f); [congruence | reflexivity].
  - unfold pydiv.
    destruct (Qeq_bool (inject_Z (Z.of_nat (length (vector f)))) 0) eqn:E;
      [|reflexivity].
    apply Qeq_bool_iff in E. apply count_nonzero in Hv. contradiction.
Qed.

(** Subtracting its mean from a non-empty coefficient vector leaves a
    vector of mean zero. *)
Lemma mean_after_shift (rv : revision) (f g : Function) (m : Q) :
  vector f <> [] ->
  calc_sf_mean_of rv f = Some m ->
  vector g = map (fun x => x - m) (vector f) ->
  exists m', calc_sf_mean_of rv g = Some m' /\ m' == 0.
Proof.
  intros Hv Hm Hg.
  assert (vector g <> []) as Hg'.
  { rewrite Hg. destruct (vector f); [congruence | discriminate]. }
  rewrite calc_sf_mean_of_nonempty in Hm by assumption.
  injection Hm as <-.
  eexists. split; [apply calc_sf_mean_of_nonempty; assumption|].
  rewrite Hg, length_map, vec_sum_shift.
  apply count_nonzero in Hv. field. assumption.
Qed.

Lemma shifted_vector (rv : revision) (e : gexpr) (V : FunctionSpace_t) m :
  calc_sf_mean_of rv (interpolate e V) = Some m ->
  vector (shifted rv (interpolate e V) V)
  = map (fun x => x - m) (vector (interpolate e V)).
Proof.
  intros Hm. unfold shifted. rewrite Hm.
  unfold assign_difference, assign_constant, Function_new, set_vector.
  cbn [vector]. apply vec_sub_constant. apply interpolate_dim.
Qed.
End PressureMean.

(** ** What [solve] assigns *)

Section SolveFrame.
Context {D : Dolfin}.

(** C6.  A run of [solve] in mode "heat" or "stress" solves
    [form_a == form_b] on the mixed space of the mode once, with the empty
    list of Dirichlet conditions and the direct solver "mumps" or
    "direct"; under every key of the mode [self.sol] then holds a function,
    and under every other key it holds what it held before (that is [None]
    for a solver fresh from [__init__]). *)
Theorem solve_assigns_only_mode_fields (rv : revision) (self self' : Solver) :
  mode self = "heat" \/ mode self = "stress" ->
  solve_of rv self = (Ok tt, self') ->
  (exists a L w linear_solver,
      form_a self = Some a /\ form_b self = Some L
      /\ sget (mxd_fspaces self) (mode self) = Some (Some w)
      /\ (linear_solver = "mumps" \/ linear_solver = "direct")
      /\ io self' = (io self ++ [df_solve a L w [] linear_solver])%list)
  /\ (forall k, In k (mode_fields (mode self)) ->
                exists f, sget (sol self') k = Some (Some f))
  /\ (forall k, ~ In k (mode_fields (mode self)) ->
                sget (sol self') k = sget (sol self) k).
Proof.
  intros [Hmode|Hmode] H.
  - destruct (solve_heat_run rv self self' Hmode H)
      as (w & a & L & f_theta & f_s & Hw & Ha & HL & _ & Hio & Hsol).
    rewrite Hmode, Hsol. split; [|split].
    + exists a, L, w, "mumps". repeat split; try assumption. left; reflexivity.
    + cbn. intros k [<-|[<-|[]]].
      * rewrite sget_sset_neq, sget_sset_eq by discriminate. eexists; reflexivity.
      * rewrite sget_sset_eq. eexists; reflexivity.
    + cbn. intros k Hk. rewrite !sget_sset_neq; [reflexivity| |];
        intros <-; apply Hk; auto.
  - destruct (solve_stress_run rv self self' Hmode H)
      as (w & a & L & f_p & f_u & f_sigma & V & Hw & Ha & HL & _ & _ & Hio & Hsol).
    rewrite Hmode, Hsol. split; [|split].
    + exists a, L, w, (linear_solver_of rv "stress"). repeat split; try assumption.
      destruct rv; [right|left]; reflexivity.
    + cbn. intros k [<-|[<-|[<-|[]]]].
      * rewrite sget_sset_eq. eexists; reflexivity.
      * rewrite !sget_sset_neq, sget_sset_eq by discriminate. eexists; reflexivity.
      * rewrite sget_sset_neq, sget_sset_eq by discriminate. eexists; reflexivity.
    + cbn. intros k Hk. rewrite !sget_sset_neq; [reflexivity| | | |];
        intros <-; apply Hk; auto.
Qed.
End SolveFrame.

(** A heat case and a stress case, solved in each revision: the fields of
    the other system are still [None]. *)
Lemma solve_assigns_only_mode_fields_witness :
  (exists f g, sget (sol (snd (solve_of (D := Demo.dolfin) fenicsR13
                                 (Demo.solver_assembled fenicsR13 "heat" true 2)))) "theta"
               = Some (Some f)
            /\ sget (sol (snd (solve_of (D := Demo.dolfin) src
                                 (Demo.solver_assembled src "stress" true 2)))) "sigma"
               = Some (Some g))
  /\ sget (sol (snd (solve_of (D := Demo.dolfin) fenicsR13
                       (Demo.solver_assembled fenicsR13 "heat" true 2)))) "p"
     = Some None
  /\ sget (sol (snd (solve_of (D := Demo.dolfin) src
                       (Demo.solver_assembled src "stress" true 2)))) "theta"
     = Some None.
Proof.
  pose proof (solve_assigns_only_mode_fields (D := Demo.dolfin) fenicsR13
                (Demo.solver_assembled fenicsR13 "heat" true 2)
                (snd (solve_of (D := Demo.dolfin) fenicsR13
                        (Demo.solver_assembled fenicsR13 "heat" true 2)))
                (or_introl eq_refl)
                (returned (solve_of (D := Demo.dolfin) fenicsR13)
                   (Demo.solver_assembled fenicsR13 "heat" true 2) tt
                   ltac:(vm_compute; reflexivity)))
    as (_ & Hset & Hkeep).
  pose proof (solve_assigns_only_mode_fields (D := Demo.dolfin) src
                (Demo.solver_assembled src "stress" true 2)
                (snd (solve_of (D := Demo.dolfin) src
                        (Demo.solver_assembled src "stress" true 2)))
                (or_intror eq_refl)
                (returned (solve_of (D := Demo.dolfin) src)
                   (Demo.solver_assembled src "stress" true 2) tt
                   ltac:(vm_compute; reflexivity)))
    as (_ & Hset' & Hkeep').
  split; [|split].
  - destruct (Hset "theta" ltac:(cbn; auto)) as [f Hf].
    destruct (Hset' "sigma" ltac:(cbn; auto)) as [g Hg].
    exists f, g. split; assumption.
  - rewrite (Hkeep "p"); [reflexivity|]. cbn. intros [H|[H|[]]]; discriminate.
  - rewrite (Hkeep' "theta"); [reflexivity|]. cbn. intros [H|[H|[H|[]]]]; discriminate.
Defined.

Section PressureAfterSolve.
Context {D : Dolfin}.

(** C10.  After a run of [solve] in mode "stress", on a pressure space
    with at least one degree of freedom, [self.sol["p"]] is a function
    whose coefficient vector is that of an interpolant less its mean
    (the sum of the entries divided by their count), and its mean as
    [calc_sf_mean] computes it is zero, in exact arithmetic. *)
Theorem solve_stores_zero_mean_pressure (rv : revision) (self self' : Solver)
    (V : FunctionSpace_t) :
  mode self = "stress" ->
  sget (fspaces self) "p" = Some (Some V) ->
  (0 < dim V)%nat ->
  solve_of rv self = (Ok tt, self') ->
  exists p_0 p_i m m',
    calc_sf_mean_of rv p_0 = Some m
    /\ m = vec_sum (vector p_0) / inject_Z (Z.of_nat (length (vector p_0)))
    /\ vector p_i = map (fun x => x - m) (vector p_0)
    /\ sget (sol self') "p" = Some (Some p_i)
    /\ calc_sf_mean_of rv p_i = Some m'
    /\ m' == 0.
Proof.
  intros Hmode HV Hdim H.
  destruct (solve_stress_run rv self self' Hmode H)
    as (w & a & L & f_p & f_u & f_sigma & V' & _ & _ & _ & _ & HV' & _ & Hsol).
  rewrite HV in HV'. injection HV' as <-.
  assert (vector (interpolate (Fn f_p) V) <> []) as Hne.
  { intros Hnil. pose proof (interpolate_dim (Fn f_p) V) as Hlen.
    rewrite Hnil in Hlen. cbn in Hlen. lia. }
  pose proof (calc_sf_mean_of_nonempty rv _ Hne) as Hm.
  pose proof (shifted_vector rv (Fn f_p) V _ Hm) as Hvec.
  destruct (mean_after_shift rv _ _ _ Hne Hm Hvec) as (m' & Hm' & Hzero).
  exists (interpolate (Fn f_p) V), (shifted rv (interpolate (Fn f_p) V) V).
  eexists. exists m'.
  split; [exact Hm|]. split; [reflexivity|]. split; [exact Hvec|].
  split; [|split; assumption].
  rewrite Hsol. apply sget_sset_eq.
Qed.
End PressureAfterSolve.

(** A stress case solved in each revision. *)
Lemma solve_stores_zero_mean_pressure_witness :
  (exists p_i m', sget (sol (snd (solve_of (D := Demo.dolfin) fenicsR13
                                    (Demo.solver_assembled fenicsR13 "stress" true 2)))) "p"
                  = Some (Some p_i)
               /\ calc_sf_mean_of fenicsR13 p_i = Some m' /\ m' == 0)
  /\ (exists p_i m', sget (sol (snd (solve_of (D := Demo.dolfin) src
                                       (Demo.solver_assembled src "stress" true 2)))) "p"
                     = Some (Some p_i)
                  /\ calc_sf_mean_of src p_i = Some m' /\ m' == 0).
Proof.
  split.
  - destruct (solve_stores_zero_mean_pressure (D := Demo.dolfin) fenicsR13
                (Demo.solver_assembled fenicsR13 "stress" true 2)
                (snd (solve_of (D := Demo.dolfin) fenicsR13
                        (Demo.solver_assembled fenicsR13 "stress" true 2)))
                (FunctionSpace (h5_mesh Demo.ring) (FiniteElement "Lagrange" triangle 1))
                eq_refl ltac:(vm_compute; reflexivity) ltac:(cbn; lia)
                (returned (solve_of (D := Demo.dolfin) fenicsR13)
                   (Demo.solver_assembled fenicsR13 "stress" true 2) tt
                   ltac:(vm_compute; reflexivity)))
      as (p_0 & p_i & m & m' & _ & _ & _ & Hp & Hm' & Hz).
    exists p_i, m'. repeat split; assumption.
  - destruct (solve_stores_zero_mean_pressure (D := Demo.dolfin) src
                (Demo.solver_assembled src "stress" true 2)
                (snd (solve_of (D := Demo.dolfin) src
                        (Demo.solver_assembled src "stress" true 2)))
                (FunctionSpace (h5_mesh Demo.ring) (FiniteElement "Lagrange" triangle 1))
                eq_refl ltac:(vm_compute; reflexivity) ltac:(cbn; lia)
                (returned (solve_of (D := Demo.dolfin) src)
                   (Demo.solver_assembled src "stress" true 2) tt
                   ltac:(vm_compute; reflexivity)))
      as (p_0 & p_i & m & m' & _ & _ & _ & Hp & Hm' & Hz).
    exists p_i, m'. repeat split; assumption.
Defined.

(** ** Function spaces *)

Section Spaces.
Context {D : Dolfin}.



End Spaces.


(** ** Writing fields *)

Section Writing.
Context {D : Dolfin}.

Lemma cell_eqb_eq (a b : ufl_cell_t) : cell_eqb a b = true <-> a = b.
Proof.
  unfold cell_eqb. destruct a as [na da], b as [nb db]. cbn. split.
  - intros H. apply andb_prop in H. destruct H as [Hn Hd].
    apply String.eqb_eq in Hn. apply Nat.eqb_eq in Hd. subst. reflexivity.
  - intros H. injection H as -> ->. rewrite String.eqb_refl, Nat.eqb_refl.
    reflexivity.
Qed.

Lemma element_eqb_symmetric_lagrange (e : element) (d : Z) :
  element_eqb e (symmetric_lagrange_tensor triangle d) = true
  <-> e = symmetric_lagrange_tensor triangle d.
Proof.
  unfold symmetric_lagrange_tensor. split.
  - destruct e as [| |sub y|]; cbn; try discriminate.
    destruct sub as [f c dg| | |]; cbn; try discriminate.
    intros H. apply andb_prop in H. destruct H as [H Hy].
    apply andb_prop in H. destruct H as [H Hd].
    apply andb_prop in H. destruct H as [Hf Hc].
    apply String.eqb_eq in Hf. apply Z.eqb_eq in Hd.
    apply Bool.eqb_prop in Hy. apply cell_eqb_eq in Hc. subst.
    reflexivity.
  - intros ->. cbn. rewrite Z.eqb_refl. reflexivity.
Qed.

(** The loop finds nothing when the element is none of the five. *)
Lemma remove_symmetry_other (msh : Mesh) (field : Function) (degrees : list nat) :
  (forall degree, In degree degrees ->
     ufl_element (function_space field)
     <> symmetric_lagrange_tensor triangle (Z.of_nat degree + 1)) ->
  remove_symmetry msh field degrees = (field, false).
Proof.
  induction degrees as [|degree rest IH]; intros Hne; cbn [remove_symmetry].
  - reflexivity.
  - destruct (element_eqb (ufl_element (function_space field))
                (TensorElement (FiniteElement "Lagrange" triangle
                                  (Z.of_nat degree + 1)) true)) eqn:E.
    + apply element_eqb_symmetric_lagrange in E.
      destruct (Hne degree (or_introl eq_refl) E).
    + apply IH. intros d Hd. apply Hne. right; assumption.
Qed.


Lemma flat_map_ext_on {A B} (f g : A -> list B) (l : list A) :
  (forall a, In a l -> f a = g a) -> flat_map f l = flat_map g l.
Proof.
  induction l as [|a l IH]; intros H; cbn; [reflexivity|].
  rewrite (H a (or_introl eq_refl)). f_equal. apply IH.
  intros b Hb. apply H. right; assumption.
Qed.

Lemma write_xdmf_run (name : string) (field : Function) (self : Solver) :
  write_xdmf name field self
  = (Ok (if snd (remove_symmetry (mesh self) field (seq 0 5))
         then field else written_field self name field),
     add_io (xdmf_write (xdmf_path self name) (written_field self name field)
               (time self)) self).
Proof.
  unfold write_xdmf, written_field, xdmf_path.
  eapply bind_exec; [apply this_run|]. cbv beta.
  destruct (remove_symmetry (mesh self) field (seq 0 5)) as [f' b].
  reflexivity.
Qed.

(** The loop of [write_solutions] over a list of distinct keys of
    [self.sol]. *)
Lemma write_solutions_loop (keys : list string) (self : Solver) :
  NoDup keys ->
  (forall k, In k keys -> In k (dict_keys (sol self))) ->
  exists self',
    for_each (fun field =>
      self <- this ;;
      sols_field <- getitem (sol self) field ;;
      match sols_field with
      | Some f =>
          f' <- write_xdmf field f ;;
          modify (fun self => set_sol (sset (sol self) field (Some f')) self)
      | None => ret tt
      end) keys self = (Ok tt, self')
    /\ io self' = (io self ++ solution_writes self (sol self) keys)%list
    /\ config self' = config self
    /\ dict_keys (sol self') = dict_keys (sol self)
    /\ (forall k, ~ In k keys -> sget (sol self') k = sget (sol self) k).
Proof.
  intros Hnd. revert self. induction Hnd as [|k keys Hk Hnd IH]; intros self Hin.
  - exists self. cbn. rewrite app_nil_r. repeat split; reflexivity.
  - destruct (sget_in_keys (sol self) k (Hin k (or_introl eq_refl))) as [v Hv].
    cbn [for_each].
    destruct v as [f|].
    + set (f' := if snd (remove_symmetry (mesh self) f (seq 0 5))
                 then f else written_field self k f).
      set (self1 := set_sol (sset (sol self) k (Some f'))
                      (add_io (xdmf_write (xdmf_path self k)
                                 (written_field self k f) (time self)) self)).
      destruct (IH self1) as (self' & Hrun & Hio & Hcfg & Hkeys & Hkeep).
      { intros k' Hk'. unfold self1. ssimpl.
        rewrite dict_keys_sset by (apply Hin; left; reflexivity).
        apply Hin. right; assumption. }
      exists self'. split; [|split; [|split; [|split]]].
      * eapply bind_exec; [|exact Hrun].
        eapply bind_exec; [apply this_run|]. cbv beta.
        eapply bind_exec; [apply getitem_run; exact Hv|]. cbv beta iota.
        eapply bind_exec; [apply write_xdmf_run|]. apply modify_run.
      * rewrite Hio. unfold self1. ssimpl.
        unfold solution_writes. cbn [flat_map]. rewrite Hv.
        rewrite <- app_assoc. cbn [app]. do 2 f_equal.
        apply flat_map_ext_on. intros k' Hk'.
        rewrite sget_sset_neq by (intros <-; contradiction).
        reflexivity.
      * rewrite Hcfg. reflexivity.
      * rewrite Hkeys. unfold self1. ssimpl.
        apply dict_keys_sset. apply Hin. left; reflexivity.
      * intros k' Hk'. rewrite Hkeep by (intros H; apply Hk'; right; assumption).
        unfold self1. ssimpl. apply sget_sset_neq.
        intros <-. apply Hk'. left; reflexivity.
    + destruct (IH self) as (self' & Hrun & Hio & Hcfg & Hkeys & Hkeep).
      { intros k' Hk'. apply Hin. right; assumption. }
      exists self'. split; [|split; [|split; [|split]]].
      * eapply bind_exec; [|exact Hrun].
        eapply bind_exec; [apply this_run|]. cbv beta.
        eapply bind_exec; [apply getitem_run; exact Hv|]. cbv beta iota.
        apply ret_run.
      * rewrite Hio. unfold solution_writes. cbn [flat_map]. rewrite Hv.
        reflexivity.
      * exact Hcfg.
      * exact Hkeys.
      * intros k' Hk'. apply Hkeep. intros H; apply Hk'; right; assumption.
Qed.
End Writing.

Section WritingClaim.
Context {D : Dolfin}.

End WritingClaim.


(** ** Errors *)

Section Errors.
Context {D : Dolfin}.

(** The components of two lists, paired by index as the comprehensions of
    the error helpers pair them. *)
Lemma comprehension_by_index {A} (g : Function -> Function -> M Solver A)
    (g' : Function -> Function -> A) (a b pa pb : list Function)
    (self : Solver) r s' :
  (forall e c st x st', g e c st = (Ok x, st') -> x = g' e c /\ st' = st) ->
  length pa = length pb ->
  comprehension (fun i =>
      e_i <- require (IndexError "field_e_i.split()[i]")
               (nth_error (pa ++ a)%list i) ;;
      s_i <- require (IndexError "field_i.split()[i]")
               (nth_error (pb ++ b)%list i) ;;
      g e_i s_i) (seq (length pa) (length a)) self = (Ok r, s') ->
  r = map (fun ec => g' (fst ec) (snd ec)) (combine a b) /\ s' = self.
Proof.
  intros Hg. revert b pa pb r. induction a as [|x a IH]; intros b pa pb r Hlen H.
  - cbn in H. apply ret_inv in H. destruct H as [-> ->]. split; reflexivity.
  - cbn [length seq comprehension] in H.
    apply bind_inv in H. destruct H as (y & s1 & Hy & H).
    apply bind_inv in Hy. destruct Hy as (e_i & s2 & He & Hy).
    apply require_inv in He. destruct He as [He ->].
    apply bind_inv in Hy. destruct Hy as (c_i & s3 & Hc & Hy).
    apply require_inv in Hc. destruct Hc as [Hc ->].
    rewrite nth_error_app2 in He by lia. rewrite Nat.sub_diag in He.
    cbn in He. injection He as <-.
    rewrite Hlen in Hc. rewrite nth_error_app2 in Hc by lia.
    rewrite Nat.sub_diag in Hc. destruct b as [|c b]; [discriminate|].
    cbn in Hc. injection Hc as <-.
    apply Hg in Hy. destruct Hy as [-> ->].
    apply bind_inv in H. destruct H as (ys & s4 & Hys & H).
    apply ret_inv in H. destruct H as [-> ->].
    specialize (IH b (pa ++ [x])%list (pb ++ [c])%list ys).
    rewrite <- !app_assoc, !length_app in IH. cbn [app length] in IH.
    rewrite Nat.add_1_r in IH.
    destruct IH as [-> ->]; [lia | exact Hys |].
    split; reflexivity.
Qed.

Lemma by_component_inv {A} (g : Function -> Function -> M Solver A)
    (g' : Function -> Function -> A) (field_e_i field_i : Function)
    (self : Solver) r s' :
  (forall e c st x st', g e c st = (Ok x, st') -> x = g' e c /\ st' = st) ->
  by_component g field_e_i field_i self = (Ok r, s') ->
  r = map (fun ec => g' (fst ec) (snd ec))
        (combine (split field_e_i) (split field_i))
  /\ s' = self.
Proof.
  intros Hg H. unfold by_component in H.
  exact (comprehension_by_index g g' (split field_e_i) (split field_i) [] []
           self r s' Hg eq_refl H).
Qed.

Lemma np_max_abs_inv (d : list Q) (st : Solver) x st' :
  np_max_abs d st = (Ok x, st') -> x = linf_vertex d /\ st' = st.
Proof.
  unfold np_max_abs, linf_vertex. destruct d as [|y d].
  - intros H. destruct (raise_inv _ _ _ _ H).
  - intros H. apply ret_inv in H. exact H.
Qed.

Lemma componentwise_errors_inv (field_e_i field_i : Function) (self : Solver)
    r s' :
  componentwise_errors field_e_i field_i self = (Ok r, s') ->
  r = (err_list (map (fun ec => errornorm_L2 (Fn (fst ec)) (Fn (snd ec)))
                   (combine (split field_e_i) (split field_i))),
       err_list (map (fun ec =>
                   linf_vertex (vec_sub (compute_vertex_values (fst ec))
                                        (compute_vertex_values (snd ec))))
                   (combine (split field_e_i) (split field_i))))
  /\ s' = self.
Proof.
  intros H. unfold componentwise_errors in H.
  apply bind_inv in H. destruct H as (l2 & s1 & Hl2 & H).
  apply (by_component_inv _ (fun e c => errornorm_L2 (Fn e) (Fn c))) in Hl2;
    [|intros e c st x st' Hx; apply ret_inv in Hx; exact Hx].
  destruct Hl2 as [-> ->].
  apply bind_inv in H. destruct H as (linf & s2 & Hlinf & H).
  apply (by_component_inv _ (fun e c =>
           linf_vertex (vec_sub (compute_vertex_values e)
                                (compute_vertex_values c)))) in Hlinf;
    [|intros e c st x st' Hx; apply np_max_abs_inv in Hx; exact Hx].
  destruct Hlinf as [-> ->].
  apply ret_inv in H. destruct H as [-> ->]. split; reflexivity.
Qed.

Lemma calc_scalarfield_errors_inv sol_ sol_e_ v_sol name_ (self : Solver) r s' :
  calc_scalarfield_errors sol_ sol_e_ v_sol name_ self = (Ok r, s') ->
  exists f e V, sol_ = Some f /\ sol_e_ = Some e /\ v_sol = Some V
                /\ r = scalar_errors f e V /\ two_writes self s'.
Proof.
  intros H. unfold calc_scalarfield_errors in H.
  apply bind_inv in H. destruct H as (e & s1 & He & H).
  apply not_none_inv in He. destruct He as [-> ->].
  apply bind_inv in H. destruct H as (V & s1 & HV & H).
  apply not_none_inv in HV. destruct HV as [-> ->].
  apply bind_inv in H. destruct H as (f & s1 & Hf & H).
  apply not_none_inv in Hf. destruct Hf as [-> ->].
  apply bind_inv in H. destruct H as (w1 & s1 & Hw1 & H).
  rewrite write_xdmf_run in Hw1. injection Hw1 as _ <-.
  apply bind_inv in H. destruct H as (w2 & s2 & Hw2 & H).
  rewrite write_xdmf_run in Hw2. injection Hw2 as _ <-.
  apply ret_inv in H. destruct H as [-> ->].
  exists f, e, V. repeat split. eexists; eexists; reflexivity.
Qed.

Lemma calc_vectorfield_errors_inv sol_ sol_e_ v_sol name_ (self : Solver) r s' :
  calc_vectorfield_errors sol_ sol_e_ v_sol name_ self = (Ok r, s') ->
  exists f e V, sol_ = Some f /\ sol_e_ = Some e /\ v_sol = Some V
                /\ r = component_errors f e V /\ two_writes self s'.
Proof.
  intros H. unfold calc_vectorfield_errors in H.
  apply bind_inv in H. destruct H as (e & s1 & He & H).
  apply not_none_inv in He. destruct He as [-> ->].
  apply bind_inv in H. destruct H as (V & s1 & HV & H).
  apply not_none_inv in HV. destruct HV as [-> ->].
  apply bind_inv in H. destruct H as (f & s1 & Hf & H).
  apply not_none_inv in Hf. destruct Hf as [-> ->].
  apply bind_inv in H. destruct H as (w1 & s1 & Hw1 & H).
  rewrite write_xdmf_run in Hw1. injection Hw1 as _ <-.
  apply bind_inv in H. destruct H as (errs & s2 & Herrs & H).
  apply componentwise_errors_inv in Herrs. destruct Herrs as [-> ->].
  apply bind_inv in H. destruct H as (w2 & s2 & Hw2 & H).
  rewrite write_xdmf_run in Hw2. injection Hw2 as _ <-.
  apply ret_inv in H. destruct H as [-> ->].
  exists f, e, V. repeat split. eexists; eexists; reflexivity.
Qed.

Lemma calc_tensorfield_errors_inv sol_ sol_e_ v_sol name_ (self : Solver) r s' :
  calc_tensorfield_errors sol_ sol_e_ v_sol name_ self = (Ok r, s') ->
  exists f e V, sol_ = Some f /\ sol_e_ = Some e /\ v_sol = Some V
                /\ r = component_errors f e V /\ two_writes self s'.
Proof.
  intros H. unfold calc_tensorfield_errors in H.
  apply bind_inv in H. destruct H as (e & s1 & He & H).
  apply not_none_inv in He. destruct He as [-> ->].
  apply bind_inv in H. destruct H as (V & s1 & HV & H).
  apply not_none_inv in HV. destruct HV as [-> ->].
  apply bind_inv in H. destruct H as (f & s1 & Hf & H).
  apply not_none_inv in Hf. destruct Hf as [-> ->].
  apply bind_inv in H. destruct H as (w1 & s1 & Hw1 & H).
  rewrite write_xdmf_run in Hw1. injection Hw1 as _ <-.
  apply bind_inv in H. destruct H as (errs & s2 & Herrs & H).
  apply componentwise_errors_inv in Herrs. destruct Herrs as [-> ->].
  apply bind_inv in H. destruct H as (w2 & s2 & Hw2 & H).
  rewrite write_xdmf_run in Hw2. injection Hw2 as _ <-.
  apply ret_inv in H. destruct H as [-> ->].
  exists f, e, V. repeat split. eexists; eexists; reflexivity.
Qed.
End Errors.

Section ErrorsStored.
Context {D : Dolfin}.

Lemma calc_errors_heat_inv (self self' : Solver) :
  calc_errors_heat self = (Ok tt, self') ->
  errors_stored self self' "theta" scalar_errors
  /\ errors_stored self self' "s" component_errors.
Proof.
  intros H. unfold calc_errors_heat in H.
  do 4 mstep H. mstep H.
  apply calc_scalarfield_errors_inv in Hstep2.
  destruct Hstep2 as (f & e & V & -> & -> & -> & -> & (ev1 & ev2 & ->)).
  do 4 mstep H. ssimpl. mstep H.
  apply calc_vectorfield_errors_inv in Hstep5.
  destruct Hstep5 as (f' & e' & V' & -> & -> & -> & -> & (ev3 & ev4 & ->)).
  mstep H. apply modify_inv in H. subst self'. ssimpl.
  split.
  - exists f, e, V. repeat split; try assumption; ssimpl;
      rewrite sget_sset_neq, sget_sset_eq by discriminate; reflexivity.
  - exists f', e', V'. repeat split; try assumption; ssimpl; apply sget_sset_eq.
Qed.

Lemma calc_errors_stress_inv (self self' : Solver) :
  calc_errors_stress self = (Ok tt, self') ->
  errors_stored self self' "p" scalar_errors
  /\ errors_stored self self' "u" component_errors
  /\ errors_stored self self' "sigma" component_errors.
Proof.
  intros H. unfold calc_errors_stress in H.
  do 4 mstep H. mstep H.
  apply calc_scalarfield_errors_inv in Hstep2.
  destruct Hstep2 as (f & e & V & -> & -> & -> & -> & (ev1 & ev2 & ->)).
  do 4 mstep H. ssimpl. mstep H.
  apply calc_vectorfield_errors_inv in Hstep5.
  destruct Hstep5 as (f' & e' & V' & -> & -> & -> & -> & (ev3 & ev4 & ->)).
  do 4 mstep H. ssimpl. mstep H.
  apply calc_tensorfield_errors_inv in Hstep8.
  destruct Hstep8 as (f'' & e'' & V'' & -> & -> & -> & -> & (ev5 & ev6 & ->)).
  do 2 mstep H. apply modify_inv in H. subst self'. ssimpl.
  split; [|split].
  - exists f, e, V. repeat split; try assumption; ssimpl;
      rewrite !sget_sset_neq, sget_sset_eq by discriminate; reflexivity.
  - exists f', e', V'. repeat split; try assumption; ssimpl;
      rewrite sget_sset_neq, sget_sset_eq by discriminate; reflexivity.
  - exists f'', e'', V''. repeat split; try assumption; ssimpl; apply sget_sset_eq.
Qed.

(** What the two blocks leave: the errors of their fields stored, the other
    entries of [self.errors] and the solutions, exact solutions and spaces
    as they were. *)
Lemma calc_errors_heat_leaves (self self' : Solver) :
  calc_errors_heat self = (Ok tt, self') ->
  sol self' = sol self /\ esol self' = esol self /\ fspaces self' = fspaces self
  /\ (forall k, k <> "theta" -> k <> "s" ->
        sget (errors_f_l2 self') k = sget (errors_f_l2 self) k
        /\ sget (errors_v_linf self') k = sget (errors_v_linf self) k).
Proof.
  intros H. unfold calc_errors_heat in H.
  do 4 mstep H. mstep H.
  apply calc_scalarfield_errors_inv in Hstep2.
  destruct Hstep2 as (f & e & V & -> & -> & -> & -> & (ev1 & ev2 & ->)).
  do 4 mstep H. ssimpl. mstep H.
  apply calc_vectorfield_errors_inv in Hstep5.
  destruct Hstep5 as (f' & e' & V' & -> & -> & -> & -> & (ev3 & ev4 & ->)).
  mstep H. apply modify_inv in H. subst self'. ssimpl.
  repeat split; try reflexivity; rewrite !sget_sset_neq by congruence;
    reflexivity.
Qed.

Lemma calc_errors_stress_leaves (self self' : Solver) :
  calc_errors_stress self = (Ok tt, self') ->
  sol self' = sol self /\ esol self' = esol self /\ fspaces self' = fspaces self
  /\ (forall k, k <> "p" -> k <> "u" -> k <> "sigma" ->
        sget (errors_f_l2 self') k = sget (errors_f_l2 self) k
        /\ sget (errors_v_linf self') k = sget (errors_v_linf self) k).
Proof.
  intros H. unfold calc_errors_stress in H.
  do 4 mstep H. mstep H.
  apply calc_scalarfield_errors_inv in Hstep2.
  destruct Hstep2 as (f & e & V & -> & -> & -> & -> & (ev1 & ev2 & ->)).
  do 4 mstep H. ssimpl. mstep H.
  apply calc_vectorfield_errors_inv in Hstep5.
  destruct Hstep5 as (f' & e' & V' & -> & -> & -> & -> & (ev3 & ev4 & ->)).
  do 4 mstep H. ssimpl. mstep H.
  apply calc_tensorfield_errors_inv in Hstep8.
  destruct Hstep8 as (f'' & e'' & V'' & -> & -> & -> & -> & (ev5 & ev6 & ->)).
  do 2 mstep H. apply modify_inv in H. subst self'. ssimpl.
  repeat split; try reflexivity; rewrite !sget_sset_neq by congruence;
    reflexivity.
Qed.

(** Errors stored by one block are stored by the two in a row. *)
Lemma errors_stored_then (self s1 self' : Solver) field expected :
  errors_stored self s1 field expected ->
  sget (errors_f_l2 self') field = sget (errors_f_l2 s1) field ->
  sget (errors_v_linf self') field = sget (errors_v_linf s1) field ->
  errors_stored self self' field expected.
Proof.
  intros (f & e & V & Hf & He & HV & H2 & Hinf) E2 Einf.
  exists f, e, V. rewrite E2, Einf. repeat split; assumption.
Qed.

Lemma errors_stored_after (self s1 self' : Solver) field expected :
  errors_stored s1 self' field expected ->
  sol s1 = sol self -> esol s1 = esol self -> fspaces s1 = fspaces self ->
  errors_stored self self' field expected.
Proof.
  intros (f & e & V & Hf & He & HV & H2 & Hinf) Esol Eesol Efs.
  exists f, e, V. rewrite <- Esol, <- Eesol, <- Efs. repeat split; assumption.
Qed.

(** C4, amended.  A run of [calc_errors] that returns stores, for each
    field of the mode (theta and s in mode "heat"; p, u and sigma in mode
    "stress"; all five in mode "coupled" of [src/src/solver.py]), under the
    field's name in [self.errors["f"]["l2"]] and [self.errors["v"]["linf"]],
    the pair its helper returns: for a scalar field the L2 norm of the
    difference of exact and discrete solution and the largest absolute
    difference of the coefficients of their interpolants; for a vector or
    tensor field the lists, by component of the two interpolants, of the L2
    norms of the differences of these components and of the largest
    absolute differences of their vertex values. *)
Theorem calc_errors_stores_field_errors (rv : revision) (self self' : Solver) :
  calc_errors_of rv self = (Ok tt, self') ->
  (mode self = "heat" ->
     errors_stored self self' "theta" scalar_errors
     /\ errors_stored self self' "s" component_errors)
  /\ (mode self = "stress" ->
        errors_stored self self' "p" scalar_errors
        /\ errors_stored self self' "u" component_errors
        /\ errors_stored self self' "sigma" component_errors)
  /\ (rv = src -> mode self = "coupled" ->
        errors_stored self self' "theta" scalar_errors
        /\ errors_stored self self' "s" component_errors
        /\ errors_stored self self' "p" scalar_errors
        /\ errors_stored self self' "u" component_errors
        /\ errors_stored self self' "sigma" component_errors)
  /\ (forall sol_ sol_e_ v_sol name_ r s',
         calc_scalarfield_errors (Some sol_) (Some sol_e_) (Some v_sol) name_ self
         = (Ok r, s') -> r = scalar_errors sol_ sol_e_ v_sol)
  /\ (forall sol_ sol_e_ v_sol name_ r s',
         calc_vectorfield_errors (Some sol_) (Some sol_e_) (Some v_sol) name_ self
         = (Ok r, s') -> r = component_errors sol_ sol_e_ v_sol)
  /\ (forall sol_ sol_e_ v_sol name_ r s',
         calc_tensorfield_errors (Some sol_) (Some sol_e_) (Some v_sol) name_ self
         = (Ok r, s') -> r = component_errors sol_ sol_e_ v_sol).
Proof.
  intros H. split; [|split; [|split; [|split; [|split]]]].
  - intros Hmode. apply calc_errors_heat_inv.
    destruct rv; cbn [calc_errors_of] in H;
      unfold R13.calc_errors, Src.calc_errors in H;
      mstep H; rewrite Hmode in H;
      change ("heat" =? "heat") with true in H;
      change ("heat" =? "stress") with false in H;
      change ("heat" =? "coupled") with false in H;
      cbn [orb] in H; cbv iota in H;
      mstep H; apply ret_inv in H; destruct H as [_ ->];
      match goal with Hr : _ = (Ok ?a, _) |- _ => destruct a; exact Hr end.
  - intros Hmode. apply calc_errors_stress_inv.
    destruct rv; cbn [calc_errors_of] in H;
      unfold R13.calc_errors, Src.calc_errors in H;
      mstep H; rewrite Hmode in H;
      change ("stress" =? "heat") with false in H;
      change ("stress" =? "stress") with true in H;
      change ("stress" =? "coupled") with false in H;
      cbn [orb] in H; cbv iota in H;
      mstep H; exact H.
  - intros -> Hmode. cbn [calc_errors_of] in H. unfold Src.calc_errors in H.
    mstep H. rewrite Hmode in H.
    change ("coupled" =? "heat") with false in H.
    change ("coupled" =? "stress") with false in H.
    change ("coupled" =? "coupled") with true in H.
    cbn [orb] in H. cbv iota in H.
    apply bind_inv in H. destruct H as ([] & s1 & Hheat & Hstress).
    destruct (calc_errors_heat_inv _ _ Hheat) as [Htheta Hs].
    destruct (calc_errors_heat_leaves _ _ Hheat) as (Esol & Eesol & Efs & _).
    destruct (calc_errors_stress_inv _ _ Hstress) as (Hp & Hu & Hsigma).
    destruct (calc_errors_stress_leaves _ _ Hstress) as (_ & _ & _ & Hkeep).
    split; [|split; [|split; [|split]]].
    + apply (errors_stored_then _ _ _ _ _ Htheta);
        apply (Hkeep "theta"); discriminate.
    + apply (errors_stored_then _ _ _ _ _ Hs);
        apply (Hkeep "s"); discriminate.
    + apply (errors_stored_after _ _ _ _ _ Hp); assumption.
    + apply (errors_stored_after _ _ _ _ _ Hu); assumption.
    + apply (errors_stored_after _ _ _ _ _ Hsigma); assumption.
  - intros sol_ sol_e_ v_sol name_ r s' Hr.
    apply calc_scalarfield_errors_inv in Hr.
    destruct Hr as (f & e & V & Hf & He & HV & -> & _).
    injection Hf as <-. injection He as <-. injection HV as <-. reflexivity.
  - intros sol_ sol_e_ v_sol name_ r s' Hr.
    apply calc_vectorfield_errors_inv in Hr.
    destruct Hr as (f & e & V & Hf & He & HV & -> & _).
    injection Hf as <-. injection He as <-. injection HV as <-. reflexivity.
  - intros sol_ sol_e_ v_sol name_ r s' Hr.
    apply calc_tensorfield_errors_inv in Hr.
    destruct Hr as (f & e & V & Hf & He & HV & -> & _).
    injection Hf as <-. injection He as <-. injection HV as <-. reflexivity.
Qed.
End ErrorsStored.

(** The heat case in one revision and the stress case in the other, with
    the exact solutions loaded. *)
Lemma calc_errors_stores_field_errors_witness :
  (fst (calc_errors_of (D := Demo.dolfin) fenicsR13
          (Demo.solver_solved fenicsR13 "heat")) = Ok tt
   /\ errors_stored (Demo.solver_solved fenicsR13 "heat")
        (snd (calc_errors_of (D := Demo.dolfin) fenicsR13
                (Demo.solver_solved fenicsR13 "heat")))
        "theta" (scalar_errors (D := Demo.dolfin)))
  /\ (fst (calc_errors_of (D := Demo.dolfin) src
             (Demo.solver_solved src "stress")) = Ok tt
      /\ errors_stored (Demo.solver_solved src "stress")
           (snd (calc_errors_of (D := Demo.dolfin) src
                   (Demo.solver_solved src "stress")))
           "sigma" (component_errors (D := Demo.dolfin))).
Proof.
  split; (split; [vm_compute; reflexivity|]).
  - destruct (calc_errors_stores_field_errors (D := Demo.dolfin) fenicsR13
                (Demo.solver_solved fenicsR13 "heat") _
                (returned (calc_errors_of (D := Demo.dolfin) fenicsR13)
                   (Demo.solver_solved fenicsR13 "heat") tt
                   ltac:(vm_compute; reflexivity)))
      as (Hheat & _).
    apply Hheat. reflexivity.
  - destruct (calc_errors_stores_field_errors (D := Demo.dolfin) src
                (Demo.solver_solved src "stress") _
                (returned (calc_errors_of (D := Demo.dolfin) src)
                   (Demo.solver_solved src "stress") tt
                   ltac:(vm_compute; reflexivity)))
      as (_ & Hstress & _).
    apply Hstress. reflexivity.
Defined.

(** C4 as stated fails for a vector field: when the discrete heat flux is
    the interpolant of the exact one, the L2 errors [calc_errors] stores
    for s are the distances of the components of one interpolant from
    themselves, all 0, and not the distances of the exact solution from the
    discrete one. *)
Lemma calc_errors_compares_interpolants :
  exists self',
    calc_errors_of (D := Demo.nodal) fenicsR13 Demo.solver_interpolating
    = (Ok tt, self')
    /\ sget (errors_f_l2 self') "s" = Some (Some (err_list [0; 0]))
    /\ errors_stored Demo.solver_interpolating self' "s"
         (component_errors (D := Demo.nodal))
    /\ ~ errors_stored Demo.solver_interpolating self' "s"
           (claimed_component_errors (D := Demo.nodal)).
Proof.
  eexists. split; [vm_compute; reflexivity|]. split; [reflexivity|]. split.
  - do 3 eexists. repeat split; reflexivity.
  - intros (f & e & V & Hf & He & HV & H2 & _).
    vm_compute in Hf. injection Hf as <-.
    vm_compute in He. injection He as <-.
    vm_compute in HV. injection HV as <-.
    vm_compute in H2. discriminate H2.
Qed.

(** ** Runs of [assemble] *)

Section KeepsConfig.
Context {D : Dolfin}.

Lemma keeps_bind {A B} (c : M Solver A) (k : A -> M Solver B) :
  keeps_config c -> (forall a, keeps_config (k a)) -> keeps_config (bind c k).
Proof.
  intros Hc Hk s. unfold bind. specialize (Hc s).
  destruct (c s) as [[a|e] s1]; cbn in *; [|exact Hc].
  rewrite (Hk a s1). exact Hc.
Qed.

Lemma keeps_stateless {A} (c : M Solver A) : stateless c -> keeps_config c.
Proof. intros [r Hr] s. rewrite Hr. reflexivity. Qed.

Lemma keeps_modify (f : Solver -> Solver) :
  (forall s, config (f s) = config s) -> keeps_config (modify f).
Proof. intros Hf s. apply Hf. Qed.

Lemma keeps_this : keeps_config this.
Proof. intros s. reflexivity. Qed.

Lemma keeps_for_each {A} (body : A -> M Solver unit) (l : list A) :
  (forall a, keeps_config (body a)) -> keeps_config (for_each body l).
Proof.
  intros Hb. induction l as [|a l IH]; cbn [for_each].
  - intros s. reflexivity.
  - apply keeps_bind; [apply Hb | intros _; exact IH].
Qed.

Lemma stateless_ret {S A} (x : A) : stateless (S := S) (ret x).
Proof. exists (Ok x). reflexivity. Qed.

Lemma stateless_raise {S A} (e : exn) : stateless (S := S) (A := A) (raise e).
Proof. exists (Raise e). reflexivity. Qed.

Lemma stateless_lift {S A} (r : result A) : stateless (S := S) (lift r).
Proof. exists r. reflexivity. Qed.

Lemma stateless_require {S A} (e : exn) (o : option A) :
  stateless (S := S) (require e o).
Proof. destruct o; [apply stateless_ret | apply stateless_raise]. Qed.

Lemma stateless_bind {S A B} (c : M S A) (k : A -> M S B) :
  stateless c -> (forall a, stateless (k a)) -> stateless (bind c k).
Proof.
  intros [r Hr] Hk. destruct r as [a|e].
  - destruct (Hk a) as [r' Hr']. exists r'. intros s. unfold bind.
    rewrite Hr. apply Hr'.
  - exists (Raise e). intros s. unfold bind. rewrite Hr. reflexivity.
Qed.

Lemma stateless_comprehension {S A B} (f : A -> M S B) (l : list A) :
  (forall a, stateless (f a)) -> stateless (comprehension f l).
Proof.
  intros Hf. induction l as [|a l IH]; cbn [comprehension].
  - apply stateless_ret.
  - apply stateless_bind; [apply Hf|]. intros y.
    apply stateless_bind; [exact IH|]. intros ys. apply stateless_ret.
Qed.

Lemma stateless_all_elements {S} (l : list (option element)) :
  stateless (S := S) (all_elements l).
Proof.
  induction l as [|o l IH]; cbn [all_elements].
  - apply stateless_ret.
  - apply stateless_bind; [apply stateless_require|]. intros e.
    apply stateless_bind; [exact IH|]. intros es. apply stateless_ret.
Qed.

Lemma stateless_df_FiniteElement {S} family cell degree :
  stateless (S := S) (df_FiniteElement family cell degree).
Proof.
  unfold df_FiniteElement. destruct (ufl_family family cell degree);
    [apply stateless_ret | apply stateless_raise].
Qed.

Lemma stateless_df_VectorElement {S} family cell degree :
  stateless (S := S) (df_VectorElement family cell degree).
Proof.
  unfold df_VectorElement.
  apply stateless_bind; [apply stateless_df_FiniteElement|].
  intros sub. apply stateless_ret.
Qed.

Lemma stateless_df_TensorElement {S} family cell degree symmetry :
  stateless (S := S) (df_TensorElement family cell degree symmetry).
Proof.
  unfold df_TensorElement.
  apply stateless_bind; [apply stateless_df_FiniteElement|].
  intros sub. apply stateless_ret.
Qed.

Lemma stateless_tangent_of_normal msh : stateless (tangent_of_normal msh).
Proof.
  unfold tangent_of_normal.
  destruct (Nat.eqb (geometric_dimension (ufl_cell msh)) 2);
    [apply stateless_ret | apply stateless_raise].
Qed.

Lemma stateless_bc_value {S} bcs bc key : stateless (S := S) (bc_value bcs bc key).
Proof.
  unfold bc_value. apply stateless_bind; [apply stateless_require|].
  intros entry. apply stateless_require.
Qed.

(** A stateless computation that returned leaves the state and has one
    result. *)
Lemma stateless_inv {S A} (c : M S A) (s : S) a s' :
  stateless c -> c s = (Ok a, s') -> s' = s /\ forall s0, c s0 = (Ok a, s0).
Proof.
  intros [r Hr] H. rewrite Hr in H. injection H as -> <-.
  split; [reflexivity | exact Hr].
Qed.

(** Proves [keeps_config] of a method by its structure. *)
Ltac keeps :=
  lazymatch goal with
  | |- keeps_config (bind _ _) => apply keeps_bind; [keeps | intros; keeps]
  | |- keeps_config this => apply keeps_this
  | |- keeps_config (modify _) => apply keeps_modify; intros; reflexivity
  | |- keeps_config (for_each _ _) => apply keeps_for_each; intros; keeps
  | |- keeps_config (match ?x with _ => _ end) => destruct x; keeps
  | |- keeps_config _ =>
      apply keeps_stateless;
      first [ apply stateless_ret | apply stateless_raise | apply stateless_lift
            | apply stateless_require | apply stateless_all_elements
            | apply stateless_df_FiniteElement
            | apply stateless_df_VectorElement
            | apply stateless_df_TensorElement
            | apply stateless_tangent_of_normal ]
  end.

Lemma setup_function_spaces_keeps_config (rv : revision) :
  keeps_config (setup_function_spaces_of rv).
Proof.
  destruct rv; cbn [setup_function_spaces_of];
    unfold R13.setup_function_spaces, Src.setup_function_spaces,
      setup_elems_loop; keeps.
Qed.
End KeepsConfig.

Section Forms.

Lemma integral_eq_refl (i : integral) : integral_eq i i.
Proof. split; [reflexivity | intros x; reflexivity]. Qed.

Lemma form_eq_refl (a : pyform) : form_eq a a.
Proof.
  destruct a as [|f]; cbn; [exact I|].
  induction f as [|i f IH]; constructor; [apply integral_eq_refl | exact IH].
Qed.

Lemma form_eq_add (a a' b b' : pyform) :
  form_eq a a' -> form_eq b b' -> form_eq (a +@ b) (a' +@ b').
Proof.
  destruct a, a', b, b'; cbn; try tauto.
  intros Ha Hb. apply Forall2_app; assumption.
Qed.

Lemma form_eq_times (f g : point -> Q) (m : measure) :
  (forall x, f x == g x) -> form_eq (times f m) (times g m).
Proof.
  intros H. cbn. constructor; [|constructor]. split; [reflexivity | exact H].
Qed.

Lemma dS_part_add (a b : pyform) :
  dS_part (a +@ b) = (dS_part a ++ dS_part b)%list.
Proof.
  unfold dS_part. destruct a, b; cbn [form_add integrals]; cbn [filter app].
  - reflexivity.
  - reflexivity.
  - rewrite app_nil_r. reflexivity.
  - apply filter_app.
Qed.

Lemma dS_part_form_sum_boundary (l : list pyform) :
  Forall (fun a => dS_part a = []) l -> forall acc,
  dS_part acc = [] -> dS_part (fold_left form_add l acc) = [].
Proof.
  induction 1 as [|a l Ha Hl IH]; intros acc Hacc; cbn [fold_left].
  - exact Hacc.
  - apply IH. rewrite dS_part_add, Hacc, Ha. reflexivity.
Qed.

End Forms.

Section Builders.
Context {D : Dolfin} (to : tensoroperations).

Lemma pydiv_inv (a b q : Q) : pydiv a b = Ok q -> q = a / b /\ ~ b == 0.
Proof.
  unfold pydiv. destruct (Qeq_bool b 0) eqn:E; [discriminate|].
  intros H. injection H as <-. split; [reflexivity|].
  intros Hb. apply Qeq_bool_iff in Hb. congruence.
Qed.

Lemma check_bcs_inv (self : Solver) a s' :
  check_bcs self = (Ok a, s') -> s' = self.
Proof. intros H. rewrite check_bcs_run in H. injection H as _ <-. reflexivity. Qed.

(** The boundary terms of the linear forms: the same list whatever the
    state they are built in. *)
Lemma boundary_terms_stateless (bcs : list (Z * list (string * Q))) (key : string)
    (g : Z -> Q -> pyform) (keys : list Z) :
  stateless (S := Solver)
    (comprehension (fun bc => v <- bc_value bcs bc key ;; ret (g bc v)) keys).
Proof.
  apply stateless_comprehension. intros bc.
  apply stateless_bind; [apply stateless_bc_value|]. intros v. apply stateless_ret.
Qed.

Lemma boundary_terms_agree (bcs : list (Z * list (string * Q))) (key : string)
    (g : Z -> Q -> pyform) (keys : list Z) (s1 s2 s1' s2' : Solver) l l' :
  comprehension (fun bc => v <- bc_value bcs bc key ;; ret (g bc v)) keys s1
  = (Ok l, s1') ->
  comprehension (fun bc => v <- bc_value bcs bc key ;; ret (g bc v)) keys s2
  = (Ok l', s2') ->
  l = l' /\ s1' = s1 /\ s2' = s2.
Proof.
  intros H1 H2.
  destruct (stateless_inv _ _ _ _ (boundary_terms_stateless bcs key g keys) H1)
    as [-> Hall].
  rewrite Hall in H2. injection H2 as <- <-. repeat split.
Qed.

(** The heat system: the forms of the two revisions. *)
Lemma heat_forms_agree (self s1 s1' s2 s2' : Solver) a1 a2 l1 l2 a1' l1' a2' l2' :
  agrees_with_nested to ->
  R13.heat_forms self s1 = (Ok (a1, a2, l1, l2), s1') ->
  (if use_coeffs self
   then exists stress,
          Src.forms_with_coeffs to self s2 = (Ok ((a1', l1', a2', l2'), stress), s2')
   else Src.forms_without_coeffs to self s2 = (Ok (a1', l1', a2', l2'), s2')) ->
  form_eq a1 a1' /\ form_eq a2 a2' /\ l1 = l1' /\ l2 = l2'.
Proof.
  intros (Hdev & _ & _) H1 H2. unfold R13.heat_forms in H1.
  destruct (use_coeffs self).
  - destruct H2 as [stress H2]. unfold Src.forms_with_coeffs in H2.
    do 2 mstep H1. mstep H1. apply ret_inv in H1. destruct H1 as [H1 ->].
    injection H1 as -> -> -> ->.
    do 2 mstep H2. mstep H2. do 2 mstep H2. mstep H2.
    apply ret_inv in H2. destruct H2 as [H2 ->].
    injection H2 as -> -> -> -> ->.
    repeat match goal with
    | Ha : pydiv ?a ?b = Ok ?x, Hb : pydiv ?a ?b = Ok ?y |- _ =>
        rewrite Ha in Hb; injection Hb as <-
    end.
    match goal with
    | Ha : comprehension ?F ?ks _ = (Ok _, _),
      Hb : comprehension ?F ?ks _ = (Ok _, _) |- _ =>
        destruct (boundary_terms_agree _ _ _ _ _ _ _ _ _ _ Ha Hb) as (-> & _ & _)
    end.
    split; [|split; [|split]]; try reflexivity.
    + repeat constructor; intros x; cbn [integrand]; rewrite Hdev; reflexivity.
    + apply form_eq_refl.
  - unfold Src.forms_without_coeffs in H2.
    do 2 mstep H1. mstep H1. apply ret_inv in H1. destruct H1 as [H1 ->].
    injection H1 as -> -> -> ->.
    do 2 mstep H2. mstep H2.
    apply ret_inv in H2. destruct H2 as [H2 ->].
    injection H2 as -> -> -> ->.
    repeat match goal with
    | Ha : pydiv ?a ?b = Ok ?x, Hb : pydiv ?a ?b = Ok ?y |- _ =>
        rewrite Ha in Hb; injection Hb as <-
    end.
    match goal with
    | Ha : comprehension ?F ?ks _ = (Ok _, _),
      Hb : comprehension ?F ?ks _ = (Ok _, _) |- _ =>
        destruct (boundary_terms_agree _ _ _ _ _ _ _ _ _ _ Ha Hb) as (-> & _ & _)
    end.
    split; [|split; [|split]]; try reflexivity.
    + repeat constructor; intros x; cbn [integrand]; rewrite Hdev; reflexivity.
    + apply form_eq_refl.
Qed.

(** The coefficient of the normal-normal boundary term of the stress system,
    as each revision writes it: the two agree when [xi_tilde] squares to 1. *)
Lemma normal_coefficients_agree (xi_tilde c_nn : Q) :
  pydiv 21 (10 * xi_tilde) = Ok c_nn ->
  xi_tilde * xi_tilde == 1 ->
  c_nn == 21 / 10 * xi_tilde.
Proof.
  intros Hc Hxi. apply pydiv_inv in Hc. destruct Hc as [-> Hne].
  assert (~ xi_tilde == 0) as Hx.
  { intros H0. apply Hne. rewrite H0. reflexivity. }
  transitivity (21 / (10 * xi_tilde) * (xi_tilde * xi_tilde)).
  - rewrite Hxi. ring.
  - field. exact Hx.
Qed.

(** The stress system: the forms of the two revisions. *)
Lemma stress_forms_agree (self s1 s1' s2 s2' : Solver)
    a1 l1 a2 l2 a3 l3 heat b3 m3 b4 m4 b5 m5 :
  agrees_with_nested to ->
  R13.stress_forms self s1 = (Ok (a1, l1, a2, l2, a3, l3), s1') ->
  Src.forms_with_coeffs to self s2 = (Ok (heat, (b3, m3, b4, m4, b5, m5)), s2') ->
  l1 = m3 /\ l2 = m4 /\ l3 = m5 /\ a2 = b4 /\ a3 = b5
  /\ (xi_tilde self * xi_tilde self == 1 -> form_eq a1 b3).
Proof.
  intros (_ & Hdevgrad & Htracefree) H1 H2.
  unfold R13.stress_forms in H1. unfold Src.forms_with_coeffs in H2.
  do 3 mstep H1. mstep H1. apply ret_inv in H1. destruct H1 as [H1 ->].
  injection H1 as -> -> -> -> -> ->.
  do 2 mstep H2. mstep H2. do 2 mstep H2. mstep H2.
  apply ret_inv in H2. destruct H2 as [H2 ->].
  injection H2 as -> -> -> -> -> -> ->.
  repeat match goal with
  | Ha : pydiv ?a ?b = Ok ?x, Hb : pydiv ?a ?b = Ok ?y |- _ =>
      rewrite Ha in Hb; injection Hb as <-
  end.
  match goal with
  | Ha : comprehension ?F ?ks _ = (Ok _, _),
    Hb : comprehension ?F ?ks _ = (Ok _, _) |- _ =>
      destruct (boundary_terms_agree _ _ _ _ _ _ _ _ _ _ Ha Hb) as (-> & _ & _)
  end.
  repeat (split; [reflexivity|]).
  intros Hxi.
  match goal with
  | Hc : pydiv 21 _ = Ok _ |- _ =>
      pose proof (normal_coefficients_agree _ _ Hc Hxi) as Hcoef
  end.
  repeat constructor; intros x; cbn [integrand].
  - rewrite Hdevgrad, Htracefree. reflexivity.
  - rewrite Hcoef. reflexivity.
Qed.

(** No form of the systems has an interior-facet integral. *)
Lemma heat_forms_no_dS (self s1 s1' : Solver) a1 a2 l1 l2 :
  R13.heat_forms self s1 = (Ok (a1, a2, l1, l2), s1') ->
  dS_part a1 = [] /\ dS_part a2 = [].
Proof.
  intros H1. unfold R13.heat_forms in H1.
  destruct (use_coeffs self);
    do 2 mstep H1; mstep H1; apply ret_inv in H1; destruct H1 as [H1 ->];
    injection H1 as -> -> -> ->; split; reflexivity.
Qed.

Lemma stress_forms_no_dS (self s1 s1' : Solver) a1 l1 a2 l2 a3 l3 :
  R13.stress_forms self s1 = (Ok (a1, l1, a2, l2, a3, l3), s1') ->
  dS_part a1 = [] /\ dS_part a2 = [] /\ dS_part a3 = [].
Proof.
  intros H1. unfold R13.stress_forms in H1.
  do 3 mstep H1. mstep H1. apply ret_inv in H1. destruct H1 as [H1 ->].
  injection H1 as -> -> -> -> -> ->. repeat split; reflexivity.
Qed.

Lemma forms_with_coeffs_no_dS (self s2 s2' : Solver)
    a1 l1 a2 l2 a3 l3 a4 l4 a5 l5 :
  Src.forms_with_coeffs to self s2
  = (Ok ((a1, l1, a2, l2), (a3, l3, a4, l4, a5, l5)), s2') ->
  dS_part a1 = [] /\ dS_part a2 = [] /\ dS_part a3 = []
  /\ dS_part a4 = [] /\ dS_part a5 = [].
Proof.
  intros H2. unfold Src.forms_with_coeffs in H2.
  do 2 mstep H2. mstep H2. do 2 mstep H2. mstep H2.
  apply ret_inv in H2. destruct H2 as [H2 ->].
  injection H2 as -> -> -> -> -> -> -> -> -> ->. repeat split; reflexivity.
Qed.

Lemma forms_without_coeffs_no_dS (self s2 s2' : Solver) a1 l1 a2 l2 :
  Src.forms_without_coeffs to self s2 = (Ok (a1, l1, a2, l2), s2') ->
  dS_part a1 = [] /\ dS_part a2 = [].
Proof.
  intros H2. unfold Src.forms_without_coeffs in H2.
  do 2 mstep H2. mstep H2. apply ret_inv in H2. destruct H2 as [H2 ->].
  injection H2 as -> -> -> ->. split; reflexivity.
Qed.
End Builders.

Section AssembleRuns.
Context {D : Dolfin} (to : tensoroperations).

(** Proves that a computation reads and changes nothing of the solver, by
    its structure. *)
Ltac stateless_tac :=
  cbv zeta;
  lazymatch goal with
  | |- stateless (bind _ _) =>
      apply stateless_bind; [stateless_tac | intros; stateless_tac]
  | |- stateless (comprehension _ _) =>
      apply stateless_comprehension; intros; stateless_tac
  | |- stateless (match ?x with _ => _ end) => destruct x; stateless_tac
  | |- _ =>
      first [ apply stateless_ret | apply stateless_raise | apply stateless_lift
            | apply stateless_require | apply stateless_bc_value ]
  end.

Lemma heat_forms_stateless (self : Solver) : stateless (R13.heat_forms self).
Proof. unfold R13.heat_forms. stateless_tac. Qed.

Lemma stress_forms_stateless (self : Solver) : stateless (R13.stress_forms self).
Proof. unfold R13.stress_forms. stateless_tac. Qed.

Lemma forms_with_coeffs_stateless (self : Solver) :
  stateless (Src.forms_with_coeffs to self).
Proof. unfold Src.forms_with_coeffs. stateless_tac. Qed.

Lemma forms_without_coeffs_stateless (self : Solver) :
  stateless (Src.forms_without_coeffs to self).
Proof. unfold Src.forms_without_coeffs. stateless_tac. Qed.

(** The steps of [assemble] between the boundary check and the forms. *)
Lemma tangent_of_normal_inv msh (s : Solver) a s' :
  tangent_of_normal msh s = (Ok a, s') ->
  geometric_dimension (ufl_cell msh) = 2%nat /\ s' = s.
Proof.
  unfold tangent_of_normal.
  destruct (Nat.eqb_spec (geometric_dimension (ufl_cell msh)) 2) as [E|_].
  - intros H. apply ret_inv in H. destruct H as [_ ->]. split; [exact E|reflexivity].
  - intros H. destruct (raise_inv _ _ _ _ H).
Qed.

Lemma tangent_of_normal_run (self : Solver) (s : Solver) :
  planar_mesh self -> tangent_of_normal (mesh self) s = (Ok tt, s).
Proof. unfold planar_mesh, tangent_of_normal. intros ->. reflexivity. Qed.

Lemma define_measures_run (self : Solver) :
  define_measures (mesh self) (boundaries self) self
  = (Ok tt, measures_defined self).
Proof. reflexivity. Qed.

Lemma measures_prefix {A} (rest : M Solver A) (self self' : Solver) r :
  (tangent_of_normal (mesh self) ;;;
   define_measures (mesh self) (boundaries self) ;;; rest) self = (Ok r, self') ->
  planar_mesh self /\ rest (measures_defined self) = (Ok r, self').
Proof.
  intros H. apply bind_inv in H. destruct H as (u1 & s1 & Ht & H).
  apply tangent_of_normal_inv in Ht. destruct Ht as [Hdim ->].
  apply bind_inv in H. destruct H as (u2 & s2 & Hm & H).
  rewrite define_measures_run in Hm. injection Hm as _ <-.
  split; [exact Hdim | exact H].
Qed.

Lemma measures_prefix_run {A} (rest : M Solver A) (self : Solver) :
  planar_mesh self ->
  (tangent_of_normal (mesh self) ;;;
   define_measures (mesh self) (boundaries self) ;;; rest) self
  = rest (measures_defined self).
Proof.
  intros Hdim. unfold bind at 1. rewrite (tangent_of_normal_run self self Hdim).
  unfold bind at 1. rewrite define_measures_run. reflexivity.
Qed.

(** A run of [assemble] of the revision [fenicsR13] that returns. *)
Lemma R13_assemble_inv (self self' : Solver) :
  R13.assemble self = (Ok tt, self') ->
  (mode self = "heat" ->
     exists a1 a2 l1 l2,
       R13.heat_forms self self = (Ok (a1, a2, l1, l2), self)
       /\ self' = set_form_b (Some (l1 +@ l2))
                    (set_form_a (Some (a1 +@ a2 +@ stab_of self))
                       (measures_defined self)))
  /\ (mode self = "stress" ->
        exists a1 l1 a2 l2 a3 l3,
          R13.stress_forms self self = (Ok (a1, l1, a2, l2, a3, l3), self)
          /\ self' = set_form_b (Some (l1 +@ l2 +@ l3))
                       (set_form_a (Some (a1 +@ a2 +@ a3 +@ stab_of self))
                          (measures_defined self))).
Proof.
  intros H. unfold R13.assemble in H.
  apply bind_inv in H. destruct H as (u0 & s1 & Hc & H).
  apply check_bcs_inv in Hc. subst s1. mstep H.
  apply measures_prefix in H. destruct H as [_ H].
  split; intros Hmode; unfold stab_of; rewrite Hmode in *.
  - change ("heat" =? "heat") with true in *. cbv iota in H.
    do 2 mstep H. mstep H.
    destruct (stateless_inv _ _ _ _ (heat_forms_stateless self) Hstep0)
      as [-> Hrun].
    destruct a as [[[a1 a2] l1] l2]. exists a1, a2, l1, l2.
    split; [apply Hrun|].
    mstep H. apply modify_inv in H. exact H.
  - change ("stress" =? "heat") with false in *.
    change ("stress" =? "stress") with true in *. cbv iota in H.
    do 2 mstep H. mstep H. destruct (use_coeffs self).
    + mstep Hstep0. apply ret_inv in Hstep0. destruct Hstep0 as [-> ->].
      destruct (stateless_inv _ _ _ _ (stress_forms_stateless self) Hstep1)
        as [-> Hrun].
      destruct a1 as [[[[[a1 l1] a2] l2] a3] l3]. exists a1, l1, a2, l2, a3, l3.
      split; [apply Hrun|].
      mstep H. apply modify_inv in H. exact H.
    + apply ret_inv in Hstep0. destruct Hstep0 as [-> ->].
      destruct (raise_inv _ _ _ _ H).
Qed.

(** A run of [assemble] of the revision [src] that returns. *)
Lemma Src_assemble_inv (self self' : Solver) :
  Src.assemble to self = (Ok tt, self') ->
  (mode self = "heat" ->
     exists a1 l1 a2 l2,
       (if use_coeffs self
        then exists stress,
               Src.forms_with_coeffs to self self
               = (Ok ((a1, l1, a2, l2), stress), self)
        else Src.forms_without_coeffs to self self = (Ok (a1, l1, a2, l2), self))
       /\ self' = set_form_b (Some (l1 +@ l2))
                    (set_form_a (Some (a1 +@ a2 +@ stab_of self))
                       (measures_defined self)))
  /\ (mode self = "stress" ->
        exists heat a3 l3 a4 l4 a5 l5,
          Src.forms_with_coeffs to self self
          = (Ok (heat, (a3, l3, a4, l4, a5, l5)), self)
          /\ self' = set_form_b (Some (l3 +@ l4 +@ l5))
                       (set_form_a (Some (a3 +@ a4 +@ a5 +@ stab_of self))
                          (measures_defined self))).
Proof.
  intros H. unfold Src.assemble in H.
  apply bind_inv in H. destruct H as (u0 & s1 & Hc & H).
  apply check_bcs_inv in Hc. subst s1. mstep H.
  apply measures_prefix in H. destruct H as [_ H]. do 3 mstep H.
  split; intros Hmode; unfold stab_of; rewrite Hmode in *.
  - change ("heat" =? "heat") with true in *.
    change ("heat" =? "coupled") with false in *. cbv iota in H.
    apply bind_inv in H. destruct H as (u1 & s1 & Hw & H).
    do 2 mstep Hw. apply ret_inv in Hw. destruct Hw as [_ ->].
    apply bind_inv in H. destruct H as (forms & s2 & Hforms & H).
    destruct (use_coeffs self).
    + apply bind_inv in Hforms. destruct Hforms as (x & sx & Hx & Hret).
      apply ret_inv in Hret. destruct Hret as [-> ->].
      destruct (stateless_inv _ _ _ _ (forms_with_coeffs_stateless self) Hx)
        as [-> Hrun].
      destruct x as [[[[fa1 fl1] fa2] fl2] stress]. cbn [fst snd] in H.
      exists fa1, fl1, fa2, fl2. split; [exists stress; apply Hrun|].
      mstep H. apply modify_inv in H. exact H.
    + apply bind_inv in Hforms. destruct Hforms as (x & sx & Hx & Hret).
      apply ret_inv in Hret. destruct Hret as [-> ->].
      destruct (stateless_inv _ _ _ _ (forms_without_coeffs_stateless self) Hx)
        as [-> Hrun].
      destruct x as [[[fa1 fl1] fa2] fl2]. cbn [fst snd] in H.
      exists fa1, fl1, fa2, fl2. split; [apply Hrun|].
      mstep H. apply modify_inv in H. exact H.
  - change ("stress" =? "heat") with false in *.
    change ("stress" =? "stress") with true in *.
    change ("stress" =? "coupled") with false in *. cbv iota in H.
    apply bind_inv in H. destruct H as (u1 & s1 & Hw & H).
    do 2 mstep Hw. apply ret_inv in Hw. destruct Hw as [_ ->].
    apply bind_inv in H. destruct H as (forms & s2 & Hforms & H).
    destruct (use_coeffs self).
    + apply bind_inv in Hforms. destruct Hforms as (x & sx & Hx & Hret).
      apply ret_inv in Hret. destruct Hret as [-> ->].
      destruct (stateless_inv _ _ _ _ (forms_with_coeffs_stateless self) Hx)
        as [-> Hrun].
      destruct x as [[[[fa1 fl1] fa2] fl2] [[[[[fa3 fl3] fa4] fl4] fa5] fl5]].
      cbn [fst snd] in H.
      exists (fa1, fl1, fa2, fl2), fa3, fl3, fa4, fl4, fa5, fl5.
      split; [apply Hrun|].
      mstep H. apply modify_inv in H. exact H.
    + apply bind_inv in Hforms. destruct Hforms as (x & sx & Hx & Hret).
      apply ret_inv in Hret. destruct Hret as [-> ->].
      destruct x as [[[fa1 fl1] fa2] fl2]. cbn [fst snd] in H.
      destruct (raise_inv _ _ _ _ H).
Qed.
End AssembleRuns.

(** ** Stabilization and the two revisions *)

Section Stabilization.
Context {D : Dolfin} (to : tensoroperations).

(** A run of [assemble] in mode "heat" or "stress" sets [form_a] to forms
    without interior-facet integrals plus the stabilization term. *)
Lemma assemble_form_a (rv : revision) (self self' : Solver) :
  mode self = "heat" \/ mode self = "stress" ->
  assemble_of to rv self = (Ok tt, self') ->
  exists rest,
    form_a self' = Some (rest +@ stab_of self) /\ dS_part rest = [].
Proof.
  intros Hmode H. destruct rv; cbn [assemble_of] in H.
  - apply R13_assemble_inv in H. destruct H as [Hheat Hstress].
    destruct Hmode as [Hmode|Hmode].
    + destruct (Hheat Hmode) as (a1 & a2 & l1 & l2 & Hf & ->).
      destruct (heat_forms_no_dS _ _ _ _ _ _ _ Hf) as [H1 H2].
      exists (a1 +@ a2). split; [reflexivity|].
      rewrite dS_part_add, H1, H2. reflexivity.
    + destruct (Hstress Hmode) as (a1 & l1 & a2 & l2 & a3 & l3 & Hf & ->).
      destruct (stress_forms_no_dS _ _ _ _ _ _ _ _ _ Hf) as (H1 & H2 & H3).
      exists (a1 +@ a2 +@ a3). split; [reflexivity|].
      rewrite !dS_part_add, H1, H2, H3. reflexivity.
  - apply Src_assemble_inv in H. destruct H as [Hheat Hstress].
    destruct Hmode as [Hmode|Hmode].
    + destruct (Hheat Hmode) as (a1 & l1 & a2 & l2 & Hf & ->).
      exists (a1 +@ a2). split; [reflexivity|].
      destruct (use_coeffs self).
      * destruct Hf as [[[[[[a3 l3] a4] l4] a5] l5] Hf].
        destruct (forms_with_coeffs_no_dS to _ _ _ _ _ _ _ _ _ _ _ _ _ Hf)
          as (H1 & H2 & _).
        rewrite dS_part_add, H1, H2. reflexivity.
      * destruct (forms_without_coeffs_no_dS to _ _ _ _ _ _ _ Hf) as [H1 H2].
        rewrite dS_part_add, H1, H2. reflexivity.
    + destruct (Hstress Hmode)
        as ([[[a1 l1] a2] l2] & a3 & l3 & a4 & l4 & a5 & l5 & Hf & ->).
      destruct (forms_with_coeffs_no_dS to _ _ _ _ _ _ _ _ _ _ _ _ _ Hf)
        as (_ & _ & H3 & H4 & H5).
      exists (a3 +@ a4 +@ a5). split; [reflexivity|].
      rewrite !dS_part_add, H3, H4, H5. reflexivity.
Qed.

(** C3.  After a run of [assemble] in mode "heat" or "stress", [form_a] is
    a form without interior-facet integrals plus the stabilization term.
    With [stabilization.cip.enable] true that term is one integral over the
    interior facets: in mode "heat" of [delta_1] times the mean cell
    diameter cubed times the jumps of the normal gradients of theta and of
    its test function (with a minus sign), in mode "stress" of [delta_2]
    times the mean cell diameter cubed times the product of the jumps of
    the normal gradients of u and of its test function, less [delta_3] times
    the mean cell diameter times the jumps of the normal gradients of p and
    of its test function.  With it false the term is [0] and [form_a] has
    no interior-facet integral. *)
Theorem assemble_adds_cip_terms (rv : revision) (self self' : Solver) :
  mode self = "heat" \/ mode self = "stress" ->
  assemble_of to rv self = (Ok tt, self') ->
  (exists a rest,
      form_a self' = Some a
      /\ a = rest +@ stab_of self
      /\ dS_part rest = []
      /\ dS_part a = integrals (stab_of self))
  /\ (use_cip self = false -> stab_of self = PyZero)
  /\ (use_cip self = true -> mode self = "heat" ->
      exists i,
        stab_of self = PyForm [i] /\ measure_of i = df_dS
        /\ forall x,
             integrand i x
             = - (delta_1 self * facet_mean_diameter x ^ 3
                  * normal_jump (fun c => grad0 (trial_theta c)) x
                  * normal_jump (fun c => grad0 (test_kappa c)) x))
  /\ (use_cip self = true -> mode self = "stress" ->
      exists i,
        stab_of self = PyForm [i] /\ measure_of i = df_dS
        /\ forall x,
             integrand i x
             = delta_2 self * facet_mean_diameter x ^ 3
               * dot (normal_jump_of_matrix (fun c => grad1 (trial_u c)) x)
                     (normal_jump_of_matrix (fun c => grad1 (test_v c)) x)
               - delta_3 self * facet_mean_diameter x
                 * normal_jump (fun c => grad0 (trial_p c)) x
                 * normal_jump (fun c => grad0 (test_q c)) x).
Proof.
  intros Hmode H.
  destruct (assemble_form_a rv self self' Hmode H) as (rest & Ha & Hrest).
  split; [|split; [|split]].
  - exists (rest +@ stab_of self), rest. repeat split; try assumption.
    rewrite dS_part_add, Hrest. unfold stab_of.
    destruct (use_cip self); [|reflexivity].
    destruct (mode self =? "heat"); reflexivity.
  - intros Hcip. unfold stab_of. rewrite Hcip. reflexivity.
  - intros Hcip Hheat. unfold stab_of. rewrite Hcip, Hheat.
    eexists. split; [reflexivity|]. split; [reflexivity|]. intros x. reflexivity.
  - intros Hcip Hstress. unfold stab_of. rewrite Hcip, Hstress.
    eexists. split; [reflexivity|]. split; [reflexivity|]. intros x. reflexivity.
Qed.
End Stabilization.

(** C3 on the ring: with the stabilization enabled the assembled heat system
    of one revision and the stress system of the other have one
    interior-facet integral each, with the values [-1/2] and [12/25] at a
    facet with cell diameters [1/2] and unit jumps on either side; with it
    disabled the assembled form has none. *)
Lemma assemble_adds_cip_terms_witness :
  (exists a i, form_a (Demo.solver_assembled fenicsR13 "heat" true 2) = Some a
               /\ dS_part a = [i] /\ measure_of i = df_dS
               /\ integrand i Demo.at_here == - (1 # 2))
  /\ (exists a i, form_a (Demo.solver_assembled src "stress" true 2) = Some a
                  /\ dS_part a = [i] /\ measure_of i = df_dS
                  /\ integrand i Demo.at_here == 12 # 25)
  /\ (exists a, form_a (Demo.solver_assembled src "heat" false 2) = Some a
                /\ dS_part a = []).
Proof.
  pose proof (assemble_adds_cip_terms (D := Demo.dolfin)
                nested_tensoroperations fenicsR13
                (Demo.solver_with_spaces fenicsR13 "heat" true 2)
                (Demo.solver_assembled fenicsR13 "heat" true 2)
                (or_introl eq_refl)
                (returned (assemble_of (D := Demo.dolfin)
                             nested_tensoroperations fenicsR13)
                   (Demo.solver_with_spaces fenicsR13 "heat" true 2) tt
                   ltac:(vm_compute; reflexivity)))
    as ((a & rest & Ha & _ & _ & HdS) & _ & Hheat & _).
  pose proof (assemble_adds_cip_terms (D := Demo.dolfin)
                nested_tensoroperations src
                (Demo.solver_with_spaces src "stress" true 2)
                (Demo.solver_assembled src "stress" true 2)
                (or_intror eq_refl)
                (returned (assemble_of (D := Demo.dolfin)
                             nested_tensoroperations src)
                   (Demo.solver_with_spaces src "stress" true 2) tt
                   ltac:(vm_compute; reflexivity)))
    as ((a' & rest' & Ha' & _ & _ & HdS') & _ & _ & Hstress).
  pose proof (assemble_adds_cip_terms (D := Demo.dolfin)
                nested_tensoroperations src
                (Demo.solver_with_spaces src "heat" false 2)
                (Demo.solver_assembled src "heat" false 2)
                (or_introl eq_refl)
                (returned (assemble_of (D := Demo.dolfin)
                             nested_tensoroperations src)
                   (Demo.solver_with_spaces src "heat" false 2) tt
                   ltac:(vm_compute; reflexivity)))
    as ((a'' & rest'' & Ha'' & _ & _ & HdS'') & Hoff & _).
  split; [|split].
  - destruct (Hheat eq_refl eq_refl) as (i & Hi & Hm & Hx).
    exists a, i. rewrite HdS, Hi. repeat split; try assumption.
    rewrite Hx. vm_compute. reflexivity.
  - destruct (Hstress eq_refl eq_refl) as (i & Hi & Hm & Hx).
    exists a', i. rewrite HdS', Hi. repeat split; try assumption.
    rewrite Hx. vm_compute. reflexivity.
  - exists a''. rewrite HdS'', (Hoff eq_refl). split; [assumption|reflexivity].
Defined.

(** ** The two revisions of [assemble] *)

Section Refinement.
Context {D : Dolfin} (to : tensoroperations).

(** The forms are built from the attributes of [__init__] alone. *)
Lemma heat_forms_config (self self2 : Solver) :
  config self = config self2 -> R13.heat_forms self = R13.heat_forms self2.
Proof. intros H. unfold R13.heat_forms. rewrite H. reflexivity. Qed.

Lemma stress_forms_config (self self2 : Solver) :
  config self = config self2 -> R13.stress_forms self = R13.stress_forms self2.
Proof. intros H. unfold R13.stress_forms. rewrite H. reflexivity. Qed.

Lemma forms_with_coeffs_config (self self2 : Solver) :
  config self = config self2 ->
  Src.forms_with_coeffs to self = Src.forms_with_coeffs to self2.
Proof. intros H. unfold Src.forms_with_coeffs. rewrite H. reflexivity. Qed.

Lemma forms_without_coeffs_config (self self2 : Solver) :
  config self = config self2 ->
  Src.forms_without_coeffs to self = Src.forms_without_coeffs to self2.
Proof. intros H. unfold Src.forms_without_coeffs. rewrite H. reflexivity. Qed.

Lemma stab_of_config (self self2 : Solver) :
  config self = config self2 -> stab_of self = stab_of self2.
Proof. intros H. unfold stab_of. rewrite H. reflexivity. Qed.

Lemma setup_and_assemble_inv (rv : revision) (self self' : Solver) :
  setup_and_assemble to rv self = (Ok tt, self') ->
  exists mid, config mid = config self
              /\ assemble_of to rv mid = (Ok tt, self').
Proof.
  unfold setup_and_assemble. intros H.
  apply bind_inv in H. destruct H as (u & mid & Hsetup & Hasm).
  exists mid. split; [|assumption].
  pose proof (setup_function_spaces_keeps_config rv self) as Hk.
  rewrite Hsetup in Hk. exact Hk.
Qed.

Lemma form_eq_values (x : point) (a b : pyform) :
  form_eq a b -> Qlist_eqb (values_at x (Some a)) (values_at x (Some b)) = true.
Proof.
  destruct a as [|f], b as [|g]; cbn; try tauto. intros H.
  induction H as [|i j f g [_ Hij] _ IH]; [reflexivity|].
  cbn. rewrite IH, andb_true_r. apply Qeq_bool_iff, Hij.
Qed.

Lemma is_set_inv {A} (o : option A) : is_set o = true -> exists a, o = Some a.
Proof. destruct o as [a|]; [eauto | discriminate]. Qed.

Lemma nested_agrees : agrees_with_nested nested_tensoroperations.
Proof. repeat split; intros; reflexivity. Qed.

(** C1, amended.  Let the functions of the [tensoroperations] module be the
    ones nested in [assemble] of the other revision, and let
    [setup_function_spaces] followed by [assemble] return in both revisions
    from the same solver.  In mode "heat" the two revisions produce the same
    [form_a] and the same [form_b] (integral by integral, with pointwise
    equal integrands).  In mode "stress" they produce the same [form_b], and
    the same [form_a] if [xi_tilde * xi_tilde = 1]. *)
Theorem assemble_revisions_agree (self s1 s2 : Solver) :
  agrees_with_nested to ->
  mode self = "heat" \/ mode self = "stress" ->
  setup_and_assemble to fenicsR13 self = (Ok tt, s1) ->
  setup_and_assemble to src self = (Ok tt, s2) ->
  exists a1 b1 a2 b2,
    form_a s1 = Some a1 /\ form_b s1 = Some b1
    /\ form_a s2 = Some a2 /\ form_b s2 = Some b2
    /\ form_eq b1 b2
    /\ (mode self = "heat" \/ xi_tilde self * xi_tilde self == 1 ->
        form_eq a1 a2).
Proof.
  intros Hto Hmode H1 H2.
  apply setup_and_assemble_inv in H1. destruct H1 as (m1 & Hc1 & H1).
  apply setup_and_assemble_inv in H2. destruct H2 as (m2 & Hc2 & H2).
  cbn [assemble_of] in H1, H2.
  apply R13_assemble_inv in H1. apply Src_assemble_inv in H2.
  destruct H1 as [Hheat1 Hstress1]. destruct H2 as [Hheat2 Hstress2].
  assert (Hm1 : mode m1 = mode self) by (rewrite Hc1; reflexivity).
  assert (Hm2 : mode m2 = mode self) by (rewrite Hc2; reflexivity).
  rewrite Hm1 in Hheat1, Hstress1. rewrite Hm2 in Hheat2, Hstress2.
  rewrite (stab_of_config _ _ Hc1) in Hheat1, Hstress1.
  rewrite (stab_of_config _ _ Hc2) in Hheat2, Hstress2.
  rewrite (heat_forms_config _ _ Hc1) in Hheat1.
  rewrite (stress_forms_config _ _ Hc1) in Hstress1.
  rewrite (forms_with_coeffs_config _ _ Hc2) in Hheat2, Hstress2.
  rewrite (forms_without_coeffs_config _ _ Hc2) in Hheat2.
  assert (Hu : use_coeffs m2 = use_coeffs self) by (rewrite Hc2; reflexivity).
  rewrite Hu in Hheat2.
  destruct Hmode as [Hmode|Hmode].
  - destruct (Hheat1 Hmode) as (fa1 & fa2 & fl1 & fl2 & Hf1 & ->).
    destruct (Hheat2 Hmode) as (ga1 & gl1 & ga2 & gl2 & Hf2 & ->).
    destruct (heat_forms_agree to self _ _ _ _ _ _ _ _ _ _ _ _ Hto Hf1 Hf2)
      as (Ha1 & Ha2 & -> & ->).
    do 4 eexists. repeat (split; [reflexivity|]).
    split; [apply form_eq_refl|]. intros _.
    repeat apply form_eq_add; try assumption; apply form_eq_refl.
  - destruct (Hstress1 Hmode) as (fa1 & fl1 & fa2 & fl2 & fa3 & fl3 & Hf1 & ->).
    destruct (Hstress2 Hmode)
      as (heat & ga3 & gl3 & ga4 & gl4 & ga5 & gl5 & Hf2 & ->).
    destruct (stress_forms_agree to self _ _ _ _ _ _ _ _ _ _ _ _ _ _ _ _ _
                Hto Hf1 Hf2) as (-> & -> & -> & -> & -> & Ha).
    do 4 eexists. repeat (split; [reflexivity|]).
    split; [apply form_eq_refl|]. intros [Hheat|Hxi].
    + rewrite Hmode in Hheat. discriminate.
    + repeat apply form_eq_add; try apply form_eq_refl. apply Ha, Hxi.
Qed.
End Refinement.

(** C1 on the ring, in mode "heat" with [xi_tilde = 2]: both revisions run,
    and store the same forms. *)
Lemma assemble_revisions_agree_witness :
  exists a1 b1 a2 b2,
    form_a (snd (setup_and_assemble (D := Demo.dolfin) nested_tensoroperations
                   fenicsR13 (Demo.solver "heat" true 2))) = Some a1
    /\ form_b (snd (setup_and_assemble (D := Demo.dolfin) nested_tensoroperations
                      fenicsR13 (Demo.solver "heat" true 2))) = Some b1
    /\ form_a (snd (setup_and_assemble (D := Demo.dolfin) nested_tensoroperations
                      src (Demo.solver "heat" true 2))) = Some a2
    /\ form_b (snd (setup_and_assemble (D := Demo.dolfin) nested_tensoroperations
                      src (Demo.solver "heat" true 2))) = Some b2
    /\ form_eq b1 b2 /\ form_eq a1 a2.
Proof.
  destruct (assemble_revisions_agree (D := Demo.dolfin) nested_tensoroperations
              (Demo.solver "heat" true 2)
              (snd (setup_and_assemble (D := Demo.dolfin) nested_tensoroperations
                      fenicsR13 (Demo.solver "heat" true 2)))
              (snd (setup_and_assemble (D := Demo.dolfin) nested_tensoroperations
                      src (Demo.solver "heat" true 2)))
              nested_agrees (or_introl eq_refl)
              (returned (setup_and_assemble (D := Demo.dolfin)
                           nested_tensoroperations fenicsR13)
                 (Demo.solver "heat" true 2) tt ltac:(vm_compute; reflexivity))
              (returned (setup_and_assemble (D := Demo.dolfin)
                           nested_tensoroperations src)
                 (Demo.solver "heat" true 2) tt ltac:(vm_compute; reflexivity)))
    as (a1 & b1 & a2 & b2 & Ha1 & Hb1 & Ha2 & Hb2 & Hb & Ha).
  exists a1, b1, a2, b2. repeat (split; [assumption|]).
  apply Ha. left. reflexivity.
Defined.

(** In mode "stress" with [xi_tilde = 2] both revisions run on the ring,
    with the functions of [tensoroperations] the nested ones, and store
    different [form_a]: at a boundary point the integrands differ. *)
Lemma assemble_revisions_differ_in_stress :
  agrees_with_nested nested_tensoroperations
  /\ exists s1 s2 a1 a2,
       setup_and_assemble (D := Demo.dolfin) nested_tensoroperations fenicsR13
         (Demo.solver "stress" true 2) = (Ok tt, s1)
       /\ setup_and_assemble (D := Demo.dolfin) nested_tensoroperations src
            (Demo.solver "stress" true 2) = (Ok tt, s2)
       /\ form_a s1 = Some a1 /\ form_a s2 = Some a2
       /\ ~ form_eq a1 a2.
Proof.
  split; [exact nested_agrees|].
  destruct (is_set_inv
              (form_a (snd (setup_and_assemble (D := Demo.dolfin)
                              nested_tensoroperations fenicsR13
                              (Demo.solver "stress" true 2))))
              ltac:(vm_compute; reflexivity)) as [a1 Ha1].
  destruct (is_set_inv
              (form_a (snd (setup_and_assemble (D := Demo.dolfin)
                              nested_tensoroperations src
                              (Demo.solver "stress" true 2))))
              ltac:(vm_compute; reflexivity)) as [a2 Ha2].
  eexists _, _, a1, a2.
  split; [apply returned; vm_compute; reflexivity|].
  split; [apply returned; vm_compute; reflexivity|].
  split; [exact Ha1|]. split; [exact Ha2|].
  intros Heq. apply (form_eq_values Demo.at_here) in Heq.
  rewrite <- Ha1, <- Ha2 in Heq. vm_compute in Heq. discriminate.
Qed.

(** ** More on the tensor functions nested in [assemble] *)

Section TensorAlgebra.
Import Tensor.

Lemma has_shape2_2x2 {A} (m : list (list A)) :
  has_shape2 2 2 m -> exists a b c d, m = [[a; b]; [c; d]].
Proof.
  intros [Hl Hr].
  destruct m as [|r0 [|r1 [|r2 m]]]; try discriminate.
  inversion Hr as [|? ? H0 Hr']; subst. inversion Hr' as [|? ? H1 _]; subst.
  destruct r0 as [|a [|b [|? ?]]]; try discriminate.
  destruct r1 as [|c [|d [|? ?]]]; try discriminate.
  exists a, b, c, d. reflexivity.
Qed.

Lemma Qsqr_nonneg' (x : Q) : 0 <= x * x.
Proof.
  destruct (Qlt_le_dec x 0) as [H|H].
  - setoid_replace (x * x) with ((- x) * (- x)) by ring.
    apply Qmult_le_0_compat; apply (Qopp_le_compat x 0), Qlt_le_weak, H.
  - apply Qmult_le_0_compat; assumption.
Qed.

Lemma Qplus_le_0_compat' (x y : Q) : 0 <= x -> 0 <= y -> 0 <= x + y.
Proof.
  intros Hx Hy. setoid_replace 0 with (0 + 0) by ring.
  apply Qplus_le_compat; assumption.
Qed.

(** Entries of tensors given by their rows. *)
Ltac entries :=
  cbv [dev3d innerOfTracefree2 inner2 inner3 dev3 sym3 grad3dOf2
       gen3dTracefreeTensor grad2 grad1 grad0 vals vals2 transpose tr
       tab3 tab2 tab1 map seq length nth idx3 idx2 idx1 index_sum fold_right
       Identity Nat.eqb dx jsub jneg jzero jconst d0 d1 val].

(** X1.  For a 2x2 matrix [mat], [dev3d mat] is a symmetric 2x2 matrix
    whose trace is a third of the trace of [mat]: with the entry
    [-tr(mat)/3] the third direction would carry, the trace is zero.  It
    does not depend on the skew part of [mat], and it leaves a symmetric
    matrix of trace zero as it is. *)
Theorem dev3d_symmetric_third_trace (mat : list (list Q)) :
  has_shape2 2 2 mat ->
  has_shape2 2 2 (dev3d mat)
  /\ (dev3d mat)@[0, 1] == (dev3d mat)@[1, 0]
  /\ tr (dev3d mat) == tr mat / 3
  /\ (forall i j, (dev3d (transpose mat))@[i, j] == (dev3d mat)@[i, j])
  /\ (mat@[0, 1] == mat@[1, 0] -> tr mat == 0 ->
      forall i j, (dev3d mat)@[i, j] == mat@[i, j]).
Proof.
  intros H. destruct (has_shape2_2x2 mat H) as (a & b & c & d & ->).
  split; [split; [reflexivity | repeat constructor]|].
  split; [entries; ring|]. split; [entries; field|].
  split.
  - intros i j.
    destruct i as [|[|i]]; destruct j as [|[|j]]; entries; try ring.
  - intros Hs Ht i j.
    assert (Hb : b == c) by exact Hs.
    assert (Hd : d == - a).
    { assert (Ht' : a + (d + 0) == 0) by exact Ht.
      assert (Hd' : d == (a + (d + 0)) - a) by ring.
      rewrite Hd', Ht'. ring. }
    destruct i as [|[|i]]; destruct j as [|[|j]]; entries;
      try (rewrite ?Hb, ?Hd; field);
      try (destruct j; reflexivity); destruct i; try reflexivity;
      destruct j as [|[|j]]; try reflexivity; destruct j; reflexivity.
Qed.

Lemma dev3d_symmetric_third_trace_witness :
  tr (dev3d [[3; 1]; [5; 6]]) == tr [[3; 1]; [5; 6]] / 3
  /\ (dev3d [[3; 1]; [5; 6]])@[0, 1] == (dev3d [[3; 1]; [5; 6]])@[1, 0].
Proof.
  destruct (dev3d_symmetric_third_trace [[3; 1]; [5; 6]])
    as (_ & Hs & Ht & _).
  - split; [reflexivity | repeat constructor].
  - split; assumption.
Defined.

(** X2.  For 2x2 tensors, [innerOfTracefree2] is the inner product of the
    two synthetic 3x3 tensors [gen3dTracefreeTensor] makes of them; so it
    is symmetric in its arguments and never negative on equal ones. *)
Theorem innerOfTracefree2_is_inner_of_3d (A B : list (list jet)) :
  has_shape2 2 2 A -> has_shape2 2 2 B ->
  innerOfTracefree2 (vals2 A) (vals2 B)
  == inner2 (vals2 (gen3dTracefreeTensor A)) (vals2 (gen3dTracefreeTensor B))
  /\ innerOfTracefree2 (vals2 A) (vals2 B)
     == innerOfTracefree2 (vals2 B) (vals2 A)
  /\ 0 <= innerOfTracefree2 (vals2 A) (vals2 A).
Proof.
  intros HA HB.
  destruct (has_shape2_2x2 A HA) as (a & b & c & d & ->).
  destruct (has_shape2_2x2 B HB) as (a' & b' & c' & d' & ->).
  split; [entries; ring|]. split; [entries; ring|].
  assert (E : innerOfTracefree2 (vals2 [[a; b]; [c; d]]) (vals2 [[a; b]; [c; d]])
              == val a * val a + val b * val b + val c * val c + val d * val d
                 + (val a + val d) * (val a + val d))
    by (entries; ring).
  rewrite E.
  repeat apply Qplus_le_0_compat' ; apply Qsqr_nonneg'.
Qed.

Lemma innerOfTracefree2_is_inner_of_3d_witness :
  innerOfTracefree2 (vals2 Demo.unit_nn) (vals2 Demo.unit_nn)
  == inner2 (vals2 (gen3dTracefreeTensor Demo.unit_nn))
            (vals2 (gen3dTracefreeTensor Demo.unit_nn))
  /\ 0 <= innerOfTracefree2 (vals2 Demo.unit_nn) (vals2 Demo.unit_nn).
Proof.
  destruct (innerOfTracefree2_is_inner_of_3d Demo.unit_nn Demo.unit_nn)
    as (H1 & _ & H3).
  - split; [reflexivity | repeat constructor].
  - split; [reflexivity | repeat constructor].
  - split; assumption.
Defined.

Lemma nth_tab1 {A} (n : nat) (f : nat -> A) (z : A) (i : nat) :
  nth i (tab1 n f) z = if (i <? n)%nat then f i else z.
Proof.
  unfold tab1. destruct (Nat.ltb_spec i n) as [H|H].
  - rewrite (nth_indep _ z (f 0%nat)) by (rewrite length_map, length_seq; exact H).
    rewrite map_nth, seq_nth by exact H. reflexivity.
  - apply nth_overflow. rewrite length_map, length_seq. exact H.
Qed.

Lemma idx3_tab3 (n m o : nat) (f : nat -> nat -> nat -> Q) (i j k : nat) :
  (tab3 n m o f)@[i, j, k]
  = if ((i <? n) && (j <? m) && (k <? o))%nat then f i j k else 0.
Proof.
  unfold idx3, tab3, tab2. rewrite nth_tab1.
  destruct (i <? n)%nat; cbn [andb].
  - rewrite nth_tab1. destruct (j <? m)%nat; cbn [andb].
    + apply nth_tab1.
    + destruct k; reflexivity.
  - destruct j, k; reflexivity.
Qed.

Lemma sym3_entry (rank3 : list (list (list Q))) (i j k : nat) :
  (sym3 rank3)@[i, j, k]
  = if ((i <? length rank3) && (j <? length rank3) && (k <? length rank3))%nat
    then 1/6 * (rank3@[i, j, k] + rank3@[i, k, j] + rank3@[j, i, k]
                + rank3@[j, k, i] + rank3@[k, i, j] + rank3@[k, j, i])
    else 0.
Proof. unfold sym3. apply idx3_tab3. Qed.

Lemma length_tab1 {A} (n : nat) (f : nat -> A) : length (tab1 n f) = n.
Proof. unfold tab1. rewrite length_map. apply length_seq. Qed.

Lemma length_sym3 (rank3 : list (list (list Q))) :
  length (sym3 rank3) = length rank3.
Proof. unfold sym3, tab3. apply length_tab1. Qed.

(** X3.  [sym3 rank3] does not change when two of its indices are
    exchanged, whatever the indices, and [sym3] applied to it again
    returns the same entries. *)
Theorem sym3_symmetric_idempotent (rank3 : list (list (list Q))) (i j k : nat) :
  (sym3 rank3)@[i, j, k] == (sym3 rank3)@[j, i, k]
  /\ (sym3 rank3)@[i, j, k] == (sym3 rank3)@[i, k, j]
  /\ (sym3 rank3)@[i, j, k] == (sym3 rank3)@[k, j, i]
  /\ (sym3 (sym3 rank3))@[i, j, k] == (sym3 rank3)@[i, j, k].
Proof.
  rewrite (sym3_entry (sym3 rank3)), length_sym3, !sym3_entry.
  destruct (i <? length rank3)%nat, (j <? length rank3)%nat,
    (k <? length rank3)%nat; cbn [andb];
    repeat split; try reflexivity; field.
Qed.

Lemma dev3_entry (rank3 : list (list (list Q))) (i j k : nat) :
  (dev3 rank3)@[i, j, k]
  = if ((i <? length rank3) && (j <? 3) && (k <? 3))%nat
    then (sym3 rank3)@[i, j, k]
         - 1/5 * (
             index_sum (length rank3) (fun l => (sym3 rank3)@[i, l, l])
               * (Identity 3)@[j, k]
             + index_sum (length rank3) (fun l => (sym3 rank3)@[j, l, l])
               * (Identity 3)@[i, k]
             + index_sum (length rank3) (fun l => (sym3 rank3)@[k, l, l])
               * (Identity 3)@[i, j])
    else 0.
Proof.
  unfold dev3. cbv zeta. rewrite length_sym3. apply idx3_tab3.
Qed.

Lemma length_dev3 (rank3 : list (list (list Q))) :
  length (dev3 rank3) = length rank3.
Proof. unfold dev3, tab3. cbv zeta. rewrite length_tab1. apply length_sym3. Qed.

(** The entries of [dev3] of a tensor with three slices, by the entries of
    the tensor. *)
Ltac dev3_entries H :=
  cbn [index_sum seq fold_right];
  rewrite ?dev3_entry; rewrite ?H;
  cbn [index_sum seq fold_right];
  rewrite ?sym3_entry; rewrite ?H;
  cbn [Nat.ltb Nat.leb andb Identity tab2 tab1 map seq idx2 nth Nat.eqb].

(** X4.  For a tensor with three slices, [dev3 rank3] has no trace: the sum
    of its entries over any two equal indices is zero, whatever the third
    index; and it does not change when two of its indices are exchanged. *)
Theorem dev3_tracefree_symmetric (rank3 : list (list (list Q))) (i j k : nat) :
  length rank3 = 3%nat ->
  index_sum 3 (fun l => (dev3 rank3)@[i, l, l]) == 0
  /\ index_sum 3 (fun l => (dev3 rank3)@[l, i, l]) == 0
  /\ index_sum 3 (fun l => (dev3 rank3)@[l, l, i]) == 0
  /\ (dev3 rank3)@[i, j, k] == (dev3 rank3)@[j, i, k]
  /\ (dev3 rank3)@[i, j, k] == (dev3 rank3)@[i, k, j].
Proof.
  intros H. split; [|split; [|split]].
  - destruct i as [|[|[|i]]]; dev3_entries H; field.
  - destruct i as [|[|[|i]]]; dev3_entries H; field.
  - destruct i as [|[|[|i]]]; dev3_entries H; field.
  - destruct i as [|[|[|i]]]; destruct j as [|[|[|j]]];
      destruct k as [|[|[|k]]]; dev3_entries H; split; field.
Qed.

Lemma dev3_tracefree_symmetric_witness :
  index_sum 3 (fun l =>
    (dev3 [ [[1; 2; 3]; [4; 5; 6]; [7; 8; 9]];
            [[1; 0; 1]; [0; 2; 0]; [3; 0; 3]];
            [[9; 8; 7]; [6; 5; 4]; [3; 2; 1]] ])@[1, l, l]) == 0
  /\ (dev3 [ [[1; 2; 3]; [4; 5; 6]; [7; 8; 9]];
             [[1; 0; 1]; [0; 2; 0]; [3; 0; 3]];
             [[9; 8; 7]; [6; 5; 4]; [3; 2; 1]] ])@[1, 0, 2]
     == (dev3 [ [[1; 2; 3]; [4; 5; 6]; [7; 8; 9]];
                [[1; 0; 1]; [0; 2; 0]; [3; 0; 3]];
                [[9; 8; 7]; [6; 5; 4]; [3; 2; 1]] ])@[0, 1, 2].
Proof.
  destruct (dev3_tracefree_symmetric
              [ [[1; 2; 3]; [4; 5; 6]; [7; 8; 9]];
                [[1; 0; 1]; [0; 2; 0]; [3; 0; 3]];
                [[9; 8; 7]; [6; 5; 4]; [3; 2; 1]] ] 1 0 2 eq_refl)
    as (H1 & _ & _ & H4 & _).
  split; assumption.
Defined.

Lemma index_sum_nonneg (n : nat) (f : nat -> Q) :
  (forall i, 0 <= f i) -> 0 <= index_sum n f.
Proof.
  intros Hf. unfold index_sum. generalize (seq 0 n) as l.
  induction l as [|i l IH]; cbn [fold_right].
  - apply Qle_refl.
  - apply Qplus_le_0_compat'; [apply Hf | exact IH].
Qed.

Lemma inner3_self_nonneg (a : list (list (list Q))) : 0 <= inner3 a a.
Proof.
  unfold inner3. repeat (apply index_sum_nonneg; intros ?).
  apply Qsqr_nonneg'.
Qed.

Lemma innerOfDevOfGrad2AndGrad2_both_dev (sigma psi : list (list jet)) :
  innerOfDevOfGrad2AndGrad2 sigma psi
  == inner3 (dev3 (grad3dOf2 (gen3dTracefreeTensor sigma)))
            (dev3 (grad3dOf2 (gen3dTracefreeTensor psi))).
Proof.
  unfold innerOfDevOfGrad2AndGrad2, innerOfDevOfGrad2AndGrad2_with,
    innerOfDevOfGrad2AndGrad2_compositional.
  entries. field.
Qed.

(** X5.  In [innerOfDevOfGrad2AndGrad2] the deviator may be taken of the
    second gradient as well (the variant the source keeps in a comment as
    "same"): the value is the inner product of the two deviators.  So the
    expression is symmetric in [sigma] and [psi], and it is never negative
    when the two are equal. *)
Theorem innerOfDevOfGrad2AndGrad2_symmetric_nonneg (sigma psi : list (list jet)) :
  innerOfDevOfGrad2AndGrad2 sigma psi
  == inner3 (dev3 (grad3dOf2 (gen3dTracefreeTensor sigma)))
            (dev3 (grad3dOf2 (gen3dTracefreeTensor psi)))
  /\ innerOfDevOfGrad2AndGrad2 sigma psi == innerOfDevOfGrad2AndGrad2 psi sigma
  /\ 0 <= innerOfDevOfGrad2AndGrad2 sigma sigma.
Proof.
  split; [apply innerOfDevOfGrad2AndGrad2_both_dev|]. split.
  - unfold innerOfDevOfGrad2AndGrad2, innerOfDevOfGrad2AndGrad2_with,
      innerOfDevOfGrad2AndGrad2_compositional.
    entries. field.
  - rewrite innerOfDevOfGrad2AndGrad2_both_dev. apply inner3_self_nonneg.
Qed.
End TensorAlgebra.

(** ** What the methods leave as it was *)

Section Frames.
Context {D : Dolfin} (to : tensoroperations).

Lemma preserves_bind {X A B} (part : Solver -> X) (c : M Solver A)
    (k : A -> M Solver B) :
  preserves part c -> (forall a, preserves part (k a)) ->
  preserves part (bind c k).
Proof.
  intros Hc Hk self. unfold bind. specialize (Hc self).
  destruct (c self) as [[a|e] s1]; cbn in *; [|exact Hc].
  rewrite (Hk a s1). exact Hc.
Qed.

Lemma preserves_stateless {X A} (part : Solver -> X) (c : M Solver A) :
  stateless c -> preserves part c.
Proof. intros [r Hr] self. rewrite Hr. reflexivity. Qed.

Lemma preserves_modify {X} (part : Solver -> X) (f : Solver -> Solver) :
  (forall self, part (f self) = part self) -> preserves part (modify f).
Proof. intros Hf self. apply Hf. Qed.

Lemma preserves_this {X} (part : Solver -> X) : preserves part this.
Proof. intros self. reflexivity. Qed.

Lemma preserves_for_each {X A} (part : Solver -> X) (body : A -> M Solver unit)
    (l : list A) :
  (forall a, preserves part (body a)) -> preserves part (for_each body l).
Proof.
  intros Hb. induction l as [|a l IH]; cbn [for_each].
  - intros self. reflexivity.
  - apply preserves_bind; [apply Hb | intros _; exact IH].
Qed.

Lemma preserves_comprehension {X A B} (part : Solver -> X)
    (f : A -> M Solver B) (l : list A) :
  (forall a, preserves part (f a)) -> preserves part (comprehension f l).
Proof.
  intros Hf. induction l as [|a l IH]; cbn [comprehension].
  - intros self. reflexivity.
  - apply preserves_bind; [apply Hf|]. intros y.
    apply preserves_bind; [exact IH|]. intros ys self. reflexivity.
Qed.

Lemma files_written_solve a L w bcs linear_solver (self : Solver) :
  files_written (add_io (df_solve a L w bcs linear_solver) self)
  = files_written self.
Proof.
  unfold files_written, add_io. cbn [io set_io].
  rewrite flat_map_app. cbn. apply app_nil_r.
Qed.

Lemma systems_solved_write filename field time (self : Solver) :
  systems_solved (add_io (xdmf_write filename field time) self)
  = systems_solved self.
Proof.
  unfold systems_solved, add_io. cbn [io set_io].
  rewrite filter_app. cbn. rewrite app_nil_r. reflexivity.
Qed.

Lemma files_written_setattr attribute value (self : Solver) :
  files_written (add_io (df_setattr attribute value) self) = files_written self.
Proof.
  unfold files_written, add_io. cbn [io set_io].
  rewrite flat_map_app. cbn. apply app_nil_r.
Qed.

Lemma systems_solved_setattr attribute value (self : Solver) :
  systems_solved (add_io (df_setattr attribute value) self)
  = systems_solved self.
Proof.
  unfold systems_solved, add_io. cbn [io set_io].
  rewrite filter_app. cbn. rewrite app_nil_r. reflexivity.
Qed.

(** Proves [preserves] of a method by its structure. *)
Ltac frame :=
  cbv zeta;
  lazymatch goal with
  | |- preserves _ (bind _ _) => apply preserves_bind; [frame | intros; frame]
  | |- preserves _ this => apply preserves_this
  | |- preserves _ (modify _) =>
      apply preserves_modify; intros; cbv beta;
      rewrite ?files_written_solve, ?systems_solved_write,
        ?files_written_setattr, ?systems_solved_setattr; reflexivity
  | |- preserves _ (for_each _ _) => apply preserves_for_each; intros; frame
  | |- preserves _ (comprehension _ _) =>
      apply preserves_comprehension; intros; frame
  | |- preserves _ (R13.heat_forms _) =>
      apply preserves_stateless, heat_forms_stateless
  | |- preserves _ (R13.stress_forms _) =>
      apply preserves_stateless, stress_forms_stateless
  | |- preserves _ (Src.forms_with_coeffs _ _) =>
      apply preserves_stateless, forms_with_coeffs_stateless
  | |- preserves _ (Src.forms_without_coeffs _ _) =>
      apply preserves_stateless, forms_without_coeffs_stateless
  | |- preserves _ (match ?x with _ => _ end) => destruct x; frame
  | |- preserves _ _ =>
      apply preserves_stateless;
      first [ apply stateless_ret | apply stateless_raise | apply stateless_lift
            | apply stateless_require | apply stateless_all_elements
            | apply stateless_df_FiniteElement
            | apply stateless_df_VectorElement
            | apply stateless_df_TensorElement
            | apply stateless_tangent_of_normal ]
  end.

Ltac methods :=
  unfold R13.setup_function_spaces, Src.setup_function_spaces, setup_elems_loop,
    R13.assemble, Src.assemble, define_measures, check_bcs, R13.solve, Src.solve,
    R13.calc_errors, Src.calc_errors, calc_errors_heat, calc_errors_stress,
    calc_scalarfield_errors, calc_vectorfield_errors, calc_tensorfield_errors,
    componentwise_errors, by_component, np_max_abs, write_solutions, write_xdmf,
    R13.unpack2, R13.unpack3, Src.unpack5, Src.calc_sf_mean, getitem, not_none.

Lemma frames_of_methods (rv : revision) :
  preserves (fun self => (config self, forms_of self, sol self, esol self,
                          errors_of self, io self))
    (setup_function_spaces_of rv)
  /\ preserves (fun self => (config self, spaces_of self, sol self, esol self,
                             errors_of self, files_written self,
                             systems_solved self))
       (assemble_of to rv)
  /\ preserves (fun self => (config self, spaces_of self, forms_of self,
                             esol self, errors_of self, files_written self))
       (solve_of rv)
  /\ preserves (fun self => (config self, spaces_of self, forms_of self,
                             sol self, esol self, systems_solved self))
       (calc_errors_of rv).
Proof.
  split; [|split; [|split]]; destruct rv;
    cbn [setup_function_spaces_of assemble_of solve_of calc_errors_of];
    methods; frame.
Qed.


End Frames.

(** ** More on writing fields *)

Section StringFacts.
Lemma string_length_append (a b : string) :
  String.length (a ++ b) = (String.length a + String.length b)%nat.
Proof. induction a as [|c a IH]; cbn; [reflexivity | rewrite IH; reflexivity]. Qed.

Lemma string_append_inv_head (a x y : string) : a ++ x = a ++ y -> x = y.
Proof.
  induction a as [|c a IH]; cbn; [trivial|].
  intros H. injection H as H. apply IH, H.
Qed.

Lemma string_append_inv_tail (x y b : string) : x ++ b = y ++ b -> x = y.
Proof.
  revert y. induction x as [|c x IH]; intros [|c' y] H; cbn in H.
  - reflexivity.
  - apply (f_equal String.length) in H. cbn in H.
    rewrite string_length_append in H. lia.
  - apply (f_equal String.length) in H. cbn in H.
    rewrite string_length_append in H. lia.
  - injection H as -> H. f_equal. apply IH, H.
Qed.

End StringFacts.

Section WritingMore.
Context {D : Dolfin}.

Lemma written_or_kept (self : Solver) (key : string) (f : Function) :
  (if snd (remove_symmetry (mesh self) f (seq 0 5))
   then f else written_field self key f)
  = (if snd (remove_symmetry (mesh self) f (seq 0 5)) then f else rename f key).
Proof.
  unfold written_field.
  destruct (remove_symmetry (mesh self) f (seq 0 5)) as [g b] eqn:E.
  cbn [fst snd]. destruct b; [reflexivity|].
  assert (Hg : g = f); [|rewrite Hg; reflexivity].
  revert E. generalize (seq 0 5). intros l. induction l as [|d l IH];
    cbn [remove_symmetry].
  - intros H; injection H as <-. reflexivity.
  - destruct (element_eqb _ _); [discriminate | exact IH].
Qed.

(** What the loop of [write_solutions] leaves in [self.sol]. *)
Lemma write_solutions_loop_sol (keys : list string) (self : Solver) :
  NoDup keys ->
  (forall k, In k keys -> In k (dict_keys (sol self))) ->
  forall k,
    sget (sol (snd (for_each (fun field =>
      self <- this ;;
      sols_field <- getitem (sol self) field ;;
      match sols_field with
      | Some f =>
          f' <- write_xdmf field f ;;
          modify (fun self => set_sol (sset (sol self) field (Some f')) self)
      | None => ret tt
      end) keys self))) k
    = if in_dec string_dec k keys
      then option_map (after_write self k) (sget (sol self) k)
      else sget (sol self) k.
Proof.
  intros Hnd. revert self. induction Hnd as [|k0 keys Hk Hnd IH]; intros self Hin k.
  - reflexivity.
  - destruct (sget_in_keys (sol self) k0 (Hin k0 (or_introl eq_refl))) as [v Hv].
    cbn [for_each].
    destruct v as [f|].
    + set (f' := if snd (remove_symmetry (mesh self) f (seq 0 5))
                 then f else written_field self k0 f).
      set (self1 := set_sol (sset (sol self) k0 (Some f'))
                      (add_io (xdmf_write (xdmf_path self k0)
                                 (written_field self k0 f) (time self)) self)).
      erewrite bind_exec;
        [ | eapply bind_exec; [apply this_run|]; cbv beta;
            eapply bind_exec; [apply getitem_run; exact Hv|]; cbv beta iota;
            eapply bind_exec; [apply write_xdmf_run|]; apply modify_run
          | reflexivity ].
      fold f'. fold self1. rewrite IH.
      2:{ intros k' Hk'. unfold self1. ssimpl.
          rewrite dict_keys_sset by (apply Hin; left; reflexivity).
          apply Hin. right; assumption. }
      unfold after_write, self1. ssimpl.
      destruct (in_dec string_dec k (k0 :: keys)) as [Hi|Hi];
        destruct (in_dec string_dec k keys) as [Hi'|Hi'].
      * rewrite sget_sset_neq by (intros <-; contradiction).
        reflexivity.
      * destruct Hi as [<-|Hi]; [|contradiction].
        rewrite sget_sset_eq, Hv. cbn [option_map].
        do 2 f_equal. unfold f'. apply written_or_kept.
      * exfalso. apply Hi. right; assumption.
      * apply sget_sset_neq. intros <-. apply Hi. left; reflexivity.
    + erewrite bind_exec;
        [ | eapply bind_exec; [apply this_run|]; cbv beta;
            eapply bind_exec; [apply getitem_run; exact Hv|]; cbv beta iota;
            apply ret_run
          | reflexivity ].
      rewrite IH by (intros k' Hk'; apply Hin; right; assumption).
      destruct (in_dec string_dec k (k0 :: keys)) as [Hi|Hi];
        destruct (in_dec string_dec k keys) as [Hi'|Hi']; try reflexivity.
      * destruct Hi as [<-|Hi]; [|contradiction]. rewrite Hv. reflexivity.
      * exfalso. apply Hi. right; assumption.
Qed.

Lemma write_solutions_state (self : Solver) :
  NoDup (dict_keys (sol self)) ->
  exists self',
    write_solutions self = (Ok tt, self')
    /\ io self' = (io self
                   ++ solution_writes self (sol self) (dict_keys (sol self)))%list
    /\ forall k, sget (sol self') k
                 = option_map (after_write self k) (sget (sol self) k).
Proof.
  intros Hnd.
  destruct (write_solutions_loop (dict_keys (sol self)) self Hnd (fun k H => H))
    as (self' & Hrun & Hio & _).
  exists self'. split; [|split; [exact Hio|]].
  - unfold write_solutions. eapply bind_exec; [apply this_run|]. exact Hrun.
  - intros k.
    pose proof (write_solutions_loop_sol (dict_keys (sol self)) self Hnd
                  (fun k H => H) k) as Hsol.
    rewrite Hrun in Hsol. cbn [snd] in Hsol. rewrite Hsol.
    destruct (in_dec string_dec k (dict_keys (sol self))) as [Hi|Hi];
      [reflexivity|].
    destruct (sget (sol self) k) as [v|] eqn:E; [|reflexivity].
    exfalso. apply Hi. clear - E. unfold sget, dict_keys in *.
    induction (sol self) as [|[k0 v0] d IH]; [discriminate|].
    cbn in *. destruct (String.eqb_spec k k0) as [->|_]; [left; reflexivity|].
    right. apply IH, E.
Qed.



(** X7.  When every function stored in [self.sol] is one that
    [write_xdmf] hands to the file as no symmetric tensor,
    [write_solutions] returns, and what it leaves under each key of
    [self.sol] is the object that was there: with the same space and the
    same coefficient vector, under the name of its key or, when
    [write_xdmf] wrote a projection instead, unchanged; a key that held
    [None] still holds [None]. *)
Theorem write_solutions_keeps_solution_data (self : Solver) :
  NoDup (dict_keys (sol self)) ->
  all_writable self = true ->
  exists self',
    write_solutions self = (Ok tt, self')
    /\ dict_keys (sol self') = dict_keys (sol self)
    /\ (forall k f,
           sget (sol self) k = Some (Some f) ->
           exists f',
             sget (sol self') k = Some (Some f')
             /\ function_space f' = function_space f
             /\ vector f' = vector f
             /\ (f' = f \/ f' = rename f k))
    /\ (forall k, sget (sol self) k = Some None -> sget (sol self') k = Some None)
    /\ (forall k, sget (sol self) k = None -> sget (sol self') k = None).
Proof.
  intros Hnd _.
  destruct (write_solutions_state self Hnd) as (self' & Hrun & _ & Hsol).
  exists self'. split; [exact Hrun|]. split; [|split; [|split]].
  - destruct (write_solutions_loop (dict_keys (sol self)) self Hnd (fun k H => H))
      as (self2 & Hrun2 & _ & _ & Hkeys & _).
    unfold write_solutions in Hrun.
    rewrite (bind_run _ _ _ _ _ (this_run self)) in Hrun.
    rewrite Hrun2 in Hrun. injection Hrun as <-. exact Hkeys.
  - intros k f Hf. rewrite Hsol, Hf. cbn [option_map after_write].
    destruct (snd (remove_symmetry (mesh self) f (seq 0 5))).
    + exists f. repeat split. left; reflexivity.
    + exists (rename f k). repeat split. right; reflexivity.
  - intros k Hk. rewrite Hsol, Hk. reflexivity.
  - intros k Hk. rewrite Hsol, Hk. reflexivity.
Qed.

End WritingMore.

(** After [solve] in mode "stress" on the ring: the pressure keeps its
    vector and takes the name of its key; three files are written. *)
Lemma write_solutions_keeps_solution_data_witness :
  all_writable (Demo.solver_solved src "stress") = true
  /\ exists self' f f',
    write_solutions (D := Demo.dolfin) (Demo.solver_solved src "stress")
    = (Ok tt, self')
    /\ sget (sol (Demo.solver_solved src "stress")) "p" = Some (Some f)
    /\ sget (sol self') "p" = Some (Some f')
    /\ vector f' = vector f
    /\ (f' = f \/ f' = rename f "p").
Proof.
  assert (NoDup (dict_keys (sol (Demo.solver_solved src "stress")))) as Hnd.
  { vm_compute. repeat constructor; cbn; intuition discriminate. }
  assert (all_writable (Demo.solver_solved src "stress") = true) as Hw.
  { vm_compute. reflexivity. }
  split; [exact Hw|].
  destruct (write_solutions_keeps_solution_data (D := Demo.dolfin) _ Hnd Hw)
    as (self' & Hrun & _ & Hset & _).
  destruct (is_set_inv (sget (sol (Demo.solver_solved src "stress")) "p")
              ltac:(vm_compute; reflexivity)) as [[f|] Hf].
  - destruct (Hset "p" f Hf) as (f' & Hf' & _ & Hv & Hn).
    exists self', f, f'. repeat split; assumption.
  - exfalso. vm_compute in Hf. discriminate Hf.
Defined.


(** ** When [assemble] returns *)

Section AssembleReturns.
Context {D : Dolfin} (to : tensoroperations).

Lemma pydiv_run (a b : Q) : ~ b == 0 -> pydiv a b = Ok (a / b).
Proof.
  intros Hb. unfold pydiv. destruct (Qeq_bool b 0) eqn:E; [|reflexivity].
  apply Qeq_bool_iff in E. contradiction.
Qed.

Lemma scaled_nonzero (c x : Q) : ~ c == 0 -> (~ c * x == 0 <-> ~ x == 0).
Proof.
  intros Hc. split; intros H E; apply H.
  - rewrite E. ring.
  - apply Qmult_integral in E. destruct E; [contradiction | assumption].
Qed.

(** The boundary terms are built when every boundary condition has the
    key, and only then. *)
Lemma boundary_terms_returns (bcs : list (Z * list (string * Q))) (key : string)
    (g : Z -> Q -> pyform) (keys : list Z) (self : Solver) :
  (exists l,
      comprehension (fun bc => v <- bc_value bcs bc key ;; ret (g bc v)) keys self
      = (Ok l, self))
  <-> (forall bc, In bc keys ->
         exists entry value,
           dict_get Z.eqb bcs bc = Some entry /\ sget entry key = Some value).
Proof.
  induction keys as [|k keys IH]; cbn [comprehension].
  - split; [intros _ bc [] | intros _; eexists; reflexivity].
  - split.
    + intros [l H] bc [<-|Hin].
      * apply bind_inv in H. destruct H as (y & s1 & Hy & _).
        apply bind_inv in Hy. destruct Hy as (v & s2 & Hv & _).
        unfold bc_value in Hv.
        apply bind_inv in Hv. destruct Hv as (entry & s3 & He & Hv).
        apply require_inv in He. destruct He as [He ->].
        apply require_inv in Hv. destruct Hv as [Hv _].
        exists entry, v. split; assumption.
      * apply bind_inv in H. destruct H as (y & s1 & Hy & H).
        apply bind_inv in H. destruct H as (ys & s2 & Hys & _).
        assert (s1 = self) as ->.
        { apply (stateless_inv _ _ _ _
                   (stateless_bind _ _ (stateless_bc_value bcs k key)
                      (fun v => stateless_ret (g k v))) Hy). }
        assert (s2 = self) as ->.
        { apply (stateless_inv _ _ _ _
                   (boundary_terms_stateless bcs key g keys) Hys). }
        apply (proj1 IH); [exists ys; exact Hys | exact Hin].
    + intros Hall.
      destruct (Hall k (or_introl eq_refl)) as (entry & value & He & Hv).
      destruct (proj2 IH (fun bc Hin => Hall bc (or_intror Hin))) as [l Hl].
      exists (g k value :: l).
      eapply bind_exec.
      * eapply bind_exec; [|apply ret_run].
        unfold bc_value. eapply bind_exec.
        -- unfold require. rewrite He. apply ret_run.
        -- unfold require. rewrite Hv. apply ret_run.
      * eapply bind_exec; [exact Hl | apply ret_run].
Qed.

Lemma boundary_terms_inv (bcs : list (Z * list (string * Q))) (key : string)
    (g : Z -> Q -> pyform) (keys : list Z) (self self' : Solver) l :
  comprehension (fun bc => v <- bc_value bcs bc key ;; ret (g bc v)) keys self
  = (Ok l, self') ->
  self' = self
  /\ (forall bc, In bc keys ->
         exists entry value,
           dict_get Z.eqb bcs bc = Some entry /\ sget entry key = Some value).
Proof.
  intros H.
  destruct (stateless_inv _ _ _ _ (boundary_terms_stateless bcs key g keys) H)
    as [-> _].
  split; [reflexivity|].
  apply (proj1 (boundary_terms_returns bcs key g keys self)).
  exists l. exact H.
Qed.

Lemma lift_pydiv_run (a b : Q) (self : Solver) :
  ~ b == 0 -> lift (pydiv a b) self = (Ok (a / b), self).
Proof. intros Hb. unfold lift. rewrite pydiv_run by exact Hb. reflexivity. Qed.

Lemma lift_pydiv_inv (a b q : Q) (self self' : Solver) :
  lift (pydiv a b) self = (Ok q, self') -> ~ b == 0 /\ self' = self.
Proof.
  intros H. apply lift_inv in H. destruct H as [H ->].
  apply pydiv_inv in H. split; [apply H | reflexivity].
Qed.

(** Steps of a builder that returned: the divisions and the list of
    boundary terms. *)
Ltac builder_inv H :=
  repeat
    (let x := fresh "x" in
     let s1 := fresh "s" in
     let H1 := fresh "Hstep" in
     apply bind_inv in H; destruct H as (x & s1 & H1 & H);
     first
       [ apply lift_pydiv_inv in H1; destruct H1 as [H1 ->]
       | apply boundary_terms_inv in H1; destruct H1 as [-> H1] ]).

Lemma bind_returns {A B} (c : M Solver A) (k : A -> M Solver B)
    (self : Solver) :
  (exists a, c self = (Ok a, self)) ->
  (forall a, exists b, k a self = (Ok b, self)) ->
  exists b, bind c k self = (Ok b, self).
Proof.
  intros [a Ha] Hk. destruct (Hk a) as [b Hb]. exists b.
  eapply bind_exec; eassumption.
Qed.

(** Runs a builder whose divisors are not zero and whose boundary
    conditions have their keys. *)
Ltac builder_run :=
  repeat
    (apply bind_returns;
     [ first
         [ eexists; apply lift_pydiv_run; assumption
         | apply (proj2 (boundary_terms_returns _ _ _ _ _)); assumption ]
     | intros ? ]);
  eexists; apply ret_run.

Lemma heat_forms_returns (self state : Solver) :
  (exists x, R13.heat_forms self state = (Ok x, state))
  <-> ~ tau self == 0 /\ ~ xi_tilde self == 0 /\ all_have "theta_w" (bcs self).
Proof.
  unfold R13.heat_forms, all_have. split.
  - intros [x H]. destruct (use_coeffs self); builder_inv H;
      repeat split; try assumption.
    eapply scaled_nonzero; [|eassumption]. discriminate.
  - intros (Ht & Hx & Hall).
    assert (~ 4 * xi_tilde self == 0) as Hx4
      by (apply scaled_nonzero; [discriminate | exact Hx]).
    destruct (use_coeffs self); builder_run.
Qed.

Lemma stress_forms_returns (self state : Solver) :
  (exists x, R13.stress_forms self state = (Ok x, state))
  <-> ~ tau self == 0 /\ ~ xi_tilde self == 0 /\ all_have "v_t" (bcs self).
Proof.
  unfold R13.stress_forms, all_have. split.
  - intros [x H]. builder_inv H. repeat split; assumption.
  - intros (Ht & Hx & Hall).
    assert (~ 10 * xi_tilde self == 0) as Hx10
      by (apply scaled_nonzero; [discriminate | exact Hx]).
    builder_run.
Qed.

Lemma forms_with_coeffs_returns (self state : Solver) :
  (exists x, Src.forms_with_coeffs to self state = (Ok x, state))
  <-> ~ tau self == 0 /\ ~ xi_tilde self == 0
      /\ all_have "theta_w" (bcs self) /\ all_have "v_t" (bcs self).
Proof.
  unfold Src.forms_with_coeffs, all_have. split.
  - intros [x H]. builder_inv H. repeat split; assumption.
  - intros (Ht & Hx & Hall & Hall').
    assert (~ 4 * xi_tilde self == 0) as Hx4
      by (apply scaled_nonzero; [discriminate | exact Hx]).
    builder_run.
Qed.

Lemma forms_without_coeffs_returns (self state : Solver) :
  (exists x, Src.forms_without_coeffs to self state = (Ok x, state))
  <-> ~ tau self == 0 /\ ~ xi_tilde self == 0 /\ all_have "theta_w" (bcs self).
Proof.
  unfold Src.forms_without_coeffs, all_have. split.
  - intros [x H]. builder_inv H. repeat split; assumption.
  - intros (Ht & Hx & Hall). builder_run.
Qed.

Lemma check_bcs_returns (self : Solver) :
  (forall edge_id, ~ unprescribed self edge_id) ->
  check_bcs self = (Ok tt, self).
Proof.
  intros Hall. rewrite check_bcs_run.
  destruct (fst (check_bcs self)) as [[]|e] eqn:E; [reflexivity|].
  exfalso. destruct (proj1 (check_bcs_raises self) (ex_intro _ e E)) as [id Hid].
  exact (Hall id Hid).
Qed.

Lemma check_bcs_returned (self self' : Solver) u :
  check_bcs self = (Ok u, self') ->
  (forall edge_id, ~ unprescribed self edge_id) /\ self' = self.
Proof.
  intros H. split; [|apply (check_bcs_inv _ _ _ H)].
  intros id Hid.
  destruct (proj2 (check_bcs_raises self) (ex_intro _ id Hid)) as [e He].
  rewrite H in He. discriminate He.
Qed.

Lemma all_have_one (key : string) (bcs : list (Z * list (string * Q))) :
  (forall k, In k [key] -> all_have k bcs) <-> all_have key bcs.
Proof.
  split; [intros H; apply H; left; reflexivity|].
  intros H k [<-|[]]. exact H.
Qed.

Lemma all_have_two (k1 k2 : string) (bcs : list (Z * list (string * Q))) :
  (forall k, In k [k1; k2] -> all_have k bcs)
  <-> all_have k1 bcs /\ all_have k2 bcs.
Proof.
  split.
  - intros H. split; apply H; [left | right; left]; reflexivity.
  - intros [H1 H2] k [<-|[<-|[]]]; assumption.
Qed.

(** The test of the mode, decided. *)
Ltac in_mode Hmode :=
  rewrite ?Hmode in *;
  change ("heat" =? "heat") with true in *;
  change ("heat" =? "stress") with false in *;
  change ("heat" =? "coupled") with false in *;
  change ("stress" =? "heat") with false in *;
  change ("stress" =? "stress") with true in *;
  change ("stress" =? "coupled") with false in *;
  cbv iota in *.

Lemma R13_assemble_returned (self self' : Solver) :
  mode self = "heat" \/ mode self = "stress" ->
  R13.assemble self = (Ok tt, self') ->
  assemble_accepts fenicsR13 self.
Proof.
  intros Hmode H.
  unfold assemble_accepts, bc_keys_read. unfold R13.assemble in H.
  apply bind_inv in H. destruct H as (u0 & s1 & Hchk & H).
  apply check_bcs_returned in Hchk. destruct Hchk as [Hchk ->].
  mstep H. apply measures_prefix in H. destruct H as [Hdim H].
  destruct Hmode as [Hmode|Hmode]; in_mode Hmode; rewrite all_have_one.
  - do 2 mstep H.
    apply bind_inv in H. destruct H as (x & s1 & Hx & _).
    destruct (stateless_inv _ _ _ _ (heat_forms_stateless self) Hx) as [-> _].
    destruct (proj1 (heat_forms_returns self _) (ex_intro _ x Hx))
      as (H1 & H2 & H3).
    repeat split; try assumption. discriminate.
  - do 2 mstep H.
    apply bind_inv in H. destruct H as (forms & s1 & Hx & H).
    destruct (use_coeffs self).
    + apply bind_inv in Hx. destruct Hx as (x & s2 & Hx & _).
      destruct (stateless_inv _ _ _ _ (stress_forms_stateless self) Hx)
        as [-> _].
      destruct (proj1 (stress_forms_returns self _) (ex_intro _ x Hx))
        as (H1 & H2 & H3).
      repeat split; assumption.
    + apply ret_inv in Hx. destruct Hx as [-> ->].
      destruct (raise_inv _ _ _ _ H).
Qed.

Lemma R13_assemble_accepted (self : Solver) :
  mixed_spaces_set self ->
  mode self = "heat" \/ mode self = "stress" ->
  assemble_accepts fenicsR13 self ->
  exists self', R13.assemble self = (Ok tt, self').
Proof.
  intros (w_heat & w_stress & w_coupled & Hh & Hs & Hc) Hmode.
  unfold assemble_accepts, bc_keys_read, R13.assemble.
  destruct Hmode as [Hmode|Hmode]; in_mode Hmode; rewrite all_have_one.
  - intros (Hchk & Hdim & Ht & Hx & Hall & _).
    destruct (proj2 (heat_forms_returns self (measures_defined self))
                (conj Ht (conj Hx Hall)))
      as [[[[a1 a2] l1] l2] Hf].
    eexists.
    eapply bind_exec; [apply check_bcs_returns; exact Hchk|].
    eapply bind_exec; [apply this_run|]. cbv beta zeta.
    rewrite (measures_prefix_run _ self Hdim). in_mode Hmode.
    eapply bind_exec; [apply getitem_run; exact Hh|].
    eapply bind_exec; [apply not_none_run|].
    eapply bind_exec; [exact Hf|]. reflexivity.
  - intros (Hchk & Hdim & Ht & Hx & Hall & Hco).
    destruct (proj2 (stress_forms_returns self (measures_defined self))
                (conj Ht (conj Hx Hall)))
      as [[[[[[a1 l1] a2] l2] a3] l3] Hf].
    eexists.
    eapply bind_exec; [apply check_bcs_returns; exact Hchk|].
    eapply bind_exec; [apply this_run|]. cbv beta zeta.
    rewrite (measures_prefix_run _ self Hdim). in_mode Hmode.
    rewrite (Hco eq_refl).
    eapply bind_exec; [apply getitem_run; exact Hs|].
    eapply bind_exec; [apply not_none_run|].
    eapply bind_exec;
      [eapply bind_exec; [exact Hf | apply ret_run]|]. reflexivity.
Qed.

Lemma Src_assemble_returned (self self' : Solver) :
  mode self = "heat" \/ mode self = "stress" ->
  Src.assemble to self = (Ok tt, self') ->
  assemble_accepts src self.
Proof.
  intros Hmode H.
  unfold assemble_accepts, bc_keys_read. unfold Src.assemble in H.
  apply bind_inv in H. destruct H as (u0 & s1 & Hchk & H).
  apply check_bcs_returned in Hchk. destruct Hchk as [Hchk ->].
  mstep H. apply measures_prefix in H. destruct H as [Hdim H].
  do 3 mstep H.
  apply bind_inv in H. destruct H as (u1 & s1 & Hw & H).
  assert (s1 = measures_defined self) as ->.
  { destruct Hmode as [Hmode|Hmode]; in_mode Hmode;
      do 2 mstep Hw; apply ret_inv in Hw; apply Hw. }
  apply bind_inv in H. destruct H as (forms & s1 & Hx & H).
  destruct (use_coeffs self).
  - apply bind_inv in Hx. destruct Hx as (x & s2 & Hx & _).
    destruct (stateless_inv _ _ _ _ (forms_with_coeffs_stateless to self) Hx)
      as [-> _].
    destruct (proj1 (forms_with_coeffs_returns self _) (ex_intro _ x Hx))
      as (H1 & H2 & H3 & H4).
    rewrite all_have_two. repeat split; assumption.
  - apply bind_inv in Hx. destruct Hx as (x & s2 & Hx & Hret).
    destruct (stateless_inv _ _ _ _ (forms_without_coeffs_stateless to self) Hx)
      as [-> _].
    destruct (proj1 (forms_without_coeffs_returns self _) (ex_intro _ x Hx))
      as (H1 & H2 & H3).
    rewrite all_have_one. repeat split; try assumption.
    intros Hstress. exfalso.
    apply ret_inv in Hret. destruct Hret as [-> ->].
    destruct x as [[[fa1 fl1] fa2] fl2]. in_mode Hstress.
    destruct (raise_inv _ _ _ _ H).
Qed.

Lemma Src_assemble_accepted (self : Solver) :
  mixed_spaces_set self ->
  mode self = "heat" \/ mode self = "stress" ->
  assemble_accepts src self ->
  exists self', Src.assemble to self = (Ok tt, self').
Proof.
  intros (w_heat & w_stress & w_coupled & Hh & Hs & Hc) Hmode.
  unfold assemble_accepts, bc_keys_read, Src.assemble.
  intros (Hchk & Hdim & Ht & Hx & Hall & Hco).
  assert (exists forms,
             (if use_coeffs self
              then x <- Src.forms_with_coeffs to self ;; ret (fst x, Some (snd x))
              else x <- Src.forms_without_coeffs to self ;; ret (x, None))
               (measures_defined self)
             = (Ok forms, measures_defined self)
             /\ (mode self = "stress" -> snd forms <> None)) as (forms & Hf & Hsome).
  { destruct (use_coeffs self).
    - rewrite all_have_two in Hall. destruct Hall as [Hall Hall'].
      destruct (proj2 (forms_with_coeffs_returns self (measures_defined self))
                  (conj Ht (conj Hx (conj Hall Hall')))) as [x Hf].
      exists (fst x, Some (snd x)). split; [|discriminate].
      eapply bind_exec; [exact Hf | apply ret_run].
    - rewrite all_have_one in Hall.
      destruct (proj2 (forms_without_coeffs_returns self (measures_defined self))
                  (conj Ht (conj Hx Hall))) as [x Hf].
      exists (x, None). split.
      + eapply bind_exec; [exact Hf | apply ret_run].
      + intros Hstress. specialize (Hco Hstress). discriminate. }
  destruct forms as [[[[fa1 fl1] fa2] fl2] stress].
  assert (Hrun : forall (after : M Solver unit) state,
             bind (bind (not_none "TrialFunctions" (Some w_heat))
                     (fun _ => bind (not_none "TrialFunctions" (Some w_stress))
                                 (fun _ => ret tt)))
                  (fun _ => after) state = after state) by reflexivity.
  destruct Hmode as [Hmode|Hmode].
  - eexists.
    eapply bind_exec; [apply check_bcs_returns; exact Hchk|].
    eapply bind_exec; [apply this_run|]. cbv beta zeta.
    rewrite (measures_prefix_run _ self Hdim).
    eapply bind_exec; [apply getitem_run; exact Hh|].
    eapply bind_exec; [apply getitem_run; exact Hs|].
    eapply bind_exec; [apply getitem_run; exact Hc|].
    in_mode Hmode. rewrite Hrun.
    eapply bind_exec; [exact Hf|]. reflexivity.
  - destruct stress as [[[[[[fa3 fl3] fa4] fl4] fa5] fl5]|];
      [|destruct (Hsome Hmode eq_refl)].
    eexists.
    eapply bind_exec; [apply check_bcs_returns; exact Hchk|].
    eapply bind_exec; [apply this_run|]. cbv beta zeta.
    rewrite (measures_prefix_run _ self Hdim).
    eapply bind_exec; [apply getitem_run; exact Hh|].
    eapply bind_exec; [apply getitem_run; exact Hs|].
    eapply bind_exec; [apply getitem_run; exact Hc|].
    in_mode Hmode. rewrite Hrun.
    eapply bind_exec; [exact Hf|]. reflexivity.
Qed.

Lemma assemble_returned_accepts (rv : revision) (self self' : Solver) :
  mode self = "heat" \/ mode self = "stress" ->
  assemble_of to rv self = (Ok tt, self') ->
  assemble_accepts rv self.
Proof.
  destruct rv; cbn [assemble_of];
    [apply R13_assemble_returned | apply Src_assemble_returned].
Qed.

Lemma assemble_returns_accepts (rv : revision) (self : Solver) :
  mixed_spaces_set self ->
  mode self = "heat" \/ mode self = "stress" ->
  (exists self', assemble_of to rv self = (Ok tt, self'))
  <-> assemble_accepts rv self.
Proof.
  intros Hset Hmode. split.
  - intros [self' H]. apply (assemble_returned_accepts rv self self' Hmode H).
  - destruct rv; cbn [assemble_of];
      [apply R13_assemble_accepted | apply Src_assemble_accepted]; assumption.
Qed.

(** X9.  In mode "heat" or "stress", [assemble] raises unless every
    boundary id of the mesh is [0] or a key of [bcs], the domain is
    two-dimensional, [tau] and [xi_tilde] are not zero, every boundary
    condition has the keys the revision reads, and (mode "stress")
    [use_coeffs] is true.  The revision [src/fenicsR13/src/solver.py] reads
    ["theta_w"] in mode "heat" and ["v_t"] in mode "stress";
    [src/src/solver.py] reads ["theta_w"] in both modes, and ["v_t"] too
    when [use_coeffs] is true. *)
Theorem assemble_raises_unless_accepted (rv : revision) (self : Solver) :
  mode self = "heat" \/ mode self = "stress" ->
  ~ assemble_accepts rv self ->
  exists exc self', assemble_of to rv self = (Raise exc, self').
Proof.
  intros Hmode Hno.
  destruct (assemble_of to rv self) as [[[]|exc] self'] eqn:E.
  - destruct (Hno (assemble_returned_accepts rv self self' Hmode E)).
  - exists exc, self'. reflexivity.
Qed.
End AssembleReturns.

(** The heat system on the ring with a boundary condition that lacks
    ["v_t"]: the revision [src], which reads it with coefficients, raises;
    and so does either revision on a mesh of tetrahedra. *)
Lemma assemble_raises_unless_accepted_witness :
  (exists exc self',
      assemble_of (D := Demo.dolfin) nested_tensoroperations src
        (Demo.solver_without_v_t src) = (Raise exc, self'))
  /\ fst (assemble_of (D := Demo.dolfin) nested_tensoroperations fenicsR13
            (Demo.solver_without_v_t fenicsR13)) = Ok tt
  /\ (exists exc self',
         assemble_of (D := Demo.dolfin) nested_tensoroperations fenicsR13
           Demo.solver_on_block = (Raise exc, self')).
Proof.
  split; [|split].
  - apply (assemble_raises_unless_accepted (D := Demo.dolfin)
             nested_tensoroperations src (Demo.solver_without_v_t src)).
    + left. reflexivity.
    + intros (_ & _ & _ & _ & Hkeys & _).
      destruct (Hkeys "v_t" ltac:(right; left; reflexivity) 3000%Z
                  ltac:(left; reflexivity)) as (entry & value & He & Hv).
      vm_compute in He. injection He as <-. discriminate Hv.
  - vm_compute. reflexivity.
  - apply (assemble_raises_unless_accepted (D := Demo.dolfin)
             nested_tensoroperations fenicsR13 Demo.solver_on_block).
    + right. reflexivity.
    + intros (_ & Hdim & _). discriminate Hdim.
Defined.

(** ** [assemble] sets the forms at its end *)

Section AssembleAtomic.
Context {D : Dolfin} (to : tensoroperations).

Lemma forms_kept_stateless {A} (c : M Solver A) :
  stateless c -> forms_unchanged_on_raise c.
Proof. intros [r Hr] self e self' H. rewrite Hr in H. congruence. Qed.

Lemma forms_kept_bind {A B} (c : M Solver A) (k : A -> M Solver B) :
  preserves forms_of c -> (forall a, forms_unchanged_on_raise (k a)) ->
  forms_unchanged_on_raise (bind c k).
Proof.
  intros Hc Hk self e self' H. unfold bind in H. specialize (Hc self).
  unfold forms_of in Hc.
  destruct (c self) as [[a|e0] s1]; cbn [snd] in Hc.
  - rewrite <- Hc. apply (Hk a s1 e self' H).
  - injection H as _ <-. exact Hc.
Qed.

Lemma forms_kept_two_assignments (f g : Solver -> Solver) :
  forms_unchanged_on_raise (bind (modify f) (fun _ => modify g)).
Proof. intros self e self' H. discriminate H. Qed.

Lemma preserves_forms_check_bcs : preserves forms_of check_bcs.
Proof. intros self. rewrite check_bcs_state. reflexivity. Qed.

Lemma preserves_forms_define_measures msh boundaries :
  preserves forms_of (define_measures msh boundaries).
Proof. intros self. reflexivity. Qed.

(** Proves [stateless] of the reads between the check and the
    assignments. *)
Ltac reads :=
  cbv zeta;
  lazymatch goal with
  | |- stateless (bind _ _) => apply stateless_bind; [reads | intros; reads]
  | |- stateless (R13.heat_forms _) => apply heat_forms_stateless
  | |- stateless (R13.stress_forms _) => apply stress_forms_stateless
  | |- stateless (Src.forms_with_coeffs _ _) => apply forms_with_coeffs_stateless
  | |- stateless (Src.forms_without_coeffs _ _) =>
      apply forms_without_coeffs_stateless
  | |- stateless (tangent_of_normal _) => apply stateless_tangent_of_normal
  | |- stateless (match ?x with _ => _ end) => destruct x; reads
  | |- _ =>
      first [ apply stateless_ret | apply stateless_raise | apply stateless_lift
            | apply stateless_require ]
  end.

Ltac atomic :=
  cbv zeta;
  lazymatch goal with
  | |- forms_unchanged_on_raise (bind (modify _) _) =>
      apply forms_kept_two_assignments
  | |- forms_unchanged_on_raise (bind check_bcs _) =>
      apply forms_kept_bind; [apply preserves_forms_check_bcs | intros; atomic]
  | |- forms_unchanged_on_raise (bind (define_measures _ _) _) =>
      apply forms_kept_bind;
      [apply preserves_forms_define_measures | intros; atomic]
  | |- forms_unchanged_on_raise (bind this _) =>
      apply forms_kept_bind;
      [intros ?; reflexivity | intros; atomic]
  | |- forms_unchanged_on_raise (bind _ _) =>
      apply forms_kept_bind;
      [apply preserves_stateless; reads | intros; atomic]
  | |- forms_unchanged_on_raise (match ?x with _ => _ end) => destruct x; atomic
  | |- forms_unchanged_on_raise _ => apply forms_kept_stateless; reads
  end.

Lemma assemble_keeps_forms_on_raise (rv : revision) :
  forms_unchanged_on_raise (assemble_of to rv).
Proof.
  destruct rv; cbn [assemble_of]; unfold R13.assemble, Src.assemble;
    unfold getitem, not_none; atomic.
Qed.

Lemma assemble_keeps_attributes_on_raise (rv : revision) :
  attributes_unchanged_on_raise (assemble_of to rv).
Proof.
  intros self exc self' H.
  pose proof (assemble_keeps_forms_on_raise rv self exc self' H) as Hforms.
  destruct (frames_of_methods to rv) as (_ & Hframe & _).
  specialize (Hframe self). rewrite H in Hframe. cbn [snd] in Hframe.
  unfold spaces_of, errors_of in Hframe.
  injection Hframe as Hc He Hf Hme Hmf Hs Hes Hl2 Hlinf _ _.
  injection Hforms as Ha Hb.
  unfold attributes_of. congruence.
Qed.

(** A run of [assemble] that returns binds the two measures and assigns
    the two forms, and nothing else. *)
Lemma assemble_assigns (rv : revision) (self self' : Solver) :
  mode self = "heat" \/ mode self = "stress" ->
  assemble_of to rv self = (Ok tt, self') ->
  exists a b,
    self' = set_form_b (Some b) (set_form_a (Some a) (measures_defined self)).
Proof.
  intros Hmode H. destruct rv; cbn [assemble_of] in H.
  - apply R13_assemble_inv in H. destruct H as [Hheat Hstress].
    destruct Hmode as [Hmode|Hmode].
    + destruct (Hheat Hmode) as (a1 & a2 & l1 & l2 & _ & ->).
      eexists _, _. reflexivity.
    + destruct (Hstress Hmode) as (a1 & l1 & a2 & l2 & a3 & l3 & _ & ->).
      eexists _, _. reflexivity.
  - apply Src_assemble_inv in H. destruct H as [Hheat Hstress].
    destruct Hmode as [Hmode|Hmode].
    + destruct (Hheat Hmode) as (a1 & l1 & a2 & l2 & _ & ->).
      eexists _, _. reflexivity.
    + destruct (Hstress Hmode) as (heat & a3 & l3 & a4 & l4 & a5 & l5 & _ & ->).
      eexists _, _. reflexivity.
Qed.

(** The forms are made of the attributes of [__init__] alone. *)
Lemma assemble_forms_by_config (rv : revision) (s1 s2 s1' s2' : Solver) :
  config s1 = config s2 ->
  mode s1 = "heat" \/ mode s1 = "stress" ->
  assemble_of to rv s1 = (Ok tt, s1') ->
  assemble_of to rv s2 = (Ok tt, s2') ->
  forms_of s1' = forms_of s2'.
Proof.
  intros Hc Hmode H1 H2.
  assert (Hmode2 : mode s2 = mode s1) by (rewrite Hc; reflexivity).
  assert (Hco : use_coeffs s2 = use_coeffs s1) by (rewrite Hc; reflexivity).
  destruct rv; cbn [assemble_of] in H1, H2.
  - apply R13_assemble_inv in H1. apply R13_assemble_inv in H2.
    rewrite Hmode2 in H2.
    rewrite <- (stab_of_config _ _ Hc), <- (heat_forms_config _ _ Hc),
      <- (stress_forms_config _ _ Hc) in H2.
    destruct H1 as [Hheat1 Hstress1]. destruct H2 as [Hheat2 Hstress2].
    destruct Hmode as [Hmode|Hmode].
    + destruct (Hheat1 Hmode) as (a1 & a2 & l1 & l2 & Hf1 & ->).
      destruct (Hheat2 Hmode) as (b1 & b2 & m1 & m2 & Hf2 & ->).
      destruct (stateless_inv _ _ _ _ (heat_forms_stateless s1) Hf1) as [_ Hall].
      rewrite Hall in Hf2. injection Hf2 as <- <- <- <-. reflexivity.
    + destruct (Hstress1 Hmode) as (a1 & l1 & a2 & l2 & a3 & l3 & Hf1 & ->).
      destruct (Hstress2 Hmode) as (b1 & m1 & b2 & m2 & b3 & m3 & Hf2 & ->).
      destruct (stateless_inv _ _ _ _ (stress_forms_stateless s1) Hf1) as [_ Hall].
      rewrite Hall in Hf2. injection Hf2 as <- <- <- <- <- <-. reflexivity.
  - apply Src_assemble_inv in H1. apply Src_assemble_inv in H2.
    rewrite Hmode2, Hco in H2.
    rewrite <- (stab_of_config _ _ Hc), <- (forms_with_coeffs_config to _ _ Hc),
      <- (forms_without_coeffs_config to _ _ Hc) in H2.
    destruct H1 as [Hheat1 Hstress1]. destruct H2 as [Hheat2 Hstress2].
    destruct Hmode as [Hmode|Hmode].
    + destruct (Hheat1 Hmode) as (a1 & l1 & a2 & l2 & Hf1 & ->).
      destruct (Hheat2 Hmode) as (b1 & m1 & b2 & m2 & Hf2 & ->).
      destruct (use_coeffs s1).
      * destruct Hf1 as [stress1 Hf1]. destruct Hf2 as [stress2 Hf2].
        destruct (stateless_inv _ _ _ _ (forms_with_coeffs_stateless to s1) Hf1)
          as [_ Hall].
        rewrite Hall in Hf2. injection Hf2 as <- <- <- <- _. reflexivity.
      * destruct (stateless_inv _ _ _ _ (forms_without_coeffs_stateless to s1) Hf1)
          as [_ Hall].
        rewrite Hall in Hf2. injection Hf2 as <- <- <- <-. reflexivity.
    + destruct (Hstress1 Hmode) as (h1 & a3 & l3 & a4 & l4 & a5 & l5 & Hf1 & ->).
      destruct (Hstress2 Hmode) as (h2 & b3 & m3 & b4 & m4 & b5 & m5 & Hf2 & ->).
      destruct (stateless_inv _ _ _ _ (forms_with_coeffs_stateless to s1) Hf1)
        as [_ Hall].
      rewrite Hall in Hf2. injection Hf2 as _ <- <- <- <- <- <-. reflexivity.
Qed.

(** X10.  [assemble] assigns the forms at its end: when it raises, every
    attribute of the solver is as it was; when it returns (modes "heat" and
    "stress") it has bound [df.ds] and [df.dS] anew, assigned [form_a] and
    [form_b], and done nothing else; and with the mixed spaces set,
    [assemble] called again returns and leaves every attribute of the
    solver, the two forms among them, as the first call left it. *)
Theorem assemble_assigns_forms_at_its_end (rv : revision) (self self' : Solver) :
  mode self = "heat" \/ mode self = "stress" ->
  assemble_of to rv self = (Ok tt, self') ->
  (exists a b,
      self' = set_form_b (Some b) (set_form_a (Some a) (measures_defined self)))
  /\ (mixed_spaces_set self ->
      exists self'',
        assemble_of to rv self' = (Ok tt, self'')
        /\ attributes_of self'' = attributes_of self')
  /\ attributes_unchanged_on_raise (assemble_of to rv).
Proof.
  intros Hmode H. split; [|split].
  - apply (assemble_assigns rv self self' Hmode H).
  - intros Hset.
    destruct (assemble_assigns rv self self' Hmode H) as (a & b & Hself').
    assert (Hc : config self' = config self) by (rewrite Hself'; reflexivity).
    assert (Hacc : assemble_accepts rv self)
      by (apply (assemble_returns_accepts to rv self Hset Hmode);
          exists self'; exact H).
    assert (Hacc' : assemble_accepts rv self').
    { unfold assemble_accepts, unprescribed, bc_keys_read, planar_mesh in *.
      rewrite Hc. exact Hacc. }
    assert (Hset' : mixed_spaces_set self')
      by (rewrite Hself'; exact Hset).
    assert (Hmode' : mode self' = "heat" \/ mode self' = "stress")
      by (rewrite Hc; exact Hmode).
    destruct (proj2 (assemble_returns_accepts to rv self' Hset' Hmode') Hacc')
      as [self'' H''].
    exists self''. split; [exact H''|].
    destruct (assemble_assigns rv self' self'' Hmode' H'') as (a' & b' & Hself'').
    pose proof (assemble_forms_by_config rv self self' self' self''
                  (eq_sym Hc) Hmode H H'') as Hforms.
    subst self''. unfold forms_of in Hforms.
    cbn [form_a form_b set_form_a set_form_b] in Hforms.
    rewrite Hself' in Hforms.
    cbn [form_a form_b set_form_a set_form_b] in Hforms.
    injection Hforms as <- <-. rewrite Hself'. reflexivity.
  - apply assemble_keeps_attributes_on_raise.
Qed.
End AssembleAtomic.

(** The stress system on the ring: assembled again, the forms are the ones
    the first call stored. *)
Lemma assemble_assigns_forms_at_its_end_witness :
  exists self'',
    assemble_of (D := Demo.dolfin) nested_tensoroperations src
      (Demo.solver_assembled src "stress" true 2) = (Ok tt, self'')
    /\ attributes_of self''
       = attributes_of (Demo.solver_assembled src "stress" true 2).
Proof.
  destruct (assemble_assigns_forms_at_its_end (D := Demo.dolfin)
              nested_tensoroperations src
              (Demo.solver_with_spaces src "stress" true 2)
              (Demo.solver_assembled src "stress" true 2)
              (or_intror eq_refl)
              (returned (assemble_of (D := Demo.dolfin)
                           nested_tensoroperations src)
                 (Demo.solver_with_spaces src "stress" true 2) tt
                 ltac:(vm_compute; reflexivity)))
    as (_ & Hagain & _).
  apply Hagain. do 3 eexists. repeat split; vm_compute; reflexivity.
Defined.

(** ** The boundary data in [form_b] *)

Section LinearForm.
Context {D : Dolfin} (to : tensoroperations).

Lemma integrals_add (a b : pyform) :
  integrals (a +@ b) = (integrals a ++ integrals b)%list.
Proof.
  destruct a as [|f], b as [|g]; cbn; try reflexivity.
  symmetry. apply app_nil_r.
Qed.

Lemma integrals_form_sum_times {A} (g : A -> point -> Q) (m : A -> measure)
    (l : list A) :
  integrals (form_sum (map (fun a => times (g a) (m a)) l))
  = map (fun a => {| integrand := g a; measure_of := m a |}) l.
Proof.
  unfold form_sum.
  assert (forall acc,
             integrals (fold_left form_add
                          (map (fun a => times (g a) (m a)) l) acc)
             = (integrals acc
                ++ map (fun a => {| integrand := g a; measure_of := m a |}) l)%list)
    as Hacc.
  { induction l as [|a l IH]; intros acc; cbn [map fold_left].
    - symmetry. apply app_nil_r.
    - rewrite IH, integrals_add, <- app_assoc. reflexivity. }
  apply (Hacc PyZero).
Qed.

(** The list of boundary terms that was built. *)
Lemma boundary_terms_built (bcs : list (Z * list (string * Q))) (key : string)
    (g : Z -> Q -> pyform) (keys : list Z) (self self' : Solver) l :
  comprehension (fun bc => v <- bc_value bcs bc key ;; ret (g bc v)) keys self
  = (Ok l, self') ->
  self' = self /\ l = map (fun bc => g bc (boundary_value bcs key bc)) keys.
Proof.
  intros H.
  destruct (stateless_inv _ _ _ _ (boundary_terms_stateless bcs key g keys) H)
    as [-> _].
  split; [reflexivity|].
  revert l H. induction keys as [|k keys IH]; intros l H; cbn [comprehension] in H.
  - apply ret_inv in H. destruct H as [-> _]. reflexivity.
  - apply bind_inv in H. destruct H as (y & s1 & Hy & H).
    apply bind_inv in H. destruct H as (ys & s2 & Hys & H).
    apply ret_inv in H. destruct H as [-> _].
    apply bind_inv in Hy. destruct Hy as (v & s3 & Hv & Hy).
    apply ret_inv in Hy. destruct Hy as [-> ->].
    unfold bc_value in Hv.
    apply bind_inv in Hv. destruct Hv as (entry & s4 & He & Hv).
    apply require_inv in He. destruct He as [He ->].
    apply require_inv in Hv. destruct Hv as [Hv ->].
    destruct (stateless_inv _ _ _ _ (boundary_terms_stateless bcs key g keys) Hys)
      as [-> _].
    cbn [map]. f_equal.
    + unfold boundary_value. rewrite He, Hv. reflexivity.
    + apply IH, Hys.
Qed.

(** Steps of a builder that returned, keeping the list that was built. *)
Ltac builder_steps H :=
  repeat
    (let x := fresh "x" in
     let s1 := fresh "s" in
     let H1 := fresh "Hstep" in
     apply bind_inv in H; destruct H as (x & s1 & H1 & H);
     first
       [ apply lift_inv in H1; destruct H1 as [H1 ->]
       | apply boundary_terms_built in H1; destruct H1 as [-> ->] ]);
  apply ret_inv in H; destruct H as [H ->].

Ltac linear_form :=
  unfold integrals_at;
  rewrite ?integrals_add;
  rewrite integrals_form_sum_times;
  rewrite !map_app, map_map; reflexivity.

Lemma heat_forms_linear (self state state' : Solver) a1 a2 l1 l2 (x : point) :
  R13.heat_forms self state = (Ok (a1, a2, l1, l2), state') ->
  integrals_at x (Some (l1 +@ l2))
  = (map (fun bc =>
            (df_ds (Some bc),
             (if use_coeffs self then (-5)/2 else (-1))
             * r_n x * boundary_value (bcs self) "theta_w" bc))
         (dict_keys (bcs self))
     ++ [(df_dx,
          - (Expression_eval (heat_source self) (coords (x plus))
             * val (kappa x)))])%list.
Proof.
  unfold R13.heat_forms. intros H.
  destruct (use_coeffs self); builder_steps H; injection H as -> -> -> ->;
    linear_form.
Qed.

Lemma stress_forms_linear (self state state' : Solver) a1 l1 a2 l2 a3 l3
    (x : point) :
  R13.stress_forms self state = (Ok (a1, l1, a2, l2, a3, l3), state') ->
  integrals_at x (Some (l1 +@ l2 +@ l3))
  = (map (fun bc =>
            (df_ds (Some bc),
             (-2) * psi_nt x * boundary_value (bcs self) "v_t" bc))
         (dict_keys (bcs self))
     ++ [(df_dx, 0 * div1 (v x));
         (df_dx,
          - (Expression_eval (mass_source self) (coords (x plus))
             * val (q x)))])%list.
Proof.
  unfold R13.stress_forms. intros H.
  builder_steps H; injection H as -> -> -> -> -> ->.
  unfold integrals_at. rewrite !integrals_add, integrals_form_sum_times.
  rewrite !map_app, map_map. rewrite <- app_assoc. reflexivity.
Qed.

Lemma forms_with_coeffs_linear (self state state' : Solver)
    a1 l1 a2 l2 a3 l3 a4 l4 a5 l5 (x : point) :
  Src.forms_with_coeffs to self state
  = (Ok ((a1, l1, a2, l2), (a3, l3, a4, l4, a5, l5)), state') ->
  integrals_at x (Some (l1 +@ l2))
  = (map (fun bc =>
            (df_ds (Some bc),
             (-5)/2 * r_n x * boundary_value (bcs self) "theta_w" bc))
         (dict_keys (bcs self))
     ++ [(df_dx,
          - (Expression_eval (heat_source self) (coords (x plus))
             * val (kappa x)))])%list
  /\ integrals_at x (Some (l3 +@ l4 +@ l5))
     = (map (fun bc =>
               (df_ds (Some bc),
                (-2) * psi_nt x * boundary_value (bcs self) "v_t" bc))
            (dict_keys (bcs self))
        ++ [(df_dx, 0 * div1 (v x));
            (df_dx,
             - (Expression_eval (mass_source self) (coords (x plus))
                * val (q x)))])%list.
Proof.
  unfold Src.forms_with_coeffs. intros H.
  builder_steps H; injection H as -> -> -> -> -> -> -> -> -> ->.
  split.
  - linear_form.
  - unfold integrals_at. rewrite !integrals_add, integrals_form_sum_times.
    rewrite !map_app, map_map. rewrite <- app_assoc. reflexivity.
Qed.

Lemma forms_without_coeffs_linear (self state state' : Solver) a1 l1 a2 l2
    (x : point) :
  Src.forms_without_coeffs to self state = (Ok (a1, l1, a2, l2), state') ->
  integrals_at x (Some (l1 +@ l2))
  = (map (fun bc =>
            (df_ds (Some bc),
             (-1) * r_n x * boundary_value (bcs self) "theta_w" bc))
         (dict_keys (bcs self))
     ++ [(df_dx,
          - (Expression_eval (heat_source self) (coords (x plus))
             * val (kappa x)))])%list.
Proof.
  unfold Src.forms_without_coeffs. intros H.
  builder_steps H; injection H as -> -> -> ->. linear_form.
Qed.

(** The integrals of a list of boundary terms over one measure. *)
Lemma filter_boundary_terms (g : Z -> Q) (keys : list Z) (m : measure) :
  filter (fun mi : measure * Q => measure_eqb (fst mi) m)
    (map (fun bc => (df_ds (Some bc), g bc)) keys)
  = match m with
    | df_ds (Some id) =>
        map (fun bc => (df_ds (Some bc), g bc))
          (filter (fun bc => Z.eqb bc id) keys)
    | _ => []
    end.
Proof.
  induction keys as [|k keys IH]; cbn [map filter fst].
  - destruct m as [|[id|]|]; reflexivity.
  - rewrite IH. destruct m as [|[id|]|]; cbn [measure_eqb]; try reflexivity.
    destruct (Z.eqb k id); reflexivity.
Qed.

Lemma integrands_over_form_b (g : Z -> Q) (keys : list Z)
    (cells : list (measure * Q)) (m : measure) (x : point) (form : option pyform) :
  integrals_at x form
  = (map (fun bc => (df_ds (Some bc), g bc)) keys ++ cells)%list ->
  integrands_over m x form
  = (match m with
     | df_ds (Some id) => map g (filter (fun bc => Z.eqb bc id) keys)
     | _ => []
     end
     ++ map snd (filter (fun mi => measure_eqb (fst mi) m) cells))%list.
Proof.
  intros E. unfold integrands_over. rewrite E, filter_app, map_app.
  rewrite filter_boundary_terms. f_equal.
  destruct m as [|[id|]|]; try reflexivity. apply map_map.
Qed.

Lemma form_b_integrals (rv : revision) (self self' : Solver) (x : point) :
  assemble_of to rv self = (Ok tt, self') ->
  (mode self = "heat" ->
   integrals_at x (form_b self')
   = (map (fun bc =>
             (df_ds (Some bc),
              (if use_coeffs self then (-5)/2 else (-1))
              * r_n x * boundary_value (bcs self) "theta_w" bc))
          (dict_keys (bcs self))
      ++ [(df_dx,
           - (Expression_eval (heat_source self) (coords (x plus))
              * val (kappa x)))])%list)
  /\ (mode self = "stress" ->
      integrals_at x (form_b self')
      = (map (fun bc =>
                (df_ds (Some bc),
                 (-2) * psi_nt x * boundary_value (bcs self) "v_t" bc))
             (dict_keys (bcs self))
         ++ [(df_dx, 0 * div1 (v x));
             (df_dx,
              - (Expression_eval (mass_source self) (coords (x plus))
                 * val (q x)))])%list).
Proof.
  intros H. destruct rv; cbn [assemble_of] in H.
  - apply R13_assemble_inv in H. destruct H as [Hheat Hstress]. split.
    + intros Hmode. destruct (Hheat Hmode) as (a1 & a2 & l1 & l2 & Hf & ->).
      cbn [form_b set_form_b]. apply (heat_forms_linear _ _ _ _ _ _ _ _ Hf).
    + intros Hmode.
      destruct (Hstress Hmode) as (a1 & l1 & a2 & l2 & a3 & l3 & Hf & ->).
      cbn [form_b set_form_b].
      apply (stress_forms_linear _ _ _ _ _ _ _ _ _ _ Hf).
  - apply Src_assemble_inv in H. destruct H as [Hheat Hstress]. split.
    + intros Hmode. destruct (Hheat Hmode) as (a1 & l1 & a2 & l2 & Hf & ->).
      cbn [form_b set_form_b]. destruct (use_coeffs self).
      * destruct Hf as [[[[[[a3 l3] a4] l4] a5] l5] Hf].
        apply (forms_with_coeffs_linear _ _ _ _ _ _ _ _ _ _ _ _ _ _ Hf).
      * apply (forms_without_coeffs_linear _ _ _ _ _ _ _ _ Hf).
    + intros Hmode.
      destruct (Hstress Hmode)
        as ([[[a1 l1] a2] l2] & a3 & l3 & a4 & l4 & a5 & l5 & Hf & ->).
      cbn [form_b set_form_b].
      apply (forms_with_coeffs_linear _ _ _ _ _ _ _ _ _ _ _ _ _ _ Hf).
Qed.

(** X11.  The linear form [assemble] stores has, over the boundary part
    [ds(id)], one integral for each key of [bcs] that is [id] (none for an
    [id] that is no key), and none over the whole boundary or over the
    interior facets.  In mode "heat" the
    integrand over [ds(id)] is [r_n] times [bcs[id]["theta_w"]] times
    [-5/2] ([-1] without coefficients), and the one cell integrand is the
    heat source times [kappa], negated; in mode "stress" it is [psi_nt]
    times [bcs[id]["v_t"]] times [-2], and the cell integrands are
    [0 * div(v)] and the mass source times [q], negated, in this order. *)
Theorem form_b_holds_boundary_data (rv : revision) (self self' : Solver)
    (x : point) :
  assemble_of to rv self = (Ok tt, self') ->
  (mode self = "heat" ->
   (forall id,
       integrands_over (df_ds (Some id)) x (form_b self')
       = map (fun bc =>
                (if use_coeffs self then (-5)/2 else (-1))
                * r_n x * boundary_value (bcs self) "theta_w" bc)
           (filter (fun bc => Z.eqb bc id) (dict_keys (bcs self))))
   /\ integrands_over df_dx x (form_b self')
      = [- (Expression_eval (heat_source self) (coords (x plus))
            * val (kappa x))]
   /\ integrands_over (df_ds None) x (form_b self') = []
   /\ integrands_over df_dS x (form_b self') = [])
  /\ (mode self = "stress" ->
      (forall id,
          integrands_over (df_ds (Some id)) x (form_b self')
          = map (fun bc =>
                   (-2) * psi_nt x * boundary_value (bcs self) "v_t" bc)
              (filter (fun bc => Z.eqb bc id) (dict_keys (bcs self))))
      /\ integrands_over df_dx x (form_b self')
         = [0 * div1 (v x);
            - (Expression_eval (mass_source self) (coords (x plus))
               * val (q x))]
      /\ integrands_over (df_ds None) x (form_b self') = []
      /\ integrands_over df_dS x (form_b self') = []).
Proof.
  intros H. destruct (form_b_integrals rv self self' x H) as [Hheat Hstress].
  split.
  - intros Hmode. specialize (Hheat Hmode). split; [|split; [|split]].
    + intros id.
      rewrite (integrands_over_form_b _ _ _ (df_ds (Some id)) _ _ Hheat).
      cbn. apply app_nil_r.
    + rewrite (integrands_over_form_b _ _ _ df_dx _ _ Hheat). reflexivity.
    + rewrite (integrands_over_form_b _ _ _ (df_ds None) _ _ Hheat). reflexivity.
    + rewrite (integrands_over_form_b _ _ _ df_dS _ _ Hheat). reflexivity.
  - intros Hmode. specialize (Hstress Hmode). split; [|split; [|split]].
    + intros id.
      rewrite (integrands_over_form_b _ _ _ (df_ds (Some id)) _ _ Hstress).
      cbn. apply app_nil_r.
    + rewrite (integrands_over_form_b _ _ _ df_dx _ _ Hstress). reflexivity.
    + rewrite (integrands_over_form_b _ _ _ (df_ds None) _ _ Hstress). reflexivity.
    + rewrite (integrands_over_form_b _ _ _ df_dS _ _ Hstress). reflexivity.
Qed.
End LinearForm.

(** The heat system on the ring: over the outer boundary [ds(3100)] the
    linear form has one integral, with the value [1/2] of [theta_w] there;
    over a part of the boundary without condition it has none. *)
Lemma form_b_holds_boundary_data_witness :
  length (integrands_over (df_ds (Some 3100%Z)) Demo.at_here
            (form_b (Demo.solver_assembled fenicsR13 "heat" true 2))) = 1%nat
  /\ integrands_over (df_ds (Some 17%Z)) Demo.at_here
       (form_b (Demo.solver_assembled fenicsR13 "heat" true 2)) = []
  /\ boundary_value (bcs (Demo.solver_with_spaces fenicsR13 "heat" true 2))
       "theta_w" 3100 == 1/2.
Proof.
  destruct (form_b_holds_boundary_data (D := Demo.dolfin)
              nested_tensoroperations fenicsR13
              (Demo.solver_with_spaces fenicsR13 "heat" true 2)
              (Demo.solver_assembled fenicsR13 "heat" true 2)
              Demo.at_here
              (returned (assemble_of (D := Demo.dolfin)
                           nested_tensoroperations fenicsR13)
                 (Demo.solver_with_spaces fenicsR13 "heat" true 2) tt
                 ltac:(vm_compute; reflexivity)))
    as [Hheat _].
  destruct (Hheat eq_refl) as (Hds & _).
  split; [|split].
  - rewrite (Hds 3100%Z). vm_compute. reflexivity.
  - rewrite (Hds 17%Z). vm_compute. reflexivity.
  - vm_compute. reflexivity.
Defined.

(** ** Modes the methods do not know *)

Section OtherModes.
Context {D : Dolfin}.

(** X12.  In a mode that is none of "heat", "stress" and "coupled", the
    methods of [src/fenicsR13/src/solver.py] report nothing: [assemble]
    (on a two-dimensional mesh whose boundary ids are all prescribed)
    returns with no form assembled, having bound [df.ds] and [df.dS] anew
    and done nothing else; [solve] and [calc_errors] return with the solver
    as it was and no system solved; so does [calc_errors] of
    [src/src/solver.py], whose [solve] raises [UnboundLocalError] for its
    local [w], with the solver as it was.  In mode "coupled" the methods of
    the former do the same. *)
Theorem unknown_mode_is_not_reported (self : Solver) :
  mode self <> "heat" -> mode self <> "stress" ->
  ((forall edge_id, ~ unprescribed self edge_id) -> planar_mesh self ->
   R13.assemble self = (Ok tt, measures_defined self))
  /\ R13.solve self = (Ok tt, self)
  /\ R13.calc_errors self = (Ok tt, self)
  /\ (mode self <> "coupled" ->
      Src.calc_errors self = (Ok tt, self)
      /\ Src.solve self = (Raise (UnboundLocalError "w"), self)).
Proof.
  intros Hh Hs.
  apply String.eqb_neq in Hh. apply String.eqb_neq in Hs.
  split; [|split; [|split]].
  - intros Hchk Hdim. unfold R13.assemble.
    eapply bind_exec; [apply check_bcs_returns; exact Hchk|].
    eapply bind_exec; [apply this_run|]. cbv beta zeta.
    rewrite (measures_prefix_run _ self Hdim).
    rewrite Hh, Hs. reflexivity.
  - unfold R13.solve. eapply bind_exec; [apply this_run|]. cbv beta.
    rewrite Hh, Hs. reflexivity.
  - unfold R13.calc_errors. eapply bind_exec; [apply this_run|]. cbv beta.
    rewrite Hh, Hs. reflexivity.
  - intros Hc. apply String.eqb_neq in Hc. split.
    + unfold Src.calc_errors. eapply bind_exec; [apply this_run|]. cbv beta.
      rewrite Hh, Hs, Hc. reflexivity.
    + unfold Src.solve. eapply bind_exec; [apply this_run|]. cbv beta.
      rewrite Hh, Hs, Hc. reflexivity.
Qed.

End OtherModes.

Lemma unknown_mode_is_not_reported_witness :
  R13.solve (D := Demo.dolfin) (Demo.solver "haet" true 2)
  = (Ok tt, Demo.solver "haet" true 2)
  /\ Src.solve (D := Demo.dolfin) (Demo.solver "haet" true 2)
     = (Raise (UnboundLocalError "w"), Demo.solver "haet" true 2)
  /\ form_a (snd (R13.assemble (D := Demo.dolfin) (Demo.solver "haet" true 2)))
     = None.
Proof.
  destruct (unknown_mode_is_not_reported (D := Demo.dolfin)
              (Demo.solver "haet" true 2)
              ltac:(vm_compute; discriminate) ltac:(vm_compute; discriminate))
    as (Hasm & Hsolve & _ & Hsrc).
  split; [exact Hsolve|]. split.
  - exact (proj2 (Hsrc ltac:(vm_compute; discriminate))).
  - rewrite Hasm; [reflexivity| |reflexivity].
    intros edge_id (Hin & Hne & Hkey). vm_compute in Hin, Hkey.
    intuition congruence.
Defined.

(** ** The mean in the two revisions *)

Section MeanRevisions.
Context {D : Dolfin}.


End MeanRevisions.


(** ** The files and the errors of [calc_errors] *)

Section ErrorFiles.
Context {D : Dolfin}.

Lemma appends_bind {A B} (self0 : Solver) (l1 l2 : list string)
    (c : M Solver A) (k : A -> M Solver B) :
  appends_files self0 l1 c -> (forall a, appends_files self0 l2 (k a)) ->
  appends_files self0 (l1 ++ l2) (bind c k).
Proof.
  intros Hc Hk self b self' Hcfg H.
  apply bind_inv in H. destruct H as (a & s1 & Ha & H).
  destruct (Hc self a s1 Hcfg Ha) as [Hf1 Hc1].
  destruct (Hk a s1 b self' Hc1 H) as [Hf2 Hc2].
  split; [|exact Hc2]. rewrite Hf2, Hf1. symmetry. apply app_assoc.
Qed.

Lemma appends_stateless {A} (self0 : Solver) (c : M Solver A) :
  stateless c -> appends_files self0 [] c.
Proof.
  intros Hs self a self' Hcfg H.
  destruct (stateless_inv _ _ _ _ Hs H) as [-> _].
  split; [symmetry; apply app_nil_r | exact Hcfg].
Qed.

Lemma appends_this (self0 : Solver) : appends_files self0 [] this.
Proof.
  intros self a self' Hcfg H. apply this_inv in H. destruct H as [_ ->].
  split; [symmetry; apply app_nil_r | exact Hcfg].
Qed.

Lemma appends_modify (self0 : Solver) (f : Solver -> Solver) :
  (forall self, io (f self) = io self /\ config (f self) = config self) ->
  appends_files self0 [] (modify f).
Proof.
  intros Hf self a self' Hcfg H. apply modify_inv in H. subst self'.
  destruct (Hf self) as [Hio Hc]. unfold files_written. rewrite Hio, Hc.
  split; [symmetry; apply app_nil_r | exact Hcfg].
Qed.

Lemma appends_write_xdmf (self0 : Solver) (name : string) (field : Function) :
  appends_files self0 [xdmf_path self0 name] (write_xdmf name field).
Proof.
  intros self a self' Hcfg H. rewrite write_xdmf_run in H.
  injection H as _ <-. split; [|exact Hcfg].
  unfold files_written, add_io. cbn [io set_io].
  rewrite flat_map_app. cbn [flat_map app]. unfold xdmf_path.
  rewrite Hcfg. reflexivity.
Qed.

Lemma appends_files_eq {A} (self0 : Solver) (l l' : list string)
    (c : M Solver A) :
  appends_files self0 l c -> l = l' -> appends_files self0 l' c.
Proof. intros H <-. exact H. Qed.

Lemma componentwise_errors_stateless (field_e_i field_i : Function) :
  stateless (componentwise_errors field_e_i field_i).
Proof.
  unfold componentwise_errors, by_component.
  apply stateless_bind.
  - apply stateless_comprehension. intros i.
    apply stateless_bind; [apply stateless_require|]. intros e_i.
    apply stateless_bind; [apply stateless_require|]. intros s_i.
    apply stateless_ret.
  - intros l2. apply stateless_bind.
    + apply stateless_comprehension. intros i.
      apply stateless_bind; [apply stateless_require|]. intros e_i.
      apply stateless_bind; [apply stateless_require|]. intros s_i.
      unfold np_max_abs. destruct (vec_sub _ _);
        [apply stateless_raise | apply stateless_ret].
    + intros linf. apply stateless_ret.
Qed.

(** Collects the files a method writes, by its structure. *)
Ltac files :=
  cbv zeta;
  lazymatch goal with
  | |- appends_files _ _ (bind _ _) =>
      eapply appends_bind; [files | intros; files]
  | |- appends_files _ _ this => apply appends_this
  | |- appends_files _ _ (modify _) =>
      apply appends_modify; intros; split; reflexivity
  | |- appends_files _ _ (write_xdmf _ _) => apply appends_write_xdmf
  | |- appends_files _ _ (componentwise_errors _ _) =>
      apply appends_stateless, componentwise_errors_stateless
  | |- appends_files _ _ (match ?x with _ => _ end) => destruct x; files
  | |- appends_files _ _ _ =>
      apply appends_stateless;
      first [ apply stateless_ret | apply stateless_raise
            | apply stateless_require ]
  end.

Lemma calc_errors_heat_files (self0 : Solver) :
  appends_files self0 (error_files self0 "theta" ++ error_files self0 "s")
    calc_errors_heat.
Proof.
  eapply appends_files_eq.
  - unfold calc_errors_heat, calc_scalarfield_errors, calc_vectorfield_errors,
      getitem, not_none. files.
  - reflexivity.
Qed.

Lemma calc_errors_stress_files (self0 : Solver) :
  appends_files self0
    (error_files self0 "p" ++ error_files self0 "u"
     ++ error_files self0 "sigma")
    calc_errors_stress.
Proof.
  eapply appends_files_eq.
  - unfold calc_errors_stress, calc_scalarfield_errors, calc_vectorfield_errors,
      calc_tensorfield_errors, getitem, not_none. files.
  - reflexivity.
Qed.

(** The mode is "heat", "stress", "coupled" or another one. *)
Lemma mode_cases (m : string) :
  m = "heat" \/ m = "stress" \/ m = "coupled"
  \/ ((m =? "heat") = false /\ (m =? "stress") = false
      /\ (m =? "coupled") = false).
Proof.
  destruct (String.eqb_spec m "heat") as [->|_]; [tauto|].
  destruct (String.eqb_spec m "stress") as [->|_]; [tauto|].
  destruct (String.eqb_spec m "coupled") as [->|_]; tauto.
Qed.

Lemma block_returned (block : M Solver unit) (self self' : Solver) :
  bind block (fun _ => ret tt) self = (Ok tt, self') ->
  block self = (Ok tt, self').
Proof.
  intros H. apply bind_inv in H. destruct H as ([] & s1 & Hb & H).
  apply ret_inv in H. destruct H as [_ ->]. exact Hb.
Qed.

(** X14.  A run of [calc_errors] that returns has written two files for
    each field it computes the errors of, in the order of the fields: the
    projected difference under ["difference_" + field] and the interpolated
    exact solution under [field + "_e"]; these are the fields of the mode
    (none in a mode the revision does not know). *)
Theorem calc_errors_writes_two_files_per_field (rv : revision)
    (self self' : Solver) :
  calc_errors_of rv self = (Ok tt, self') ->
  files_written self'
  = (files_written self
     ++ flat_map (error_files self) (error_fields rv (mode self)))%list.
Proof.
  intros H.
  assert (Hheat : forall s', calc_errors_heat self = (Ok tt, s') ->
            files_written s'
            = (files_written self
               ++ error_files self "theta" ++ error_files self "s")%list)
    by (intros s' Hs; apply (calc_errors_heat_files self self tt s' eq_refl Hs)).
  assert (Hstress : forall s0 s', config s0 = config self ->
            calc_errors_stress s0 = (Ok tt, s') ->
            files_written s'
            = (files_written s0
               ++ error_files self "p" ++ error_files self "u"
               ++ error_files self "sigma")%list)
    by (intros s0 s' Hc Hs;
        apply (calc_errors_stress_files self s0 tt s' Hc Hs)).
  unfold error_fields, mode_fields.
  destruct rv; cbn [calc_errors_of] in H;
    unfold R13.calc_errors, Src.calc_errors in H; mstep H;
    destruct (mode_cases (mode self)) as [Hm|[Hm|[Hm|(Hm1 & Hm2 & Hm3)]]];
    try (rewrite Hm in *;
         change ("heat" =? "heat") with true in *;
         change ("heat" =? "stress") with false in *;
         change ("heat" =? "coupled") with false in *;
         change ("stress" =? "heat") with false in *;
         change ("stress" =? "stress") with true in *;
         change ("stress" =? "coupled") with false in *;
         change ("coupled" =? "heat") with false in *;
         change ("coupled" =? "stress") with false in *;
         change ("coupled" =? "coupled") with true in *);
    try (rewrite Hm1, Hm2, Hm3 in * );
    cbn [orb] in H; cbv iota in H; cbv iota.
  - apply block_returned in H. rewrite (Hheat _ H). cbn [flat_map].
    rewrite app_nil_r. reflexivity.
  - apply bind_inv in H. destruct H as ([] & s1 & Hr & H).
    apply ret_inv in Hr. destruct Hr as [_ ->].
    rewrite (Hstress self _ eq_refl H). cbn [flat_map].
    rewrite app_nil_r. reflexivity.
  - apply block_returned in H. apply ret_inv in H. destruct H as [_ ->].
    cbn [flat_map]. rewrite app_nil_r. reflexivity.
  - apply block_returned in H. apply ret_inv in H. destruct H as [_ ->].
    cbn [flat_map]. rewrite app_nil_r. reflexivity.
  - apply block_returned in H. rewrite (Hheat _ H). cbn [flat_map].
    rewrite app_nil_r. reflexivity.
  - apply bind_inv in H. destruct H as ([] & s1 & Hr & H).
    apply ret_inv in Hr. destruct Hr as [_ ->].
    rewrite (Hstress self _ eq_refl H). cbn [flat_map].
    rewrite app_nil_r. reflexivity.
  - apply bind_inv in H. destruct H as ([] & s1 & Hr & H).
    destruct (calc_errors_heat_files self self tt s1 eq_refl Hr) as [Hf Hc].
    rewrite (Hstress s1 _ Hc H), Hf. cbn [flat_map].
    rewrite app_nil_r, <- !app_assoc. reflexivity.
  - apply block_returned in H. apply ret_inv in H. destruct H as [_ ->].
    cbn [flat_map]. rewrite app_nil_r. reflexivity.
Qed.
End ErrorFiles.

(** The heat system on the ring, solved and with its exact solutions:
    four files. *)
Lemma calc_errors_writes_two_files_per_field_witness :
  files_written (snd (calc_errors_of (D := Demo.dolfin) fenicsR13
                        (Demo.solver_solved fenicsR13 "heat")))
  = (files_written (Demo.solver_solved fenicsR13 "heat")
     ++ ["out/difference_theta_0.xdmf"; "out/theta_e_0.xdmf";
         "out/difference_s_0.xdmf"; "out/s_e_0.xdmf"])%list.
Proof.
  rewrite (calc_errors_writes_two_files_per_field (D := Demo.dolfin) fenicsR13
             (Demo.solver_solved fenicsR13 "heat")
             (snd (calc_errors_of (D := Demo.dolfin) fenicsR13
                     (Demo.solver_solved fenicsR13 "heat")))
             (returned (calc_errors_of (D := Demo.dolfin) fenicsR13)
                (Demo.solver_solved fenicsR13 "heat") tt
                ltac:(vm_compute; reflexivity))).
  apply f_equal. vm_compute. reflexivity.
Defined.

Section ErrorsAtTheEnd.
Context {D : Dolfin}.

Lemma errors_kept_bind {A B} (c : M Solver A) (k : A -> M Solver B) :
  preserves errors_of c -> (forall a, errors_unchanged_on_raise (k a)) ->
  errors_unchanged_on_raise (bind c k).
Proof.
  intros Hc Hk self e self' H. unfold bind in H. specialize (Hc self).
  destruct (c self) as [[a|e0] s1]; cbn [snd] in Hc.
  - rewrite (Hk a s1 e self' H). exact Hc.
  - injection H as _ <-. exact Hc.
Qed.

Lemma errors_kept_assignments2 (f g : Solver -> Solver) :
  errors_unchanged_on_raise (bind (modify f) (fun _ => modify g)).
Proof. intros self e self' H. discriminate H. Qed.

Lemma errors_kept_assignments3 (f g h : Solver -> Solver) :
  errors_unchanged_on_raise
    (bind (modify f) (fun _ => bind (modify g) (fun _ => modify h))).
Proof. intros self e self' H. discriminate H. Qed.

Lemma errors_kept_then_return (block : M Solver unit) :
  errors_unchanged_on_raise block ->
  errors_unchanged_on_raise (bind block (fun _ => ret tt)).
Proof.
  intros Hb self e self' H. unfold bind in H.
  destruct (block self) as [[u|e0] s1] eqn:E; [discriminate H|].
  injection H as <- <-. apply (Hb self e0 s1 E).
Qed.

Lemma preserves_errors_stateless {A} (c : M Solver A) :
  stateless c -> preserves errors_of c.
Proof. intros [r Hr] self. rewrite Hr. reflexivity. Qed.

Lemma preserves_errors_write_xdmf (name : string) (field : Function) :
  preserves errors_of (write_xdmf name field).
Proof. intros self. rewrite write_xdmf_run. reflexivity. Qed.

(** The helpers leave the errors as they were. *)
Ltac helper_keeps :=
  cbv zeta;
  lazymatch goal with
  | |- preserves _ (bind _ _) =>
      apply preserves_bind; [helper_keeps | intros; helper_keeps]
  | |- preserves _ (write_xdmf _ _) => apply preserves_errors_write_xdmf
  | |- preserves _ (componentwise_errors _ _) =>
      apply preserves_errors_stateless, componentwise_errors_stateless
  | |- preserves _ this => apply preserves_this
  | |- preserves _ _ =>
      apply preserves_errors_stateless;
      first [ apply stateless_ret | apply stateless_raise
            | apply stateless_require ]
  end.

Ltac errors_kept :=
  cbv zeta;
  lazymatch goal with
  | |- errors_unchanged_on_raise (bind (modify _) (fun _ => modify _)) =>
      apply errors_kept_assignments2
  | |- errors_unchanged_on_raise (bind (modify _) _) =>
      apply errors_kept_assignments3
  | |- errors_unchanged_on_raise (bind _ _) =>
      apply errors_kept_bind; [helper_keeps | intros; errors_kept]
  end.

Lemma calc_errors_heat_keeps_errors : errors_unchanged_on_raise calc_errors_heat.
Proof.
  unfold calc_errors_heat, calc_scalarfield_errors, calc_vectorfield_errors,
    getitem, not_none. errors_kept.
Qed.

Lemma calc_errors_stress_keeps_errors :
  errors_unchanged_on_raise calc_errors_stress.
Proof.
  unfold calc_errors_stress, calc_scalarfield_errors, calc_vectorfield_errors,
    calc_tensorfield_errors, getitem, not_none. errors_kept.
Qed.

Lemma first_helper_raises (name_ : string) (self : Solver)
    (sol_ : option (option Function)) (sol_e_ : option (option gexpr))
    (v_sol : option (option FunctionSpace_t))
    (rest : errval * errval -> M Solver unit) :
  ~ (exists f e V, sol_ = Some (Some f) /\ sol_e_ = Some (Some e)
                   /\ v_sol = Some (Some V)) ->
  exists exc,
    bind (require (KeyError name_) sol_) (fun sol_ =>
    bind (require (KeyError name_) sol_e_) (fun sol_e_ =>
    bind (require (KeyError name_) v_sol) (fun v_sol =>
    bind (calc_scalarfield_errors sol_ sol_e_ v_sol name_) rest))) self
    = (Raise exc, self).
Proof.
  intros Hnot. unfold calc_scalarfield_errors, not_none.
  destruct sol_ as [[f|]|]; destruct sol_e_ as [[e|]|];
    destruct v_sol as [[V|]|];
    try (eexists; reflexivity).
  exfalso. apply Hnot. exists f, e, V. repeat split.
Qed.

(** X15.  [calc_errors] stores the errors at its end: when it raises,
    [self.errors] is as it was (in [src/src/solver.py] but for mode
    "coupled", whose first half has stored its errors when the second
    raises).  And it raises with the solver as it was, no file written,
    when the first field of the mode (theta in mode "heat", p in mode
    "stress") lacks its solution, its exact solution or its space. *)
Theorem calc_errors_stores_errors_at_its_end (rv : revision) (self : Solver) :
  (rv = fenicsR13 \/ mode self <> "coupled" ->
   forall exc self',
     calc_errors_of rv self = (Raise exc, self') ->
     errors_of self' = errors_of self)
  /\ (forall first,
        (mode self = "heat" /\ first = "theta")
        \/ (mode self = "stress" /\ first = "p") ->
        ~ (exists f e V,
              sget (sol self) first = Some (Some f)
              /\ sget (esol self) first = Some (Some e)
              /\ sget (fspaces self) first = Some (Some V)) ->
        exists exc, calc_errors_of rv self = (Raise exc, self)).
Proof.
  split.
  - intros Hrv exc self' H.
    destruct rv; cbn [calc_errors_of] in H;
      unfold R13.calc_errors, Src.calc_errors in H;
      rewrite (bind_run _ _ _ _ _ (this_run self)) in H;
      destruct (mode_cases (mode self)) as [Hm|[Hm|[Hm|(Hm1 & Hm2 & Hm3)]]];
      try (rewrite Hm in *;
           change ("heat" =? "heat") with true in *;
           change ("heat" =? "stress") with false in *;
           change ("heat" =? "coupled") with false in *;
           change ("stress" =? "heat") with false in *;
           change ("stress" =? "stress") with true in *;
           change ("stress" =? "coupled") with false in *;
           change ("coupled" =? "heat") with false in *;
           change ("coupled" =? "stress") with false in *;
           change ("coupled" =? "coupled") with true in *);
      rewrite ?Hm1, ?Hm2, ?Hm3 in H;
      cbn [orb] in H; cbv iota in H;
      try (apply (errors_kept_then_return _ calc_errors_heat_keeps_errors
                    self exc self' H));
      try (apply (calc_errors_stress_keeps_errors self exc self' H));
      try discriminate H.
    destruct Hrv as [Hrv|Hrv]; [discriminate Hrv | destruct (Hrv eq_refl)].
  - intros first Hfirst Hnot.
    assert (Hblock : exists exc,
               (if mode self =? "heat" then calc_errors_heat self
                else calc_errors_stress self) = (Raise exc, self)).
    { destruct Hfirst as [[Hm ->]|[Hm ->]]; rewrite Hm;
        [change ("heat" =? "heat") with true
        |change ("stress" =? "heat") with false]; cbv iota;
        unfold calc_errors_heat, calc_errors_stress, getitem;
        rewrite (bind_run _ _ _ _ _ (this_run self));
        apply first_helper_raises; exact Hnot. }
    destruct Hblock as [exc Hblock]. exists exc.
    destruct rv; cbn [calc_errors_of];
      unfold R13.calc_errors, Src.calc_errors;
      rewrite (bind_run _ _ _ _ _ (this_run self));
      destruct Hfirst as [[Hm _]|[Hm _]]; rewrite Hm in *;
      change ("heat" =? "heat") with true in *;
      change ("heat" =? "stress") with false in *;
      change ("heat" =? "coupled") with false in *;
      change ("stress" =? "heat") with false in *;
      change ("stress" =? "stress") with true in *;
      change ("stress" =? "coupled") with false in *;
      cbn [orb]; cbv iota in *; unfold bind at 1; cbn [ret];
      rewrite Hblock; reflexivity.
Qed.
End ErrorsAtTheEnd.

(** ** When [setup_function_spaces] returns *)

Section SetupReturns.
Context {D : Dolfin}.





End SetupReturns.


(** ** [solve], then [write_solutions] *)

Section SolveThenWrite.
Context {D : Dolfin}.


End SolveThenWrite.


(** ** [write_parameters] *)

Section WriteParametersFacts.
Context {D : Dolfin}.
Variable interpolate_expression : Expression_t -> FunctionSpace_t -> Function.

(** X18.  [write_parameters] never raises.  It writes two files, for
    "f_heat" and then for "f_mass", and changes nothing else of the solver;
    when the interpolant of an expression lies in the space it was
    interpolated into, what it writes are the interpolants of the heat
    source and of the mass source in the Lagrange space of degree 1 on the
    mesh, under these two names, not projections of them. *)
Theorem write_parameters_writes_two_sources (self : Solver) :
  (forall e V, function_space (interpolate_expression e V) = V) ->
  let P1 := FunctionSpace (mesh self) (FiniteElement "Lagrange" (cell self) 1) in
  write_parameters interpolate_expression self
  = (Ok tt,
     add_io (xdmf_write (xdmf_path self "f_mass")
               (rename (interpolate_expression (mass_source self) P1) "f_mass")
               (time self))
       (add_io (xdmf_write (xdmf_path self "f_heat")
                  (rename (interpolate_expression (heat_source self) P1) "f_heat")
                  (time self))
          self)).
Proof.
  intros Hspace P1. unfold write_parameters.
  assert (Hplain : forall e nm s0,
            written_field s0 nm (interpolate_expression e P1)
            = rename (interpolate_expression e P1) nm).
  { intros e nm s0. unfold written_field.
    rewrite remove_symmetry_other; [reflexivity|].
    intros degree _. rewrite Hspace. discriminate. }
  eapply bind_exec; [apply this_run|]. cbv beta zeta.
  eapply bind_exec; [apply write_xdmf_run|]. cbv beta.
  eapply bind_exec; [apply write_xdmf_run|]. cbv beta.
  unfold ret. fold P1. rewrite !Hplain. reflexivity.
Qed.
End WriteParametersFacts.

Lemma write_parameters_writes_two_sources_witness :
  files_written
    (snd (write_parameters (D := Demo.dolfin)
            (fun _ V => Function_new (D := Demo.dolfin) V)
            (Demo.solver "heat" true 2)))
  = ["out/f_heat_0.xdmf"; "out/f_mass_0.xdmf"].
Proof.
  rewrite (write_parameters_writes_two_sources (D := Demo.dolfin)
             (fun _ V => Function_new (D := Demo.dolfin) V)
             (Demo.solver "heat" true 2) (fun _ _ => eq_refl)).
  reflexivity.
Defined.

(** ** [create_meshes.py] *)

Section CreateMeshesFacts.
Import CreateMeshes.

Lemma to_int_not_nil (z : Z) :
  Z.to_int z <> Decimal.Pos Decimal.Nil /\ Z.to_int z <> Decimal.Neg Decimal.Nil.
Proof.
  split; intros E; pose proof (f_equal Z.of_int E) as E';
    rewrite DecimalZ.of_to in E'; cbn in E'; subst z; discriminate E.
Qed.

(** [str] gives different integers different strings. *)
Lemma str_of_Z_inj (a b : Z) : str_of_Z a = str_of_Z b -> a = b.
Proof.
  unfold str_of_Z. intros E.
  apply (f_equal NilZero.int_of_string) in E.
  destruct (to_int_not_nil a) as [Ha Ha']. destruct (to_int_not_nil b) as [Hb Hb'].
  rewrite !NilZero.isi in E by assumption.
  injection E as E. apply DecimalZ.to_int_inj, E.
Qed.

Lemma h5_files_create_mesh (exponent : Z) :
  h5_files (create_mesh exponent) = [mesh_name_of exponent ++ ".h5"].
Proof. reflexivity. Qed.

Lemma h5_files_loop (exponents : list Z) :
  h5_files (flat_map create_mesh exponents)
  = map (fun e => mesh_name_of e ++ ".h5") exponents.
Proof.
  unfold h5_files. induction exponents as [|e l IH]; [reflexivity|].
  cbn [flat_map map]. rewrite flat_map_app, IH. reflexivity.
Qed.

Lemma h5_name_inj (a b : Z) :
  mesh_name_of a ++ ".h5" = mesh_name_of b ++ ".h5" -> a = b.
Proof.
  intros E. apply string_append_inv_tail in E. unfold mesh_name_of in E.
  apply string_append_inv_head in E. apply str_of_Z_inj, E.
Qed.

(** X19.  [create_mesh] of two different exponents opens two different HDF5
    files, named by the geometry and the exponent; so a loop over
    exponents without repetition writes each mesh to a file of its own, and
    the loops of the two scripts (exponents 0 to 4, and 5 to 8) write nine
    files, no one twice. *)
Theorem create_mesh_files_are_distinct :
  (forall a b, h5_files (create_mesh a) = h5_files (create_mesh b) -> a = b)
  /\ (forall exponents, NoDup exponents ->
        NoDup (h5_files (flat_map create_mesh exponents))
        /\ length (h5_files (flat_map create_mesh exponents)) = length exponents)
  /\ NoDup (h5_files (main_of_heat_tests ++ main_of_tests))
  /\ length (h5_files (main_of_heat_tests ++ main_of_tests)) = 9%nat.
Proof.
  assert (Hloop : forall exponents, NoDup exponents ->
            NoDup (h5_files (flat_map create_mesh exponents))).
  { intros exponents Hnd. rewrite h5_files_loop.
    induction Hnd as [|e l He Hnd IH]; cbn [map]; constructor; [|exact IH].
    intros Hin. apply in_map_iff in Hin. destruct Hin as (e' & E & He').
    apply h5_name_inj in E. subst e'. contradiction. }
  split; [|split; [|split]].
  - intros a b E. rewrite !h5_files_create_mesh in E.
    apply h5_name_inj. congruence.
  - intros exponents Hnd. split; [apply Hloop, Hnd|].
    rewrite h5_files_loop. apply length_map.
  - unfold main_of_heat_tests, main_of_tests. rewrite <- flat_map_app.
    apply Hloop. cbv. repeat constructor; cbn; intuition discriminate.
  - reflexivity.
Qed.
End CreateMeshesFacts.

Lemma create_mesh_files_are_distinct_witness :
  CreateMeshes.h5_files CreateMeshes.main_of_tests
  = ["ring5.h5"; "ring6.h5"; "ring7.h5"; "ring8.h5"]
  /\ NoDup (CreateMeshes.h5_files
              (flat_map CreateMeshes.create_mesh [3; (-3); 30]%Z)).
Proof.
  split; [reflexivity|].
  apply (proj1 (proj2 create_mesh_files_are_distinct)).
  repeat constructor; cbn; intuition discriminate.
Defined.

(** ** The exception of [check_bcs] *)

Section CheckMessage.

Lemma check_loop_first (allowed ids : list Z) (self : Solver) :
  for_each (fun edge_id : Z =>
    if negb (existsb (Z.eqb edge_id) allowed)
    then raise (Exception ("Mesh edge id " ++ str_of_Z edge_id ++ " has no bcs!"))
    else ret tt) ids self
  = match find (fun edge_id => negb (existsb (Z.eqb edge_id) allowed)) ids with
    | Some edge_id =>
        (Raise (Exception ("Mesh edge id " ++ str_of_Z edge_id ++ " has no bcs!")),
         self)
    | None => (Ok tt, self)
    end.
Proof.
  induction ids as [|e ids IH]; cbn [for_each find]; [reflexivity|].
  destruct (negb (existsb (Z.eqb e) allowed)).
  - reflexivity.
  - unfold bind at 1. cbn [ret]. exact IH.
Qed.

(** X20.  [check_bcs] stops at the first entry of [boundaries.array()] that
    is neither [0] nor a key of [bcs]: the exception it raises carries the
    message "Mesh edge id <id> has no bcs!" for that entry, which is an
    unprescribed id, and different ids give different messages; when there
    is no such entry it returns. *)
Theorem check_bcs_names_first_unprescribed (self : Solver) :
  check_bcs self
  = match first_unprescribed self with
    | Some edge_id =>
        (Raise (Exception ("Mesh edge id " ++ str_of_Z edge_id ++ " has no bcs!")),
         self)
    | None => (Ok tt, self)
    end
  /\ (forall edge_id,
         first_unprescribed self = Some edge_id -> unprescribed self edge_id)
  /\ (forall a b,
         "Mesh edge id " ++ str_of_Z a ++ " has no bcs!"
         = "Mesh edge id " ++ str_of_Z b ++ " has no bcs!" -> a = b).
Proof.
  split; [|split].
  - unfold check_bcs, first_unprescribed.
    rewrite (bind_run _ _ _ _ _ (this_run self)). apply check_loop_first.
  - unfold first_unprescribed, unprescribed. intros id H.
    apply find_some in H. destruct H as [Hin Hn].
    apply negb_true_iff in Hn. split; [exact Hin|].
    cbn [existsb] in Hn. apply orb_false_iff in Hn. destruct Hn as [H0 Hk].
    split.
    + intros ->. discriminate H0.
    + intros Hk'. 
      assert (existsb (Z.eqb id) (dict_keys (bcs self)) = true) as E.
      { apply existsb_exists. exists id. split; [exact Hk' | apply Z.eqb_refl]. }
      congruence.
  - intros a b E. apply string_append_inv_head in E.
    apply string_append_inv_tail in E. apply str_of_Z_inj, E.
Qed.
End CheckMessage.

(** ** The forms are linear in the trial and in the test functions *)

Section Bilinear.
Context {D : Dolfin}.

Lemma length2_inv {A} (l : list A) :
  length l = 2%nat -> exists a b, l = [a; b].
Proof.
  destruct l as [|a [|b [|c l]]]; try discriminate. intros _. eauto.
Qed.

(** Steps of a builder that returned. *)
Ltac built H :=
  repeat
    (let x := fresh "x" in
     let s1 := fresh "s" in
     let H1 := fresh "Hstep" in
     apply bind_inv in H; destruct H as (x & s1 & H1 & H);
     first
       [ apply lift_inv in H1; destruct H1 as [_ ->]
       | apply boundary_terms_built in H1; destruct H1 as [-> ->] ]);
  apply ret_inv in H; destruct H as [H ->].

(** The data of a point, field by field. *)
Ltac explicit_locals a :=
  let cs := fresh "cs" in
  let nn := fresh "nn" in
  let hh := fresh "hh" in
  let f1 := fresh "th" in
  let f2 := fresh "fs" in
  let f3 := fresh "fp" in
  let f4 := fresh "fu" in
  let f5 := fresh "fsig" in
  let g1 := fresh "ka" in
  let g2 := fresh "gr" in
  let g3 := fresh "gq" in
  let g4 := fresh "gv" in
  let g5 := fresh "gpsi" in
  destruct a as [cs nn hh f1 f2 f3 f4 f5 g1 g2 g3 g4 g5].

Ltac explicit_lists :=
  repeat match goal with
  | H : length ?l = 2%nat |- _ =>
      let a := fresh "e" in
      let b := fresh "e" in
      destruct (length2_inv l H) as (a & b & ->); clear H
  | H : has_shape2 2 2 ?m |- _ =>
      let a := fresh "e" in
      let b := fresh "e" in
      let c := fresh "e" in
      let d := fresh "e" in
      destruct (has_shape2_2x2 m H) as (a & b & c & d & ->); clear H
  end.

Ltac pointwise :=
  cbv [s r theta kappa p u sigma q v psi n t h h_avg terminal restricted
       jump1 jump2 s_n r_n s_t r_t sigma_nn psi_nn sigma_tt psi_tt sigma_nt
       psi_nt].

Ltac values :=
  cbv [trial_combination test_combination jlin vlin mlin jadd jscale combine
       coords FacetNormal CellDiameter trial_theta trial_s trial_p trial_u
       trial_sigma test_kappa test_r test_q test_v test_psi
       perp matvec dot sym div1 div2
       dev3d innerOfTracefree2 inner2 inner3 dev3 sym3 grad3dOf2
       innerOfDevOfGrad2AndGrad2 innerOfDevOfGrad2AndGrad2_with
       innerOfDevOfGrad2AndGrad2_compositional
       gen3dTracefreeTensor grad2 grad1 grad0 vals vals2 transpose tr
       tab3 tab2 tab1 map seq length nth idx3 idx2 idx1 index_sum fold_right
       Identity Nat.eqb dx jsub jneg jzero jconst d0 d1 val fst snd].

(** Finishes the linearity of an integrand given by its expression. *)
Ltac linear Hxy x y :=
  let Hp := fresh "Hp" in
  let Hm := fresh "Hm" in
  let a := fresh "pa" in
  let b := fresh "pb" in
  let a' := fresh "ma" in
  let b' := fresh "mb" in
  pose proof (Hxy plus) as Hp; pose proof (Hxy minus) as Hm; clear Hxy;
  pointwise; revert Hp Hm;
  generalize (x plus), (y plus), (x minus), (y minus); clear x y;
  intros a b a' b';
  explicit_locals a; explicit_locals b; explicit_locals a'; explicit_locals b';
  unfold planar, same_place, same_tests, same_trials;
  cbn [coords FacetNormal CellDiameter trial_theta trial_s trial_p trial_u
       trial_sigma test_kappa test_r test_q test_v test_psi];
  intros Hp Hm; decompose [and] Hp; decompose [and] Hm; clear Hp Hm;
  subst; explicit_lists; values; field.

Lemma heat_forms_bilinear (self st st' : Solver) a1 a2 l1 l2 :
  R13.heat_forms self st = (Ok (a1, a2, l1, l2), st') ->
  Forall (fun i => linear_in_trials i /\ linear_in_tests i)
    (integrals (a1 +@ a2)).
Proof.
  unfold R13.heat_forms. intros H.
  destruct (use_coeffs self); built H; injection H as -> -> _ _;
    cbn [integrals form_add times integrate app].
  all: repeat constructor.
  all: intros c pt pt' Hxy; cbn [integrand]; linear Hxy pt pt'.
Qed.

Lemma stress_forms_bilinear (self st st' : Solver) a1 l1 a2 l2 a3 l3 :
  R13.stress_forms self st = (Ok (a1, l1, a2, l2, a3, l3), st') ->
  Forall (fun i => linear_in_trials i /\ linear_in_tests i)
    (integrals (a1 +@ a2 +@ a3)).
Proof.
  unfold R13.stress_forms. intros H.
  built H; injection H as -> _ -> _ -> _;
    cbn [integrals form_add times integrate app].
  all: repeat constructor.
  all: intros c pt pt' Hxy; cbn [integrand]; linear Hxy pt pt'.
Qed.

Lemma stabilization_bilinear (self : Solver) :
  Forall (fun i => linear_in_trials i /\ linear_in_tests i)
    (integrals (stab_of self)).
Proof.
  unfold stab_of, cip_heat, cip_stress.
  destruct (use_cip self); [destruct (mode self =? "heat")|];
    cbn [integrals form_add times integrate app].
  all: repeat constructor.
  all: intros c pt pt' Hxy; cbn [integrand]; linear Hxy pt pt'.
Qed.

(** The integrands of the linear forms read the place and the test
    functions only. *)
Ltac free Hxy x y :=
  let Hp := fresh "Hp" in
  let Hm := fresh "Hm" in
  let a := fresh "pa" in
  let b := fresh "pb" in
  let a' := fresh "ma" in
  let b' := fresh "mb" in
  pose proof (Hxy plus) as Hp; pose proof (Hxy minus) as Hm; clear Hxy;
  pointwise; revert Hp Hm;
  generalize (x plus), (y plus), (x minus), (y minus); clear x y;
  intros a b a' b';
  explicit_locals a; explicit_locals b; explicit_locals a'; explicit_locals b';
  unfold same_place, same_tests;
  cbn [coords FacetNormal CellDiameter test_kappa test_r test_q test_v test_psi];
  intros Hp Hm; decompose [and] Hp; decompose [and] Hm; clear Hp Hm;
  subst; reflexivity.

Ltac free_form :=
  rewrite ?integrals_add, integrals_form_sum_times;
  repeat (apply Forall_app; split);
  [ apply Forall_forall; intros i Hi; apply in_map_iff in Hi;
    destruct Hi as (bc & <- & _)
  | cbn [integrals times integrate]; repeat constructor .. ];
  intros pt pt' Hxy; cbn [integrand]; free Hxy pt pt'.

Lemma heat_forms_free (self st st' : Solver) a1 a2 l1 l2 :
  R13.heat_forms self st = (Ok (a1, a2, l1, l2), st') ->
  Forall free_of_trials (integrals (l1 +@ l2)).
Proof.
  unfold R13.heat_forms. intros H.
  destruct (use_coeffs self); built H; injection H as _ _ -> ->; free_form.
Qed.

Lemma stress_forms_free (self st st' : Solver) a1 l1 a2 l2 a3 l3 :
  R13.stress_forms self st = (Ok (a1, l1, a2, l2, a3, l3), st') ->
  Forall free_of_trials (integrals (l1 +@ l2 +@ l3)).
Proof.
  unfold R13.stress_forms. intros H.
  built H; injection H as _ -> _ -> _ ->; free_form.
Qed.

(** X21.  In mode "heat" and in mode "stress", when [assemble] of
    src/fenicsR13/src/solver.py returns, both forms are set; on the
    two-dimensional domain every integrand of [form_a] is linear in the
    trial functions with the test functions fixed and linear in the test
    functions with the trial functions fixed, the stabilization terms among
    them, and no integrand of [form_b] depends on the trial functions: the
    system that [solve] hands to the linear solver is a linear one. *)
Theorem assemble_forms_are_bilinear_and_linear (self self' : Solver) :
  mode self = "heat" \/ mode self = "stress" ->
  R13.assemble self = (Ok tt, self') ->
  exists a b,
    form_a self' = Some a /\ form_b self' = Some b
    /\ Forall (fun i => linear_in_trials i /\ linear_in_tests i) (integrals a)
    /\ Forall free_of_trials (integrals b).
Proof.
  intros Hmode H. apply R13_assemble_inv in H. destruct H as [Hheat Hstress].
  destruct Hmode as [Hmode|Hmode].
  - destruct (Hheat Hmode) as (a1 & a2 & l1 & l2 & Hf & ->).
    eexists. eexists. split; [reflexivity|]. split; [reflexivity|]. split.
    + rewrite (integrals_add (a1 +@ a2)). apply Forall_app. split.
      * apply (heat_forms_bilinear _ _ _ _ _ _ _ Hf).
      * apply stabilization_bilinear.
    + apply (heat_forms_free _ _ _ _ _ _ _ Hf).
  - destruct (Hstress Hmode) as (a1 & l1 & a2 & l2 & a3 & l3 & Hf & ->).
    eexists. eexists. split; [reflexivity|]. split; [reflexivity|]. split.
    + rewrite (integrals_add (a1 +@ a2 +@ a3)). apply Forall_app. split.
      * apply (stress_forms_bilinear _ _ _ _ _ _ _ _ _ Hf).
      * apply stabilization_bilinear.
    + apply (stress_forms_free _ _ _ _ _ _ _ _ _ Hf).
Qed.
End Bilinear.

(** The stress system on the ring, at a place of the plane. *)
Lemma assemble_forms_are_bilinear_and_linear_witness :
  planar Demo.here
  /\ exists a b,
       form_a (snd (R13.assemble (D := Demo.dolfin)
                      (Demo.solver_with_spaces fenicsR13 "stress" true 2)))
       = Some a
       /\ form_b (snd (R13.assemble (D := Demo.dolfin)
                         (Demo.solver_with_spaces fenicsR13 "stress" true 2)))
          = Some b
       /\ Forall (fun i => linear_in_trials i /\ linear_in_tests i) (integrals a)
       /\ Forall free_of_trials (integrals b).
Proof.
  split; [vm_compute; repeat constructor|].
  apply (assemble_forms_are_bilinear_and_linear (D := Demo.dolfin)
           (Demo.solver_with_spaces fenicsR13 "stress" true 2)).
  - right. vm_compute. reflexivity.
  - apply (returned (R13.assemble (D := Demo.dolfin))
             (Demo.solver_with_spaces fenicsR13 "stress" true 2) tt).
    vm_compute. reflexivity.
Defined.
